(** * SwingSymphony: playback clock and audio scheduling

    A shallow embedding of the playback / sonification core of the
    SwingSymphony front ends:

    - [AudioService]: the Web Audio service of
      [swingsymphony_with_yoc44/services/audioService.ts] (enhanced version,
      with [scheduleSounds]) and its copy in
      [swingsymphony_algo_testing/services/audioService.ts];
    - [Studio]: the [Studio] component of
      [swingsymphony_with_yoc44/components/Studio.tsx] together with the
      audio effect of [RhythmVisualizer.tsx];
    - [LegacyStudio]: the first [Studio] of [swingsymphony/components/Studio.tsx];
    - [BattleMode]: the clock of [swingsymphony/components/BattleMode.tsx];
    - [Yoc44Service] and [Skeleton3DViewer]: frame selection, wrist trail
      and impact detection of the 3D viewer ([yoc44Service.ts] and the
      viewer in [Studio.tsx]);
    - [ApiService]: [pollJobStatus] of [apiService.ts];
    - [PoseOverlay] and [Constants]: frame selection of the 2D overlay and
      the generated pose data of [swingsymphony/constants.ts];
    - [ParticleVisualizer]: the trigger of the particle view of
      [swingsymphony_algo_testing].

    [Math.floor] is [Zfloor]; indices and counts are integers.

    The [animate] of [swingsymphony_algo_testing/App.tsx] is the one of
    [Studio] with [data.duration] read directly instead of through
    [durationRef], and without the console messages.

    JavaScript numbers are modelled as real numbers: every formula of the
    source is kept as written, with exact arithmetic in place of IEEE
    doubles ([Math.pow] is [Rpower], [Math.max]/[Math.min] are [Rmax]/[Rmin]).
    There is no NaN and no signed zero in this model. Times on the frame
    clock are in milliseconds, positions and times on the audio engine
    clock in seconds, as in the source. *)

From stdpp Require Import base option list gmap strings.
From Stdlib Require Import Reals Lra Lia Zfloor Sorted.

#[local] Open Scope R_scope.

(** ** Numbers and truthiness *)

(** [!x] for a JavaScript number: only [0] is falsy (NaN does not exist
    here). *)
Definition falsy (x : R) : bool := if Req_dec_T x 0 then true else false.

(** [a || b] on numbers where the left operand may be missing. *)
Definition or_default (a : option R) (b : R) : R :=
  match a with
  | Some x => if falsy x then b else x
  | None => b
  end.

(** ** The audio service *)

Module AudioService.

Inductive SoundType := KICK | BASS | SNARE | CRASH.

(** [interface ScheduledSound]. *)
Record ScheduledSound := {
  sound_id : string;
  sound_type : SoundType;
  sound_time : R;
  sound_intensity : R }.

(** An [AudioParam] automation as the service writes it:
    [setValueAtTime(value, at)] then
    [exponentialRampToValueAtTime(target, until)]. *)
Record Ramp := {
  ramp_value : R;
  ramp_at : R;
  ramp_target : R;
  ramp_until : R }.

(** The node graphs the four generators connect to the master gain. Noise
    buffers are filled from [Math.random] and are not represented. *)
Inductive Voice :=
| Tone (frequency gain : Ramp) (start stop : R)
| Snare (filterFreq : R) (noiseGain : Ramp) (oscFreq : R) (oscGain : Ramp)
        (start noiseStop oscStop : R)
| Crash (filterFreq : R) (noiseGain : Ramp) (start stop : R).

(** Onset of a voice on the engine clock ([start(time)]). *)
Definition onset (v : Voice) : R :=
  match v with
  | Tone _ _ start _ => start
  | Snare _ _ _ _ start _ _ => start
  | Crash _ _ start _ => start
  end.

(** Level at onset of the gain envelope (of the noise part for the snare). *)
Definition amplitude (v : Voice) : R :=
  match v with
  | Tone _ g _ _ => ramp_value g
  | Snare _ g _ _ _ _ _ => ramp_value g
  | Crash _ g _ _ => ramp_value g
  end.

(** Oscillator frequency at onset, for the voices that have an oscillator. *)
Definition frequency (v : Voice) : option R :=
  match v with
  | Tone f _ _ _ => Some (ramp_value f)
  | Snare _ _ f _ _ _ _ => Some f
  | Crash _ _ _ _ => None
  end.

(** The [AudioContext]: its clock and the voices started on it, most
    recent first. A started source node cannot be reached again by the
    service, which keeps no reference to it. *)
Record AudioContext := {
  currentTime : R;
  voices : list Voice }.

(** [class AudioService]. The [GainNode] is represented by its
    [gain.value]. *)
Record t := {
  audioContext : option AudioContext;
  masterGain : option R;
  scheduledSounds : gmap string R;
  currentSpeed : R }.

(** Field initialisers of the class. *)
Definition new : t :=
  {| audioContext := None;
     masterGain := None;
     scheduledSounds := ∅;
     currentSpeed := 1 |}.

(** [initAudio]: a fresh context starts its clock at 0. *)
Definition initAudio (a : t) : t :=
  match audioContext a with
  | Some _ => a
  | None =>
      {| audioContext := Some {| currentTime := 0; voices := [] |};
         masterGain := Some 0.3;
         scheduledSounds := scheduledSounds a;
         currentSpeed := currentSpeed a |}
  end.

Definition setSpeed (speed : R) (a : t) : t :=
  {| audioContext := audioContext a;
     masterGain := masterGain a;
     scheduledSounds := scheduledSounds a;
     currentSpeed := speed |}.

Definition getPitchShift (a : t) : R :=
  Rpower 2 ((currentSpeed a - 1) * 0.167).

Definition clearScheduledSounds (a : t) : t :=
  {| audioContext := audioContext a;
     masterGain := masterGain a;
     scheduledSounds := ∅;
     currentSpeed := currentSpeed a |}.

(** Connecting a started voice to the master gain. *)
Definition connect (v : Voice) (a : t) : t :=
  match audioContext a, masterGain a with
  | Some ctx, Some _ =>
      {| audioContext :=
           Some {| currentTime := currentTime ctx; voices := v :: voices ctx |};
         masterGain := masterGain a;
         scheduledSounds := scheduledSounds a;
         currentSpeed := currentSpeed a |}
  | _, _ => a
  end.

Definition kickVoice (a : t) (time intensity : R) : Voice :=
  let volume := 0.3 + intensity * 0.7 in
  let baseFreq := 150 * (1 + intensity * 0.5) in
  let pitchShift := getPitchShift a in
  let frequency := baseFreq * pitchShift in
  Tone
    {| ramp_value := frequency; ramp_at := time;
       ramp_target := 0.01; ramp_until := time + 0.5 |}
    {| ramp_value := volume; ramp_at := time;
       ramp_target := 0.01; ramp_until := time + 0.5 |}
    time (time + 0.5).

Definition scheduleKick (time intensity : R) (a : t) : t :=
  connect (kickVoice a time intensity) a.

Definition bassVoice (a : t) (time intensity : R) : Voice :=
  let volume := 0.24 + intensity * 0.56 in
  let baseFreq := 100 * (1 + intensity * 0.5) in
  let pitchShift := getPitchShift a in
  let frequency := baseFreq * pitchShift in
  Tone
    {| ramp_value := frequency; ramp_at := time;
       ramp_target := 0.01; ramp_until := time + 0.4 |}
    {| ramp_value := volume; ramp_at := time;
       ramp_target := 0.01; ramp_until := time + 0.4 |}
    time (time + 0.4).

Definition scheduleBass (time intensity : R) (a : t) : t :=
  connect (bassVoice a time intensity) a.

Definition snareVoice (a : t) (time intensity : R) : Voice :=
  let noiseVolume := 0.12 + intensity * 0.28 in
  let baseFreq := 180 * (1 + intensity * 0.5) in
  let pitchShift := getPitchShift a in
  let oscVolume := 0.09 + intensity * 0.21 in
  Snare 1000
    {| ramp_value := noiseVolume; ramp_at := time;
       ramp_target := 0.01; ramp_until := time + 0.2 |}
    (baseFreq * pitchShift)
    {| ramp_value := oscVolume; ramp_at := time;
       ramp_target := 0.01; ramp_until := time + 0.1 |}
    time (time + 0.2) (time + 0.1).

Definition scheduleSnare (time intensity : R) (a : t) : t :=
  connect (snareVoice a time intensity) a.

Definition crashVoice (time intensity : R) : Voice :=
  let filterFreq := 2000 * (1 + intensity * 0.75) in
  let volume := 0.15 + intensity * 0.35 in
  Crash filterFreq
    {| ramp_value := volume; ramp_at := time;
       ramp_target := 0.01; ramp_until := time + 0.5 |}
    time (time + 0.5).

Definition scheduleCrash (time intensity : R) (a : t) : t :=
  connect (crashVoice time intensity) a.

Definition scheduleSound (type : SoundType) (time intensity : R) (a : t) : t :=
  match type with
  | KICK => scheduleKick time intensity a
  | BASS => scheduleBass time intensity a
  | SNARE => scheduleSnare time intensity a
  | CRASH => scheduleCrash time intensity a
  end.

(** The voice [scheduleSound] builds, whatever the state of the context. *)
Definition voiceOf (a : t) (type : SoundType) (time intensity : R) : Voice :=
  match type with
  | KICK => kickVoice a time intensity
  | BASS => bassVoice a time intensity
  | SNARE => snareVoice a time intensity
  | CRASH => crashVoice time intensity
  end.

Definition recordSound (id : string) (audioTime : R) (a : t) : t :=
  {| audioContext := audioContext a;
     masterGain := masterGain a;
     scheduledSounds := <[id := audioTime]> (scheduledSounds a);
     currentSpeed := currentSpeed a |}.

(** The engine clock as the service reads it ([0] stands for the reads
    that the null checks make unreachable). *)
Definition now (a : t) : R :=
  match audioContext a with
  | Some ctx => currentTime ctx
  | None => 0
  end.

(** Body of the [forEach] callback of [scheduleSounds]. *)
Definition scheduleOne (audioStartTime startTime : R) (a : t) (sound : ScheduledSound) : t :=
  let audioTime := audioStartTime + (sound_time sound - startTime) in
  if Rgt_dec audioTime (now a)
  then recordSound (sound_id sound) audioTime
         (scheduleSound (sound_type sound) audioTime (sound_intensity sound) a)
  else a.

Definition scheduleSounds (sounds : list ScheduledSound) (startTime : R) (a : t) : t :=
  let a := initAudio a in
  match audioContext a with
  | None => a
  | Some ctx =>
      let a := clearScheduledSounds a in
      let audioStartTime := currentTime ctx + 0.02 in
      fold_left (scheduleOne audioStartTime startTime) sounds a
  end.

(** Legacy entry points: immediate triggers at the default intensity. *)
Definition playKick (a : t) : t :=
  let a := initAudio a in
  match audioContext a with
  | None => a
  | Some ctx => scheduleKick (currentTime ctx) 0.7 a
  end.

Definition playBass (a : t) : t :=
  let a := initAudio a in
  match audioContext a with
  | None => a
  | Some ctx => scheduleBass (currentTime ctx) 0.7 a
  end.

Definition playSnare (a : t) : t :=
  let a := initAudio a in
  match audioContext a with
  | None => a
  | Some ctx => scheduleSnare (currentTime ctx) 0.7 a
  end.

Definition playCrash (a : t) : t :=
  let a := initAudio a in
  match audioContext a with
  | None => a
  | Some ctx => scheduleCrash (currentTime ctx) 0.7 a
  end.

Definition playRhythmNode (type : SoundType) (intensity : R) (a : t) : t :=
  let a := initAudio a in
  match audioContext a with
  | None => a
  | Some ctx => scheduleSound type (currentTime ctx) intensity a
  end.

Definition setVolume (volume : R) (a : t) : t :=
  match masterGain a with
  | Some _ =>
      {| audioContext := audioContext a;
         masterGain := Some (Rmax 0 (Rmin 1 volume));
         scheduledSounds := scheduledSounds a;
         currentSpeed := currentSpeed a |}
  | None => a
  end.

(** The engine clock advancing by [d] seconds, outside the service's
    control. *)
Definition elapse (d : R) (a : t) : t :=
  match audioContext a with
  | Some ctx =>
      {| audioContext := Some {| currentTime := currentTime ctx + d; voices := voices ctx |};
         masterGain := masterGain a;
         scheduledSounds := scheduledSounds a;
         currentSpeed := currentSpeed a |}
  | None => a
  end.

(** Voices started on the engine. *)
Definition booked (a : t) : list Voice :=
  match audioContext a with
  | Some ctx => voices ctx
  | None => []
  end.

(** The calls a client can make on the exported [audioService], and the
    passing of engine time. *)
Inductive Op :=
| SetSpeed (speed : R)
| ScheduleSounds (sounds : list ScheduledSound) (startTime : R)
| ClearScheduledSounds
| PlayKick
| PlayBass
| PlaySnare
| PlayCrash
| PlayRhythmNode (type : SoundType) (intensity : R)
| SetVolume (volume : R)
| Elapse (d : R).

Definition step (a : t) (op : Op) : t :=
  match op with
  | SetSpeed speed => setSpeed speed a
  | ScheduleSounds sounds startTime => scheduleSounds sounds startTime a
  | ClearScheduledSounds => clearScheduledSounds a
  | PlayKick => playKick a
  | PlayBass => playBass a
  | PlaySnare => playSnare a
  | PlayCrash => playCrash a
  | PlayRhythmNode type intensity => playRhythmNode type intensity a
  | SetVolume volume => setVolume volume a
  | Elapse d => elapse d a
  end.

(** The service after a history of calls, from the freshly constructed
    object. *)
Definition run (ops : list Op) : t := fold_left step ops new.

(** The context and the master gain are created together. *)
Definition wired (a : t) : Prop :=
  match audioContext a, masterGain a with
  | Some _, Some _ | None, None => True
  | _, _ => False
  end.

(** The master gain, when it exists, is a ratio. *)
Definition gainInRange (a : t) : Prop :=
  match masterGain a with
  | Some g => 0 <= g <= 1
  | None => True
  end.

(** The test of the [forEach] callback of [scheduleSounds],
    [audioTime > currentTime], for a sound of the list. *)
Definition ahead (audioStartTime startTime currentTime : R) (sound : ScheduledSound) : bool :=
  if Rgt_dec (audioStartTime + (sound_time sound - startTime)) currentTime
  then true else false.

(** The invariant of the [forEach] loop of [scheduleSounds]: the loop
    leaves the clock, the speed and the master gain as they are. *)
Definition sameEngine (a a' : t) : Prop :=
  now a' = now a /\ currentSpeed a' = currentSpeed a /\
  masterGain a' = masterGain a /\ wired a' /\ is_Some (audioContext a').

End AudioService.

(** ** The studio component *)

Module Studio.

(** [interface RhythmNode] of [types.ts]. The interface declares
    [intensity: number]; the records come unvalidated from JSON
    ([getModelData] returns [response.json()]), so the field can be missing
    at run time, which is what the default in the scheduling effect is for. *)
Record RhythmNode := {
  node_id : string;
  timestamp : R;
  intensity : option R;
  node_type : AudioService.SoundType;
  label : string }.

(** [interface SwingData], without the pose, velocity and feedback fields,
    which the clock and the scheduler never read. *)
Record SwingData := {
  data_id : string;
  duration : R;
  model_code : option string;
  rhythmTrack : list RhythmNode }.

(** State of a mounted [Studio] with its [RhythmVisualizer] child:
    the [useState] cells, the [useRef] cells and the [audioService]
    singleton. [frameRequested] says that the callback designated by
    [requestRef] is still queued with the browser. [scheduledRef] and
    [scheduleStartRef] are the two refs of [RhythmVisualizer]
    ([scheduledRef], [startTimeRef]). *)
Record t := {
  data : SwingData;
  isPlaying : bool;
  currentTime : R;
  speed : R;
  volume : R;
  availableModels : list string;
  currentModelIndex : nat;
  isLoadingModel : bool;
  frameRequested : bool;
  startTimeRef : option R;
  speedRef : R;
  durationRef : R;
  scheduledRef : bool;
  scheduleStartRef : R;
  audio : AudioService.t }.

(** Writes to one cell. *)
Definition with_data (v : SwingData) (st : t) : t :=
  {| data := v; isPlaying := isPlaying st; currentTime := currentTime st;
     speed := speed st; volume := volume st;
     availableModels := availableModels st;
     currentModelIndex := currentModelIndex st;
     isLoadingModel := isLoadingModel st;
     frameRequested := frameRequested st; startTimeRef := startTimeRef st;
     speedRef := speedRef st; durationRef := durationRef st;
     scheduledRef := scheduledRef st;
     scheduleStartRef := scheduleStartRef st; audio := audio st |}.

Definition with_isPlaying (v : bool) (st : t) : t :=
  {| data := data st; isPlaying := v; currentTime := currentTime st;
     speed := speed st; volume := volume st;
     availableModels := availableModels st;
     currentModelIndex := currentModelIndex st;
     isLoadingModel := isLoadingModel st;
     frameRequested := frameRequested st; startTimeRef := startTimeRef st;
     speedRef := speedRef st; durationRef := durationRef st;
     scheduledRef := scheduledRef st;
     scheduleStartRef := scheduleStartRef st; audio := audio st |}.

Definition with_currentTime (v : R) (st : t) : t :=
  {| data := data st; isPlaying := isPlaying st; currentTime := v;
     speed := speed st; volume := volume st;
     availableModels := availableModels st;
     currentModelIndex := currentModelIndex st;
     isLoadingModel := isLoadingModel st;
     frameRequested := frameRequested st; startTimeRef := startTimeRef st;
     speedRef := speedRef st; durationRef := durationRef st;
     scheduledRef := scheduledRef st;
     scheduleStartRef := scheduleStartRef st; audio := audio st |}.

Definition with_speed (v : R) (st : t) : t :=
  {| data := data st; isPlaying := isPlaying st;
     currentTime := currentTime st; speed := v; volume := volume st;
     availableModels := availableModels st;
     currentModelIndex := currentModelIndex st;
     isLoadingModel := isLoadingModel st;
     frameRequested := frameRequested st; startTimeRef := startTimeRef st;
     speedRef := speedRef st; durationRef := durationRef st;
     scheduledRef := scheduledRef st;
     scheduleStartRef := scheduleStartRef st; audio := audio st |}.

Definition with_volume (v : R) (st : t) : t :=
  {| data := data st; isPlaying := isPlaying st;
     currentTime := currentTime st; speed := speed st; volume := v;
     availableModels := availableModels st;
     currentModelIndex := currentModelIndex st;
     isLoadingModel := isLoadingModel st;
     frameRequested := frameRequested st; startTimeRef := startTimeRef st;
     speedRef := speedRef st; durationRef := durationRef st;
     scheduledRef := scheduledRef st;
     scheduleStartRef := scheduleStartRef st; audio := audio st |}.

Definition with_availableModels (v : list string) (st : t) : t :=
  {| data := data st; isPlaying := isPlaying st;
     currentTime := currentTime st; speed := speed st; volume := volume st;
     availableModels := v; currentModelIndex := currentModelIndex st;
     isLoadingModel := isLoadingModel st;
     frameRequested := frameRequested st; startTimeRef := startTimeRef st;
     speedRef := speedRef st; durationRef := durationRef st;
     scheduledRef := scheduledRef st;
     scheduleStartRef := scheduleStartRef st; audio := audio st |}.

Definition with_currentModelIndex (v : nat) (st : t) : t :=
  {| data := data st; isPlaying := isPlaying st;
     currentTime := currentTime st; speed := speed st; volume := volume st;
     availableModels := availableModels st; currentModelIndex := v;
     isLoadingModel := isLoadingModel st;
     frameRequested := frameRequested st; startTimeRef := startTimeRef st;
     speedRef := speedRef st; durationRef := durationRef st;
     scheduledRef := scheduledRef st;
     scheduleStartRef := scheduleStartRef st; audio := audio st |}.

Definition with_isLoadingModel (v : bool) (st : t) : t :=
  {| data := data st; isPlaying := isPlaying st;
     currentTime := currentTime st; speed := speed st; volume := volume st;
     availableModels := availableModels st;
     currentModelIndex := currentModelIndex st; isLoadingModel := v;
     frameRequested := frameRequested st; startTimeRef := startTimeRef st;
     speedRef := speedRef st; durationRef := durationRef st;
     scheduledRef := scheduledRef st;
     scheduleStartRef := scheduleStartRef st; audio := audio st |}.

Definition with_frameRequested (v : bool) (st : t) : t :=
  {| data := data st; isPlaying := isPlaying st;
     currentTime := currentTime st; speed := speed st; volume := volume st;
     availableModels := availableModels st;
     currentModelIndex := currentModelIndex st;
     isLoadingModel := isLoadingModel st; frameRequested := v;
     startTimeRef := startTimeRef st; speedRef := speedRef st;
     durationRef := durationRef st; scheduledRef := scheduledRef st;
     scheduleStartRef := scheduleStartRef st; audio := audio st |}.

Definition with_startTimeRef (v : option R) (st : t) : t :=
  {| data := data st; isPlaying := isPlaying st;
     currentTime := currentTime st; speed := speed st; volume := volume st;
     availableModels := availableModels st;
     currentModelIndex := currentModelIndex st;
     isLoadingModel := isLoadingModel st;
     frameRequested := frameRequested st; startTimeRef := v;
     speedRef := speedRef st; durationRef := durationRef st;
     scheduledRef := scheduledRef st;
     scheduleStartRef := scheduleStartRef st; audio := audio st |}.

Definition with_speedRef (v : R) (st : t) : t :=
  {| data := data st; isPlaying := isPlaying st;
     currentTime := currentTime st; speed := speed st; volume := volume st;
     availableModels := availableModels st;
     currentModelIndex := currentModelIndex st;
     isLoadingModel := isLoadingModel st;
     frameRequested := frameRequested st; startTimeRef := startTimeRef st;
     speedRef := v; durationRef := durationRef st;
     scheduledRef := scheduledRef st;
     scheduleStartRef := scheduleStartRef st; audio := audio st |}.

Definition with_durationRef (v : R) (st : t) : t :=
  {| data := data st; isPlaying := isPlaying st;
     currentTime := currentTime st; speed := speed st; volume := volume st;
     availableModels := availableModels st;
     currentModelIndex := currentModelIndex st;
     isLoadingModel := isLoadingModel st;
     frameRequested := frameRequested st; startTimeRef := startTimeRef st;
     speedRef := speedRef st; durationRef := v;
     scheduledRef := scheduledRef st;
     scheduleStartRef := scheduleStartRef st; audio := audio st |}.

Definition with_scheduledRef (v : bool) (st : t) : t :=
  {| data := data st; isPlaying := isPlaying st;
     currentTime := currentTime st; speed := speed st; volume := volume st;
     availableModels := availableModels st;
     currentModelIndex := currentModelIndex st;
     isLoadingModel := isLoadingModel st;
     frameRequested := frameRequested st; startTimeRef := startTimeRef st;
     speedRef := speedRef st; durationRef := durationRef st;
     scheduledRef := v; scheduleStartRef := scheduleStartRef st;
     audio := audio st |}.

Definition with_scheduleStartRef (v : R) (st : t) : t :=
  {| data := data st; isPlaying := isPlaying st;
     currentTime := currentTime st; speed := speed st; volume := volume st;
     availableModels := availableModels st;
     currentModelIndex := currentModelIndex st;
     isLoadingModel := isLoadingModel st;
     frameRequested := frameRequested st; startTimeRef := startTimeRef st;
     speedRef := speedRef st; durationRef := durationRef st;
     scheduledRef := scheduledRef st; scheduleStartRef := v;
     audio := audio st |}.

Definition with_audio (v : AudioService.t) (st : t) : t :=
  {| data := data st; isPlaying := isPlaying st;
     currentTime := currentTime st; speed := speed st; volume := volume st;
     availableModels := availableModels st;
     currentModelIndex := currentModelIndex st;
     isLoadingModel := isLoadingModel st;
     frameRequested := frameRequested st; startTimeRef := startTimeRef st;
     speedRef := speedRef st; durationRef := durationRef st;
     scheduledRef := scheduledRef st;
     scheduleStartRef := scheduleStartRef st; audio := v |}.

(** *** Effects

    Effects are run by the handlers below right after the state change
    that triggers them (React runs them after the commit that follows). *)

(** [nodes.map(node => ({ id, type, time: node.timestamp,
    intensity: node.intensity || 0.7 }))]. *)
Definition toScheduledSound (node : RhythmNode) : AudioService.ScheduledSound :=
  {| AudioService.sound_id := node_id node;
     AudioService.sound_type := node_type node;
     AudioService.sound_time := timestamp node;
     AudioService.sound_intensity := or_default (intensity node) 0.7 |}.

(** The scheduling effect of [RhythmVisualizer], dependencies
    [[isPlaying, nodes]]. *)
Definition audioEffect (st : t) : t :=
  let st :=
    if isPlaying st && negb (scheduledRef st)
    then
      let scheduledSounds := map toScheduledSound (rhythmTrack (data st)) in
      with_scheduleStartRef (currentTime st)
        (with_scheduledRef true
           (with_audio
              (AudioService.scheduleSounds scheduledSounds (currentTime st) (audio st))
              st))
    else st in
  if negb (isPlaying st)
  then with_scheduledRef false
         (with_audio (AudioService.clearScheduledSounds (audio st)) st)
  else st.

(** The animation effect of [Studio], dependency [[isPlaying]]: its cleanup
    cancels the queued frame, its body queues one when playing. *)
Definition playEffect (st : t) : t :=
  if isPlaying st
  then with_frameRequested true (with_startTimeRef None st)
  else with_startTimeRef None (with_frameRequested false st).

(** [useEffect(() => { speedRef.current = speed }, [speed])]. *)
Definition speedEffect (st : t) : t := with_speedRef (speed st) st.

(** [useEffect(() => { durationRef.current = data.duration }, [data.duration])]. *)
Definition durationEffect (st : t) : t := with_durationRef (duration (data st)) st.

(** *** State setters, with the effects that depend on the cell *)

Definition setIsPlaying (b : bool) (st : t) : t :=
  if Bool.eqb b (isPlaying st) then st
  else playEffect (audioEffect (with_isPlaying b st)).

Definition setCurrentTime (x : R) (st : t) : t := with_currentTime x st.

Definition setSpeed (s : R) (st : t) : t := speedEffect (with_speed s st).

Definition setData (d : SwingData) (st : t) : t :=
  audioEffect (durationEffect (with_data d st)).

(** First render: the mount effects of both components. *)
Definition mount (initialData : SwingData) (service : AudioService.t) : t :=
  let st :=
    {| data := initialData; isPlaying := false; currentTime := 0; speed := 1;
       volume := 30; availableModels := []; currentModelIndex := 0%nat;
       isLoadingModel := false; frameRequested := false; startTimeRef := None;
       speedRef := 1; durationRef := duration initialData;
       scheduledRef := false; scheduleStartRef := 0; audio := service |} in
  let st := audioEffect st in
  let st := speedEffect (durationEffect st) in
  let st :=
    with_audio
      (AudioService.setSpeed (speed st)
         (AudioService.setVolume (volume st / 100) (audio st))) st in
  playEffect st.

(** *** Handlers *)

Definition togglePlay (st : t) : t := setIsPlaying (negb (isPlaying st)) st.

Definition handleVolumeChange (newVolume : R) (st : t) : t :=
  with_audio (AudioService.setVolume (newVolume / 100) (audio st))
    (with_volume newVolume st).

Definition handleSpeedChange (newSpeed : R) (st : t) : t :=
  with_audio (AudioService.setSpeed newSpeed (audio st)) (setSpeed newSpeed st).

Definition restartPlayback (st : t) : t :=
  with_startTimeRef None (setIsPlaying true (setCurrentTime 0 st)).

(** [loadModelByIndex], with the outcome of [getModelData] as an argument
    ([None] when the request fails). The two halves around the [await] are
    run back to back; [loadModelBegin] and [loadModelEnd] below are the
    halves taken apart. *)
Definition loadModelByIndex (index : nat) (fetched : option SwingData) (st : t) : t :=
  if (Nat.eqb (length (availableModels st)) 0 || isLoadingModel st)%bool then st
  else
    let st := with_isLoadingModel true st in
    let st := setIsPlaying false st in
    let st := setCurrentTime 0 st in
    let st :=
      match fetched with
      | Some modelData => with_currentModelIndex index (setData modelData st)
      | None => st
      end in
    with_isLoadingModel false st.

(** *** The frame callback *)

Inductive LogMessage :=
| AnimationStarted (startTime : R)
| AnimationEnded.

(** What the callback does, in program order. *)
Inductive Action :=
| StoreStartTime (v : option R)
| Log (m : LogMessage)
| SetCurrentTime (x : R)
| SetIsPlaying (b : bool)
| RequestAnimationFrame.

(** [!startTimeRef.current]. *)
Definition startUnset (st : t) : bool :=
  match startTimeRef st with
  | Some s => falsy s
  | None => true
  end.

(** Playback position the callback computes at frame time [time] (ms). *)
Definition newTime (time : R) (st : t) : R :=
  let start := if startUnset st then time else default time (startTimeRef st) in
  let elapsedMs := time - start in
  let elapsedSeconds := elapsedMs / 1000 in
  elapsedSeconds * speedRef st.

(** [animate]; the sampled debug log is left out. *)
Definition animate (time : R) (st : t) : list Action :=
  (if startUnset st
   then [StoreStartTime (Some time); Log (AnimationStarted time)]
   else []) ++
  (if Rge_dec (newTime time st) (durationRef st)
   then [Log AnimationEnded; SetCurrentTime (durationRef st);
         SetIsPlaying false; StoreStartTime None]
   else [SetCurrentTime (newTime time st); RequestAnimationFrame]).

Definition perform (st : t) (a : Action) : t :=
  match a with
  | StoreStartTime v => with_startTimeRef v st
  | Log _ => st
  | SetCurrentTime x => setCurrentTime x st
  | SetIsPlaying b => setIsPlaying b st
  | RequestAnimationFrame => with_frameRequested true st
  end.

(** The browser delivering a frame at [time]: the queued callback, if any,
    is dequeued and run. *)
Definition frame (st : t) (time : R) : t :=
  if frameRequested st
  then fold_left perform (animate time st) (with_frameRequested false st)
  else st.

(** What that frame did. *)
Definition frameActions (st : t) (time : R) : list Action :=
  if frameRequested st then animate time st else [].

(** A succession of frames. *)
Definition frames (st : t) (times : list R) : t := fold_left frame times st.

(** Everything done over a succession of frames. *)
Fixpoint framesActions (st : t) (times : list R) : list Action :=
  match times with
  | [] => []
  | time :: rest => frameActions st time ++ framesActions (frame st time) rest
  end.

(** The states a reader can see while the actions are performed one by
    one. *)
Fixpoint observed (st : t) (actions : list Action) : list t :=
  match actions with
  | [] => []
  | a :: rest => perform st a :: observed (perform st a) rest
  end.

(** Number of times the end of the animation was signalled. *)
Definition isEnded (a : Action) : bool :=
  match a with
  | Log AnimationEnded => true
  | _ => false
  end.

Definition endedCount (actions : list Action) : nat :=
  length (List.filter isEnded actions).

(** A play run that has just been started: playing, a frame queued, the
    reference time not taken yet. *)
Definition started (st : t) : Prop :=
  isPlaying st = true /\ frameRequested st = true /\ startTimeRef st = None.

(** A play run whose reference time is the frame time [t0]. *)
Definition running (t0 : R) (st : t) : Prop :=
  isPlaying st = true /\ frameRequested st = true /\
  startTimeRef st = Some t0 /\ t0 <> 0.

(** *** Model navigation *)

(** [(currentModelIndex + 1) % availableModels.length]; JavaScript's [%] is
    the remainder of the truncated division. *)
Definition nextIndex (current len : nat) : nat :=
  Z.to_nat (Z.rem (Z.of_nat current + 1) (Z.of_nat len)).

(** [(currentModelIndex - 1 + availableModels.length) % availableModels.length]. *)
Definition prevIndex (current len : nat) : nat :=
  Z.to_nat (Z.rem (Z.of_nat current - 1 + Z.of_nat len) (Z.of_nat len)).

Definition loadNextModel (fetched : option SwingData) (st : t) : t :=
  if (Nat.eqb (length (availableModels st)) 0 || isLoadingModel st)%bool then st
  else loadModelByIndex
         (nextIndex (currentModelIndex st) (length (availableModels st))) fetched st.

Definition loadPreviousModel (fetched : option SwingData) (st : t) : t :=
  if (Nat.eqb (length (availableModels st)) 0 || isLoadingModel st)%bool then st
  else loadModelByIndex
         (prevIndex (currentModelIndex st) (length (availableModels st))) fetched st.

(** [models.indexOf(code)], with [None] for -1. *)
Fixpoint indexOf (code : string) (models : list string) : option nat :=
  match models with
  | [] => None
  | m :: rest =>
      if String.eqb m code then Some 0%nat else option_map S (indexOf code rest)
  end.

(** The mount effect that lists the models, at the moment [listModels]
    resolves with [models]; [initial] is the recording of the first render,
    which the effect closes over. *)
Definition modelsListed (initial : SwingData) (models : list string) (st : t) : t :=
  let st := with_availableModels models st in
  match model_code initial with
  | Some code =>
      if String.eqb code EmptyString then st
      else match indexOf code models with
           | Some index => with_currentModelIndex index st
           | None => st
           end
  | None => st
  end.

(** *** What the studio reacts to *)

Inductive Event :=
| TogglePlay
| RestartPlayback
| HandleVolumeChange (newVolume : R)
| HandleSpeedChange (newSpeed : R)
| Frame (time : R)
| ModelsListed (models : list string)
| LoadNextModel (fetched : option SwingData)
| LoadPreviousModel (fetched : option SwingData)
| EngineElapse (d : R).

Definition handle (initial : SwingData) (st : t) (e : Event) : t :=
  match e with
  | TogglePlay => togglePlay st
  | RestartPlayback => restartPlayback st
  | HandleVolumeChange newVolume => handleVolumeChange newVolume st
  | HandleSpeedChange newSpeed => handleSpeedChange newSpeed st
  | Frame time => frame st time
  | ModelsListed models => modelsListed initial models st
  | LoadNextModel fetched => loadNextModel fetched st
  | LoadPreviousModel fetched => loadPreviousModel fetched st
  | EngineElapse d => with_audio (AudioService.elapse d (audio st)) st
  end.

(** The studio mounted on [initial] with a fresh audio service, after a
    history of events. *)
Definition after (initial : SwingData) (events : list Event) : t :=
  fold_left (handle initial) events (mount initial AudioService.new).

(** What the environment can be expected to deliver: frame times that do
    not run backwards from the reference time of the run, speeds that are
    not negative, recordings whose duration is not negative. *)
Definition admissible (st : t) (e : Event) : Prop :=
  match e with
  | Frame time =>
      match startTimeRef st with
      | Some start => start <= time
      | None => True
      end
  | HandleSpeedChange newSpeed => 0 <= newSpeed
  | LoadNextModel (Some d) | LoadPreviousModel (Some d) => 0 <= duration d
  | _ => True
  end.

Fixpoint admissibleFrom (initial : SwingData) (st : t) (events : list Event) : Prop :=
  match events with
  | [] => True
  | e :: rest => admissible st e /\ admissibleFrom initial (handle initial st e) rest
  end.

(** *** What the visualizers derive from the position *)

(** [progressPercent] of [RhythmVisualizer]: the playhead, in percent. *)
Definition progressPercent (currentTime duration : R) : R :=
  currentTime / duration * 100.

(** Position of a node on its lane, in percent. *)
Definition nodePosition (node : RhythmNode) (duration : R) : R :=
  timestamp node / duration * 100.

(** [isActive] of [RhythmVisualizer]. *)
Definition isActive (currentTime : R) (node : RhythmNode) : bool :=
  if Rlt_dec (Rabs (currentTime - timestamp node)) 0.15 then true else false.

(** The rhythm impact frame of [Studio]:
    [data.rhythmTrack.some(n => Math.abs(currentTime - n.timestamp) < 0.1)]. *)
Definition impactVisible (st : t) : bool :=
  existsb (fun n => if Rlt_dec (Rabs (currentTime st - timestamp n)) 0.1
                    then true else false)
          (rhythmTrack (data st)).

(** The guards and refs that go together in every studio the handlers can
    produce. *)
Definition consistent (st : t) : Prop :=
  scheduledRef st = isPlaying st /\
  frameRequested st = isPlaying st /\
  (isPlaying st = true \/ startTimeRef st = None) /\
  speedRef st = speed st /\
  durationRef st = duration (data st) /\
  AudioService.currentSpeed (audio st) = speed st /\
  isLoadingModel st = false /\
  AudioService.wired (audio st) /\
  AudioService.gainInRange (audio st).

(** The position is within the recording and the clock's speed is not
    negative. *)
Definition withinRecording (st : t) : Prop :=
  0 <= currentTime st <= durationRef st /\ 0 <= speedRef st.

(** A node of a lane is lit while [isActive && isPlaying]. *)
Definition highlighted (st : t) (node : RhythmNode) : bool :=
  (isActive (currentTime st) node && isPlaying st)%bool.

(** *** A load in two halves

    [loadModelByIndex] is asynchronous: between its two halves the request
    is pending, and the studio goes on reacting (the play button and the
    keys stay enabled while [isLoadingModel] is set). *)

(** [loadModelByIndex] from its guard up to [await getModelData(modelCode)]. *)
Definition loadModelBegin (st : t) : t :=
  setCurrentTime 0 (setIsPlaying false (with_isLoadingModel true st)).

(** [loadModelByIndex] from the moment the request settles: the [try] body
    after the [await], or the [catch], and the [finally]. [index] is the one
    the call was made with. *)
Definition loadModelEnd (index : nat) (fetched : option SwingData) (st : t) : t :=
  with_isLoadingModel false
    match fetched with
    | Some modelData => with_currentModelIndex index (setData modelData st)
    | None => st
    end.

(** The studio together with the index of the load whose request is
    pending, if any. *)
Record Session := {
  studio : t;
  pending : option nat }.

(** What a session reacts to: the events of the studio (a load given as an
    event settles at once), the first half of a load, and the pending
    request settling. *)
Inductive Happening :=
| Input (e : Event)
| LoadNextBegins
| LoadPreviousBegins
| LoadSettles (fetched : option SwingData).

Definition beginLoad (index : nat) (s : Session) : Session :=
  if (Nat.eqb (length (availableModels (studio s))) 0
      || isLoadingModel (studio s))%bool
  then s
  else {| studio := loadModelBegin (studio s); pending := Some index |}.

Definition happen (initial : SwingData) (s : Session) (h : Happening) : Session :=
  match h with
  | Input e => {| studio := handle initial (studio s) e; pending := pending s |}
  | LoadNextBegins =>
      beginLoad (nextIndex (currentModelIndex (studio s))
                   (length (availableModels (studio s)))) s
  | LoadPreviousBegins =>
      beginLoad (prevIndex (currentModelIndex (studio s))
                   (length (availableModels (studio s)))) s
  | LoadSettles fetched =>
      match pending s with
      | Some index =>
          {| studio := loadModelEnd index fetched (studio s); pending := None |}
      | None => s
      end
  end.

Definition opened (initial : SwingData) : Session :=
  {| studio := mount initial AudioService.new; pending := None |}.

(** The session opened on [initial], after a history. *)
Definition session (initial : SwingData) (history : list Happening) : Session :=
  fold_left (happen initial) history (opened initial).

(** What the environment can be expected to deliver to a session: events
    as for the studio, and recordings that are not shorter than the
    position the studio has reached when they arrive (always so when
    nothing was played while the request was pending: the position is then
    still the 0 the load began with). *)
Definition expected (s : Session) (h : Happening) : Prop :=
  match h with
  | Input e => admissible (studio s) e
  | LoadSettles (Some d) => 0 <= duration d /\ currentTime (studio s) <= duration d
  | _ => True
  end.

Fixpoint expectedFrom (initial : SwingData) (s : Session) (history : list Happening) :
    Prop :=
  match history with
  | [] => True
  | h :: rest => expected s h /\ expectedFrom initial (happen initial s h) rest
  end.

(** The guards and refs that go together in every studio of a session,
    whether a load is pending or not. *)
Definition agreeing (st : t) : Prop :=
  scheduledRef st = isPlaying st /\
  frameRequested st = isPlaying st /\
  (isPlaying st = true \/ startTimeRef st = None) /\
  speedRef st = speed st /\
  durationRef st = duration (data st) /\
  AudioService.currentSpeed (audio st) = speed st /\
  AudioService.wired (audio st) /\
  AudioService.gainInRange (audio st).

(** The loading flag follows the pending request. *)
Definition flagged (s : Session) : Prop :=
  isLoadingModel (studio s) = match pending s with Some _ => true | None => false end.

Definition coherent (s : Session) : Prop := agreeing (studio s) /\ flagged s.

(** [PRO_SWING_DATA] of [constants.ts]. *)
Definition PRO_SWING_DATA : SwingData :=
  {| data_id := "pro-federer-01";
     duration := 2.5;
     model_code := None;
     rhythmTrack :=
       [ {| node_id := "p1"; timestamp := 0.5; intensity := Some 0.8;
            node_type := AudioService.KICK; label := "Leg Load" |};
         {| node_id := "p2"; timestamp := 0.9; intensity := Some 0.9;
            node_type := AudioService.BASS; label := "Hip Fire" |};
         {| node_id := "p3"; timestamp := 1.2; intensity := Some 0.9;
            node_type := AudioService.SNARE; label := "Shoulder Turn" |};
         {| node_id := "p4"; timestamp := 1.4; intensity := Some 1.0;
            node_type := AudioService.CRASH; label := "Contact" |} ] |}.

End Studio.

(** ** The first studio component

    [swingsymphony/components/Studio.tsx]: the clock of the first front
    end, which accumulates a step per frame and has no audio. *)

Module LegacyStudio.

Record t := {
  duration : R;
  isPlaying : bool;
  currentTime : R;
  speed : R;
  frameRequested : bool;
  startTimeRef : option R }.

(** The animation effect, dependencies [[isPlaying, currentTime]]. *)
Definition playEffect (st : t) : t :=
  if isPlaying st
  then {| duration := duration st; isPlaying := isPlaying st;
          currentTime := currentTime st; speed := speed st;
          frameRequested := true; startTimeRef := startTimeRef st |}
  else {| duration := duration st; isPlaying := isPlaying st;
          currentTime := currentTime st; speed := speed st;
          frameRequested := false; startTimeRef := None |}.

Definition startUnset (st : t) : bool :=
  match startTimeRef st with
  | Some s => falsy s
  | None => true
  end.

(** Position the callback computes at frame time [time] (ms): a step added
    to the position of the last render. *)
Definition newTime (time : R) (st : t) : R :=
  let start := if startUnset st then time else default time (startTimeRef st) in
  let progress := (time - start) / 1000 * speed st in
  currentTime st + progress * 0.05.

(** [animate] followed by the effect its state changes trigger. *)
Definition animate (time : R) (st : t) : t :=
  let start := if startUnset st then time else default time (startTimeRef st) in
  if Rge_dec (newTime time st) (duration st)
  then playEffect
         {| duration := duration st; isPlaying := false; currentTime := 0;
            speed := speed st; frameRequested := false; startTimeRef := None |}
  else playEffect
         {| duration := duration st; isPlaying := isPlaying st;
            currentTime := newTime time st; speed := speed st;
            frameRequested := true; startTimeRef := Some start |}.

Definition frame (st : t) (time : R) : t :=
  if frameRequested st then animate time st else st.

End LegacyStudio.

(** Runs of the first studio component over a list of frame times. *)
Module LegacyClock.

Definition frames (st : LegacyStudio.t) (times : list R) : LegacyStudio.t :=
  fold_left LegacyStudio.frame times st.

End LegacyClock.

(** ** The comparison screen

    The clock of [BattleMode] in [swingsymphony/components/BattleMode.tsx]:
    its effect keeps [lastTime] in a local variable, which is new each time
    the effect runs again (when [isPlaying] changes). *)

Module BattleMode.

Record t := {
  duration : R;
  isPlaying : bool;
  currentTime : R;
  lastTime : option R }.

Definition lastUnset (st : t) : bool :=
  match lastTime st with
  | Some l => falsy l
  | None => true
  end.

(** [delta] of the callback at frame time [time] (ms). *)
Definition delta (time : R) (st : t) : R :=
  let last := if lastUnset st then time else default time (lastTime st) in
  (time - last) / 1000.

(** [animate]: always asks for the next frame; the position moves only
    while playing. Reaching the duration stops playback, which runs the
    effect again. *)
Definition animate (time : R) (st : t) : t :=
  if isPlaying st then
    let next := currentTime st + delta time st in
    if Rge_dec next (duration st)
    then {| duration := duration st; isPlaying := false; currentTime := 0;
            lastTime := None |}
    else {| duration := duration st; isPlaying := true; currentTime := next;
            lastTime := Some time |}
  else {| duration := duration st; isPlaying := false;
          currentTime := currentTime st; lastTime := Some time |}.

(** The play button: [setIsPlaying(!isPlaying)], and the effect runs again. *)
Definition togglePlay (st : t) : t :=
  {| duration := duration st; isPlaying := negb (isPlaying st);
     currentTime := currentTime st; lastTime := None |}.

Definition frames (st : t) (times : list R) : t :=
  fold_left (fun st time => animate time st) times st.

End BattleMode.

(** ** The 3D viewer

    [yoc44Service.ts] and the frame selection of [Skeleton3DViewer] in
    [Studio.tsx]. Frame indices are integers. *)

Module Yoc44Service.



(** A joint of a normalized frame, [[x, y, z]]; a normalized frame. *)
Definition Joint : Type := R * R * R.
Definition Frame : Type := list Joint.

(** [frames[i][4]], the right wrist; [None] where the access throws. *)
Definition wrist (frames : list Frame) (i : Z) : option Joint :=
  if (i <? 0)%Z then None
  else match frames !! Z.to_nat i with
       | Some frame => frame !! 4%nat
       | None => None
       end.

(** The values [i] takes in the loop of [calculateWristTrail] for which
    a point is pushed. *)
Definition trailIndices (len : nat) (impactFrame currentFrame : Z) : list Z :=
  let trailStart := (impactFrame - 20)%Z in
  let trailEnd := (impactFrame + 20)%Z in
  let first := Z.max 0 trailStart in
  let last := Z.min (Z.of_nat len - 1) trailEnd in
  List.filter (fun i => (i <=? currentFrame)%Z) (seqZ first (last - first + 1)).

Definition calculateWristTrail
    (frames : list Frame) (impactFrame currentFrame : Z) : option (list Joint) :=
  mapM (wrist frames) (trailIndices (length frames) impactFrame currentFrame).

(** [createTrailCurve]: no curve through fewer than two points. *)
Definition createTrailCurve (points : list Joint) : option (list Joint) :=
  if (length points <? 2)%nat then None else Some points.







End Yoc44Service.

Module Skeleton3DViewer.

(** [Math.min(Math.floor((currentTime / duration) * poseData3D.length),
    poseData3D.length - 1)]. *)
Definition frameIndex (currentTime duration : R) (len : nat) : Z :=
  Z.min (Zfloor (currentTime / duration * IZR (Z.of_nat len)))
        (Z.of_nat len - 1).

(** The effect that sets [currentFrame]; nothing is set for an empty
    recording. *)
Definition currentFrameEffect
    (currentTime duration : R) (len : nat) (currentFrame : Z) : Z :=
  if (0 <? len)%nat then frameIndex currentTime duration len else currentFrame.

(** [impactFrame ?? Math.floor(poseData3D.length * 0.4)]. *)
Definition effectiveImpactFrame (impactFrame : option Z) (len : nat) : Z :=
  match impactFrame with
  | Some i => i
  | None => Zfloor (IZR (Z.of_nat len) * 0.4)
  end.

(** The trail the update effect draws: the points, when they make a
    curve. *)
Definition wristTrail (normalizedFrames : list Yoc44Service.Frame)
    (impactFrame : option Z) (currentFrame : Z) : option (list Yoc44Service.Joint) :=
  match Yoc44Service.calculateWristTrail normalizedFrames
          (effectiveImpactFrame impactFrame (length normalizedFrames))
          currentFrame with
  | Some trailPoints =>
      if (2 <=? length trailPoints)%nat
      then Yoc44Service.createTrailCurve trailPoints
      else None
  | None => None
  end.

End Skeleton3DViewer.

(** ** Polling the analysis job

    [pollJobStatus] of [apiService.ts]. The backend is a function from the
    number of the request to its reply. *)

Module ApiService.

Inductive JobStatus := pending | processing | completed | failed.

Record JobResponse := {
  job_id : string;
  status : JobStatus;
  progress : R;
  message : string;
  result : option Studio.SwingData;
  error : option string }.

(** What [getJobStatus] meets: a response that is ok, with its body; a
    response that is not ok; a request that is rejected with an error. *)
Inductive Reply :=
| Json (body : JobResponse)
| NotOk
| Rejected (reason : string).

Inductive Outcome :=
| Returned (data : Studio.SwingData)
| Thrown (error : string).

Record Run := {
  reported : list JobResponse;
  waits : nat;
  outcome : Outcome }.

(** [status.error || 'Analysis failed']. *)
Definition errorMessage (status : JobResponse) : string :=
  match error status with
  | Some e => if decide (e = EmptyString) then "Analysis failed" else e
  | None => "Analysis failed"
  end.

(** The loop [while (attempts < maxAttempts)] with [remaining] turns left:
    [remaining = maxAttempts - attempts]. *)
Fixpoint poll (server : nat -> Reply) (remaining attempts : nat)
    (reported : list JobResponse) : Run :=
  match remaining with
  | O => {| reported := reported; waits := attempts;
            outcome := Thrown "Job timed out" |}
  | S remaining' =>
      match server attempts with
      | NotOk => {| reported := reported; waits := attempts;
                    outcome := Thrown "Failed to get job status" |}
      | Rejected reason => {| reported := reported; waits := attempts;
                              outcome := Thrown reason |}
      | Json st =>
          let reported := reported ++ [st] in
          match status st, result st with
          | completed, Some data =>
              {| reported := reported; waits := attempts;
                 outcome := Returned data |}
          | failed, _ =>
              {| reported := reported; waits := attempts;
                 outcome := Thrown (errorMessage st) |}
          | _, _ => poll server remaining' (S attempts) reported
          end
      end
  end.

Definition maxAttempts : nat := 120.

Definition pollJobStatus (server : nat -> Reply) : Run :=
  poll server maxAttempts 0 [].

(** A reply that ends the polling. *)
Definition final (r : Reply) : bool :=
  match r with
  | Json st =>
      match status st, result st with
      | completed, Some _ => true
      | failed, _ => true
      | _, _ => false
      end
  | NotOk | Rejected _ => true
  end.

(** What the polling ends with on a final reply. *)
Definition outcomeOf (r : Reply) : Outcome :=
  match r with
  | Json st =>
      match status st, result st with
      | completed, Some data => Returned data
      | _, _ => Thrown (errorMessage st)
      end
  | NotOk => Thrown "Failed to get job status"
  | Rejected reason => Thrown reason
  end.

(** The bodies of the first [n] replies that have one. *)
Definition bodies (server : nat -> Reply) (n : nat) : list JobResponse :=
  omap (fun i => match server i with Json st => Some st | _ => None end)
       (seq 0 n).

End ApiService.

(** ** The pose overlay

    Frame selection of [PoseOverlay]: the frame closest in time, drawn only
    within 0.2 s. *)

Module PoseOverlay.

Record Keypoint := {
  kp_x : R;
  kp_y : R;
  kp_score : R }.

Record PoseFrame := {
  timestamp : R;
  keypoints : list Keypoint }.

(** The callback of [reduce]. *)
Definition closer (currentTime : R) (prev curr : PoseFrame) : PoseFrame :=
  if Rlt_dec (Rabs (timestamp curr - currentTime))
             (Rabs (timestamp prev - currentTime))
  then curr else prev.

(** [poseData.reduce(...)] without initial value; [None] on an empty
    array, where [reduce] throws. *)
Definition closest (poseData : list PoseFrame) (currentTime : R) :
    option PoseFrame :=
  match poseData with
  | [] => None
  | first :: rest => Some (fold_left (closer currentTime) rest first)
  end.

(** The frame that is drawn, if any. The later version returns early on an
    empty array; the first one lets [reduce] throw: in both nothing is
    drawn. *)
Definition drawn (poseData : list PoseFrame) (currentTime : R) :
    option PoseFrame :=
  match closest poseData currentTime with
  | Some frame =>
      if Rgt_dec (Rabs (timestamp frame - currentTime)) 0.2
      then None else Some frame
  | None => None
  end.

End PoseOverlay.

(** ** The generated pose data

    [generateProPoseSequence] of [swingsymphony/constants.ts]: 30 frames a
    second, each interpolated between two of four key poses. *)

Module Constants.

Import PoseOverlay.

(** An entry [{ i, x, y }] of a key pose. *)
Record Anchor := {
  anchor_i : nat;
  anchor_x : R;
  anchor_y : R }.

Definition ready : list Anchor :=
  [ {| anchor_i := 0; anchor_x := 0.5; anchor_y := 0.2 |};
    {| anchor_i := 5; anchor_x := 0.55; anchor_y := 0.3 |};
    {| anchor_i := 6; anchor_x := 0.45; anchor_y := 0.3 |};
    {| anchor_i := 9; anchor_x := 0.52; anchor_y := 0.45 |};
    {| anchor_i := 10; anchor_x := 0.48; anchor_y := 0.45 |};
    {| anchor_i := 11; anchor_x := 0.55; anchor_y := 0.5 |};
    {| anchor_i := 12; anchor_x := 0.45; anchor_y := 0.5 |};
    {| anchor_i := 13; anchor_x := 0.58; anchor_y := 0.7 |};
    {| anchor_i := 14; anchor_x := 0.42; anchor_y := 0.7 |};
    {| anchor_i := 15; anchor_x := 0.6; anchor_y := 0.9 |};
    {| anchor_i := 16; anchor_x := 0.4; anchor_y := 0.9 |} ].

Definition turn : list Anchor :=
  [ {| anchor_i := 0; anchor_x := 0.45; anchor_y := 0.2 |};
    {| anchor_i := 5; anchor_x := 0.5; anchor_y := 0.3 |};
    {| anchor_i := 6; anchor_x := 0.4; anchor_y := 0.3 |};
    {| anchor_i := 9; anchor_x := 0.65; anchor_y := 0.4 |};
    {| anchor_i := 10; anchor_x := 0.15; anchor_y := 0.3 |};
    {| anchor_i := 11; anchor_x := 0.5; anchor_y := 0.5 |};
    {| anchor_i := 12; anchor_x := 0.4; anchor_y := 0.5 |};
    {| anchor_i := 13; anchor_x := 0.58; anchor_y := 0.7 |};
    {| anchor_i := 14; anchor_x := 0.38; anchor_y := 0.7 |};
    {| anchor_i := 15; anchor_x := 0.6; anchor_y := 0.9 |};
    {| anchor_i := 16; anchor_x := 0.38; anchor_y := 0.9 |} ].

Definition contact : list Anchor :=
  [ {| anchor_i := 0; anchor_x := 0.5; anchor_y := 0.2 |};
    {| anchor_i := 5; anchor_x := 0.55; anchor_y := 0.3 |};
    {| anchor_i := 6; anchor_x := 0.45; anchor_y := 0.3 |};
    {| anchor_i := 9; anchor_x := 0.6; anchor_y := 0.4 |};
    {| anchor_i := 10; anchor_x := 0.75; anchor_y := 0.35 |};
    {| anchor_i := 11; anchor_x := 0.55; anchor_y := 0.5 |};
    {| anchor_i := 12; anchor_x := 0.45; anchor_y := 0.5 |};
    {| anchor_i := 13; anchor_x := 0.58; anchor_y := 0.7 |};
    {| anchor_i := 14; anchor_x := 0.42; anchor_y := 0.7 |};
    {| anchor_i := 15; anchor_x := 0.6; anchor_y := 0.9 |};
    {| anchor_i := 16; anchor_x := 0.4; anchor_y := 0.9 |} ].

Definition follow : list Anchor :=
  [ {| anchor_i := 0; anchor_x := 0.5; anchor_y := 0.2 |};
    {| anchor_i := 5; anchor_x := 0.6; anchor_y := 0.3 |};
    {| anchor_i := 6; anchor_x := 0.5; anchor_y := 0.3 |};
    {| anchor_i := 9; anchor_x := 0.5; anchor_y := 0.5 |};
    {| anchor_i := 10; anchor_x := 0.65; anchor_y := 0.2 |};
    {| anchor_i := 11; anchor_x := 0.6; anchor_y := 0.5 |};
    {| anchor_i := 12; anchor_x := 0.5; anchor_y := 0.5 |};
    {| anchor_i := 13; anchor_x := 0.62; anchor_y := 0.7 |};
    {| anchor_i := 14; anchor_x := 0.48; anchor_y := 0.7 |};
    {| anchor_i := 15; anchor_x := 0.62; anchor_y := 0.9 |};
    {| anchor_i := 16; anchor_x := 0.48; anchor_y := 0.9 |} ].

(** The keypoint every slot starts with. *)
Definition unseen : Keypoint := {| kp_x := 0.5; kp_y := 0.5; kp_score := 0.1 |}.

(** [end.find(x => x.i === s.i) || s]. *)
Definition partner (target : list Anchor) (s : Anchor) : Anchor :=
  default s (List.find (fun e => Nat.eqb (anchor_i e) (anchor_i s)) target).

(** [kps[s.i] = ...] for one entry of the start pose; every [i] of the four
    key poses is below 17, so the assignment never extends the array. *)
Definition place (target : list Anchor) (t : R) (kps : list Keypoint) (s : Anchor) :
    list Keypoint :=
  let e := partner target s in
  <[anchor_i s := {| kp_x := anchor_x s + (anchor_x e - anchor_x s) * t;
                     kp_y := anchor_y s + (anchor_y e - anchor_y s) * t;
                     kp_score := 0.95 |}]> kps.

Definition midpoint (a b : Keypoint) : Keypoint :=
  {| kp_x := (kp_x a + kp_x b) / 2; kp_y := (kp_y a + kp_y b) / 2;
     kp_score := 0.9 |}.

Definition interpolate (start target : list Anchor) (t : R) : list Keypoint :=
  let kps := fold_left (place target t) start (replicate 17 unseen) in
  let kps :=
    <[7%nat := midpoint (default unseen (kps !! 5%nat))
                        (default unseen (kps !! 9%nat))]> kps in
  <[8%nat := midpoint (default unseen (kps !! 6%nat))
                      (default unseen (kps !! 10%nat))]> kps.

(** [Math.floor(duration * fps)] turns of the loop, none when it is not
    positive. *)
Definition totalFrames (duration : R) : nat := Z.to_nat (Zfloor (duration * 30)).

(** The frame pushed at turn [f]. *)
Definition poseAt (duration : R) (f : nat) : PoseFrame :=
  let time := IZR (Z.of_nat f) / 30 in
  let progress := time / duration in
  {| timestamp := time;
     keypoints :=
       if Rlt_dec progress 0.3 then interpolate ready turn (progress / 0.3)
       else if Rlt_dec progress 0.6
            then interpolate turn contact ((progress - 0.3) / 0.3)
            else interpolate contact follow ((progress - 0.6) / 0.4) |}.

Definition generateProPoseSequence (duration : R) : list PoseFrame :=
  map (poseAt duration) (seq 0 (totalFrames duration)).

End Constants.

(** ** The particle view

    The trigger of [ParticleVisualizer] in
    [swingsymphony_algo_testing/components/ParticleVisualizer.tsx]: the ids
    in [lastSpawnedRef] and the calls of [spawnParticles], in order. *)

Module ParticleVisualizer.

Import Studio.

Record t := {
  lastSpawned : gset string;
  spawned : list RhythmNode }.

Definition new : t := {| lastSpawned := ∅; spawned := [] |}.

Definition isHit (currentTime : R) (node : RhythmNode) : bool :=
  if Rlt_dec (Rabs (currentTime - timestamp node)) 0.08 then true else false.

(** The body of [nodes.forEach] for one node. *)
Definition trigger (currentTime : R) (st : t) (node : RhythmNode) : t :=
  if (isHit currentTime node
      && negb (bool_decide (node_id node ∈ lastSpawned st)))%bool
  then {| lastSpawned := {[ node_id node ]} ∪ lastSpawned st;
          spawned := spawned st ++ [node] |}
  else st.

(** The trigger effect for one render, given [isPlaying] and
    [currentTime]. *)
Definition render (nodes : list RhythmNode) (st : t) (r : bool * R) : t :=
  if fst r then fold_left (trigger (snd r)) nodes st
  else {| lastSpawned := ∅; spawned := spawned st |}.

Definition renders (nodes : list RhythmNode) (st : t) (rs : list (bool * R)) : t :=
  fold_left (render nodes) rs st.

(** What holds of the trigger during a stretch of playback over the
    positions [seen]: one call per id, the ids held are those of the
    calls, and each call is for a node of the track that was hit. *)
Definition steady (nodes : list RhythmNode) (seen : list R) (st : t) : Prop :=
  NoDup (map node_id (spawned st)) /\
  (forall k, k ∈ lastSpawned st <-> In k (map node_id (spawned st))) /\
  (forall n, In n (spawned st) ->
     In n nodes /\ exists time, In time seen /\ isHit time n = true).

End ParticleVisualizer.

(** * Properties *)

(** ** Numbers *)

Lemma falsy_0 : falsy 0 = true.
Proof. unfold falsy. destruct (Req_dec_T 0 0); [reflexivity | contradiction]. Qed.

Lemma falsy_nonzero x : x <> 0 -> falsy x = false.
Proof. intros H. unfold falsy. destruct (Req_dec_T x 0); [contradiction | reflexivity]. Qed.

Lemma falsy_true x : falsy x = true -> x = 0.
Proof. unfold falsy. destruct (Req_dec_T x 0); [trivial | discriminate]. Qed.

Lemma or_default_absent b : or_default None b = b.
Proof. reflexivity. Qed.

Lemma or_default_zero b : or_default (Some 0) b = b.
Proof. unfold or_default. now rewrite falsy_0. Qed.

Lemma or_default_truthy x b : x <> 0 -> or_default (Some x) b = x.
Proof. intros H. unfold or_default. now rewrite falsy_nonzero. Qed.

Lemma clamp_in_range v : 0 <= Rmax 0 (Rmin 1 v) <= 1.
Proof.
  unfold Rmax, Rmin.
  destruct (Rle_dec 1 v); destruct (Rle_dec 0 _); lra.
Qed.

Lemma clamp_commutes v : Rmax 0 (Rmin 1 v) = Rmin 1 (Rmax 0 v).
Proof.
  unfold Rmax, Rmin.
  destruct (Rle_dec 1 v); destruct (Rle_dec 0 v);
    repeat match goal with |- context [Rle_dec ?a ?b] => destruct (Rle_dec a b) end;
    lra.
Qed.

(** ** The audio service *)

Section AudioServiceFacts.

Import AudioService.

Lemma booked_clearScheduledSounds a : booked (clearScheduledSounds a) = booked a.
Proof. reflexivity. Qed.

Lemma booked_setSpeed s a : booked (setSpeed s a) = booked a.
Proof. reflexivity. Qed.

Lemma wired_initAudio a : wired a -> wired (initAudio a).
Proof.
  unfold wired, initAudio. destruct (audioContext a) eqn:E; simpl.
  - now rewrite E.
  - trivial.
Qed.

Lemma initAudio_context a : exists ctx, audioContext (initAudio a) = Some ctx.
Proof. unfold initAudio. destruct (audioContext a) eqn:E; simpl; eauto. Qed.

Lemma wired_connect v a : wired a -> wired (connect v a).
Proof.
  unfold wired, connect.
  destruct (audioContext a) eqn:E, (masterGain a) eqn:G; simpl;
    rewrite ?E, ?G; trivial.
Qed.

Lemma connect_booked v a :
  wired a -> is_Some (audioContext a) -> booked (connect v a) = v :: booked a.
Proof.
  unfold wired, connect, booked. intros W [ctx E]. rewrite E in *.
  destruct (masterGain a); [reflexivity | contradiction].
Qed.

Lemma connect_fields v a :
  now (connect v a) = now a /\
  currentSpeed (connect v a) = currentSpeed a /\
  masterGain (connect v a) = masterGain a /\
  scheduledSounds (connect v a) = scheduledSounds a /\
  (is_Some (audioContext a) -> is_Some (audioContext (connect v a))).
Proof.
  unfold connect, now.
  destruct (audioContext a) eqn:E, (masterGain a) eqn:G; simpl;
    rewrite ?E, ?G; repeat split; eauto.
Qed.

Lemma scheduleSound_connect type time intensity a :
  scheduleSound type time intensity a = connect (voiceOf a type time intensity) a.
Proof. destruct type; reflexivity. Qed.

Lemma voiceOf_speed a a' type time intensity :
  currentSpeed a = currentSpeed a' ->
  voiceOf a type time intensity = voiceOf a' type time intensity.
Proof.
  intros H. destruct type; simpl;
    unfold kickVoice, bassVoice, snareVoice, getPitchShift; now rewrite ?H.
Qed.

Lemma sameEngine_refl a : wired a -> is_Some (audioContext a) -> sameEngine a a.
Proof. unfold sameEngine. auto. Qed.

Lemma scheduleOne_sameEngine ast p0 a a' sound :
  sameEngine a a' -> sameEngine a (scheduleOne ast p0 a' sound).
Proof.
  unfold sameEngine, scheduleOne. intros (N & S & G & W & C).
  destruct (Rgt_dec _ _); [| auto].
  rewrite scheduleSound_connect.
  pose proof (connect_fields
    (voiceOf a' (sound_type sound) (ast + (sound_time sound - p0)) (sound_intensity sound)) a')
    as (N' & S' & G' & _ & C').
  unfold recordSound, now in *; simpl.
  repeat split; try congruence; auto.
  unfold wired; simpl. now apply wired_connect.
Qed.

Lemma scheduleOne_booked_incl ast p0 a sound v :
  wired a -> is_Some (audioContext a) ->
  In v (booked a) -> In v (booked (scheduleOne ast p0 a sound)).
Proof.
  intros W C H. unfold scheduleOne. destruct (Rgt_dec _ _); [| exact H].
  rewrite scheduleSound_connect.
  change (booked (recordSound ?i ?x ?b)) with (booked b).
  rewrite connect_booked by assumption. now right.
Qed.

Lemma scheduleOne_books ast p0 a sound :
  wired a -> is_Some (audioContext a) ->
  ast + (sound_time sound - p0) > now a ->
  In (voiceOf a (sound_type sound) (ast + (sound_time sound - p0)) (sound_intensity sound))
     (booked (scheduleOne ast p0 a sound)) /\
  scheduledSounds (scheduleOne ast p0 a sound) !! sound_id sound
    = Some (ast + (sound_time sound - p0)).
Proof.
  intros W C H. unfold scheduleOne. destruct (Rgt_dec _ _); [| contradiction].
  rewrite scheduleSound_connect. split.
  - change (booked (recordSound ?i ?x ?b)) with (booked b).
    rewrite connect_booked by assumption. now left.
  - simpl. apply lookup_insert_eq.
Qed.

Lemma scheduleOne_other ast p0 a sound (k : string) :
  k <> sound_id sound ->
  scheduledSounds (scheduleOne ast p0 a sound) !! k = scheduledSounds a !! k.
Proof.
  intros H. unfold scheduleOne. destruct (Rgt_dec _ _); [| reflexivity].
  rewrite scheduleSound_connect. simpl.
  rewrite lookup_insert_ne by congruence.
  now destruct (connect_fields
    (voiceOf a (sound_type sound) (ast + (sound_time sound - p0)) (sound_intensity sound)) a)
    as (_ & _ & _ & -> & _).
Qed.

Lemma fold_sameEngine ast p0 sounds a a' :
  sameEngine a a' -> sameEngine a (fold_left (scheduleOne ast p0) sounds a').
Proof.
  revert a'. induction sounds as [| sound rest IH]; intros a' H; simpl.
  - exact H.
  - apply IH. now apply scheduleOne_sameEngine.
Qed.

Lemma fold_booked_incl ast p0 sounds a v :
  wired a -> is_Some (audioContext a) ->
  In v (booked a) -> In v (booked (fold_left (scheduleOne ast p0) sounds a)).
Proof.
  revert a. induction sounds as [| sound rest IH]; intros a W C H; simpl.
  - exact H.
  - destruct (scheduleOne_sameEngine ast p0 a a sound (sameEngine_refl a W C))
      as (_ & _ & _ & W' & C').
    apply IH; auto. now apply scheduleOne_booked_incl.
Qed.

Lemma fold_other ast p0 sounds a (k : string) :
  ~ In k (map sound_id sounds) ->
  scheduledSounds (fold_left (scheduleOne ast p0) sounds a) !! k = scheduledSounds a !! k.
Proof.
  revert a. induction sounds as [| sound rest IH]; intros a H; simpl in *.
  - reflexivity.
  - rewrite IH by tauto. apply scheduleOne_other. intros ->. tauto.
Qed.

(** Every sound of the list that is not yet due gets its voice started at
    [audioStartTime + (time - startTime)]. *)
Lemma fold_books ast p0 sounds a0 a sound :
  sameEngine a0 a ->
  In sound sounds ->
  ast + (sound_time sound - p0) > now a0 ->
  In (voiceOf a0 (sound_type sound) (ast + (sound_time sound - p0)) (sound_intensity sound))
     (booked (fold_left (scheduleOne ast p0) sounds a)).
Proof.
  revert a. induction sounds as [| s rest IH]; intros a E I D; simpl in *.
  - contradiction.
  - pose proof (scheduleOne_sameEngine ast p0 a0 a s E) as E'.
    destruct E as (N & S & G & W & C).
    destruct I as [-> | I].
    + destruct E' as (_ & _ & _ & W' & C').
      apply fold_booked_incl; auto.
      rewrite (voiceOf_speed a0 a) by congruence.
      apply scheduleOne_books; auto. now rewrite N.
    + now apply IH.
Qed.

(** With distinct ids, the commitment holds the booked time of each. *)
Lemma fold_records ast p0 sounds a0 a sound :
  sameEngine a0 a ->
  NoDup (map sound_id sounds) ->
  In sound sounds ->
  ast + (sound_time sound - p0) > now a0 ->
  scheduledSounds (fold_left (scheduleOne ast p0) sounds a) !! sound_id sound
    = Some (ast + (sound_time sound - p0)).
Proof.
  revert a. induction sounds as [| s rest IH]; intros a E U I D; simpl in *.
  - contradiction.
  - apply NoDup_cons in U as [Hs U].
    pose proof (scheduleOne_sameEngine ast p0 a0 a s E) as E'.
    destruct E as (N & S & G & W & C).
    destruct I as [-> | I].
    + rewrite fold_other.
      * apply scheduleOne_books; auto. now rewrite N.
      * intros H. apply Hs. now apply list_elem_of_In.
    + now apply IH.
Qed.

End AudioServiceFacts.

Section ServiceHistory.

Import AudioService.

Lemma wired_new : wired new.
Proof. exact I. Qed.

Lemma wired_scheduleSounds sounds p0 a : wired a -> wired (scheduleSounds sounds p0 a).
Proof.
  intros W. unfold scheduleSounds.
  pose proof (wired_initAudio a W) as W'.
  destruct (audioContext (initAudio a)) as [ctx |] eqn:E; [| exact W'].
  refine (proj1 (proj2 (proj2 (proj2 (fold_sameEngine _ p0 sounds
            (clearScheduledSounds (initAudio a)) _ _))))).
  apply sameEngine_refl; [exact W' | simpl; rewrite E; eauto].
Qed.

Lemma scheduleSounds_context sounds p0 a :
  wired a -> is_Some (audioContext (scheduleSounds sounds p0 a)).
Proof.
  intros W. unfold scheduleSounds.
  pose proof (wired_initAudio a W) as W'.
  destruct (initAudio_context a) as [ctx E]. rewrite E.
  refine (proj2 (proj2 (proj2 (proj2 (fold_sameEngine _ p0 sounds
            (clearScheduledSounds (initAudio a)) _ _))))).
  apply sameEngine_refl; [exact W' | simpl; rewrite E; eauto].
Qed.

Lemma wired_play type time intensity a :
  wired a -> wired (scheduleSound type time intensity a).
Proof. intros W. rewrite scheduleSound_connect. now apply wired_connect. Qed.

Lemma wired_setVolume v a : wired a -> wired (setVolume v a).
Proof.
  unfold wired, setVolume. destruct (masterGain a) eqn:G; simpl; rewrite ?G; trivial.
Qed.

Lemma wired_elapse d a : wired a -> wired (elapse d a).
Proof.
  unfold wired, elapse. destruct (audioContext a) eqn:E; simpl; rewrite ?E; trivial.
Qed.

Lemma wired_step a op : wired a -> wired (step a op).
Proof.
  intros W. pose proof (wired_initAudio a W) as W'.
  destruct op; simpl; auto using wired_scheduleSounds, wired_setVolume, wired_elapse;
    unfold playKick, playBass, playSnare, playCrash, playRhythmNode;
    destruct (audioContext (initAudio a)); auto;
    first [ apply (wired_play KICK) | apply (wired_play BASS)
          | apply (wired_play SNARE) | apply (wired_play CRASH)
          | apply wired_play ]; exact W'.
Qed.

Lemma run_snoc ops op : run (ops ++ [op]) = step (run ops) op.
Proof. unfold run. now rewrite fold_left_app. Qed.

Lemma wired_run ops : wired (run ops).
Proof.
  induction ops as [| op ops IH] using rev_ind.
  - exact wired_new.
  - rewrite run_snoc. now apply wired_step.
Qed.

Lemma gain_initAudio a : gainInRange a -> gainInRange (initAudio a).
Proof.
  unfold gainInRange, initAudio. destruct (audioContext a); simpl; [trivial | lra].
Qed.

Lemma gain_connect v a : gainInRange a -> gainInRange (connect v a).
Proof.
  unfold gainInRange. now destruct (connect_fields v a) as (_ & _ & -> & _).
Qed.

Lemma gain_scheduleSounds sounds p0 a :
  wired a -> gainInRange a -> gainInRange (scheduleSounds sounds p0 a).
Proof.
  intros W G. unfold scheduleSounds.
  pose proof (wired_initAudio a W) as W'.
  pose proof (gain_initAudio a G) as G'.
  destruct (audioContext (initAudio a)) as [ctx |] eqn:E; [| exact G'].
  assert (S : sameEngine (clearScheduledSounds (initAudio a))
                         (clearScheduledSounds (initAudio a))).
  { apply sameEngine_refl; [exact W' | simpl; rewrite E; eauto]. }
  apply (fold_sameEngine (currentTime ctx + 0.02) p0 sounds) in S.
  destruct S as (_ & _ & M & _). unfold gainInRange. rewrite M. exact G'.
Qed.

Lemma gain_setVolume v a : gainInRange (setVolume v a).
Proof.
  unfold gainInRange, setVolume. destruct (masterGain a) eqn:G; simpl.
  - apply clamp_in_range.
  - now rewrite G.
Qed.

Lemma gain_step a op : wired a -> gainInRange a -> gainInRange (step a op).
Proof.
  intros W G. pose proof (gain_initAudio a G) as G'.
  destruct op; simpl; auto using gain_scheduleSounds, gain_setVolume;
    try (unfold playKick, playBass, playSnare, playCrash, playRhythmNode;
         destruct (audioContext (initAudio a)); auto;
         rewrite ?scheduleSound_connect; now apply gain_connect).
  unfold gainInRange, elapse in *. destruct (audioContext a); simpl; auto.
Qed.

Lemma gain_run ops : gainInRange (run ops).
Proof.
  induction ops as [| op ops IH] using rev_ind.
  - exact I.
  - rewrite run_snoc. apply gain_step; [apply wired_run | exact IH].
Qed.

(** [scheduleSounds] on a service whose context and gain go together. *)
Lemma scheduleSounds_books sounds p0 a sound :
  wired a ->
  In sound sounds ->
  sound_time sound >= p0 ->
  In (voiceOf a (sound_type sound)
        (now (initAudio a) + 0.02 + (sound_time sound - p0)) (sound_intensity sound))
     (booked (scheduleSounds sounds p0 a)) /\
  (NoDup (map sound_id sounds) ->
   scheduledSounds (scheduleSounds sounds p0 a) !! sound_id sound
     = Some (now (initAudio a) + 0.02 + (sound_time sound - p0))).
Proof.
  intros W I D. unfold scheduleSounds.
  pose proof (wired_initAudio a W) as W'.
  destruct (initAudio_context a) as [ctx E]. rewrite E.
  assert (N : now (initAudio a) = currentTime ctx) by (unfold now; now rewrite E).
  rewrite N.
  set (b := clearScheduledSounds (initAudio a)).
  assert (S : sameEngine b b).
  { apply sameEngine_refl; [exact W' | simpl; rewrite E; eauto]. }
  assert (Nb : now b = currentTime ctx) by exact N.
  assert (Sb : currentSpeed b = currentSpeed a).
  { unfold b, initAudio. simpl. now destruct (audioContext a). }
  rewrite (voiceOf_speed a b) by congruence.
  split; [| intros U].
  - apply fold_books; auto. rewrite Nb. lra.
  - apply fold_records with (a0 := b); auto. rewrite Nb. lra.
Qed.

End ServiceHistory.

(** ** The studio clock *)

Section StudioClock.

Import Studio.

Lemma setIsPlaying_same b st : isPlaying st = b -> setIsPlaying b st = st.
Proof. intros <-. unfold setIsPlaying. now rewrite Bool.eqb_reflx. Qed.

(** Pressing play on a paused studio. *)
Lemma togglePlay_paused st :
  isPlaying st = false -> scheduledRef st = false ->
  let st' := togglePlay st in
  started st' /\
  currentTime st' = currentTime st /\ speedRef st' = speedRef st /\
  durationRef st' = durationRef st /\ data st' = data st /\
  scheduledRef st' = true /\
  audio st' =
    AudioService.scheduleSounds (map toScheduledSound (rhythmTrack (data st)))
      (currentTime st) (audio st).
Proof.
  intros P S. unfold togglePlay, setIsPlaying, audioEffect, playEffect, started.
  rewrite P. simpl. rewrite S. simpl. repeat split.
Qed.

(** Pressing pause on a playing studio. *)
Lemma togglePlay_playing st :
  isPlaying st = true ->
  let st' := togglePlay st in
  isPlaying st' = false /\ frameRequested st' = false /\ startTimeRef st' = None /\
  currentTime st' = currentTime st /\ speedRef st' = speedRef st /\
  durationRef st' = durationRef st /\ data st' = data st /\
  scheduledRef st' = false /\
  audio st' = AudioService.clearScheduledSounds (audio st).
Proof.
  intros P. unfold togglePlay, setIsPlaying, audioEffect, playEffect.
  rewrite P. simpl. repeat split.
Qed.

Lemma startUnset_running t0 st : running t0 st -> startUnset st = false.
Proof. intros (_ & _ & S & N). unfold startUnset. rewrite S. now apply falsy_nonzero. Qed.

Lemma newTime_running t0 st time :
  running t0 st -> newTime time st = (time - t0) / 1000 * speedRef st.
Proof.
  intros H. unfold newTime. rewrite (startUnset_running t0 st H).
  destruct H as (_ & _ & -> & _). reflexivity.
Qed.

Lemma newTime_started st time : startTimeRef st = None -> newTime time st = 0.
Proof. intros H. unfold newTime, startUnset. rewrite H. lra. Qed.

(** A frame of a running clock that stays below the duration. *)
Lemma frame_running t0 st time :
  running t0 st ->
  (time - t0) / 1000 * speedRef st < durationRef st ->
  let st' := frame st time in
  running t0 st' /\
  currentTime st' = (time - t0) / 1000 * speedRef st /\
  speedRef st' = speedRef st /\ durationRef st' = durationRef st /\
  audio st' = audio st /\ data st' = data st.
Proof.
  intros H L. pose proof (newTime_running t0 st time H) as N.
  pose proof (startUnset_running t0 st H) as U.
  destruct H as (P & F & S & Z).
  unfold frame, animate, running. rewrite F, U, N.
  destruct (Rge_dec _ _); [lra |]. simpl. auto 10.
Qed.

(** The first frame of a run takes the reference time. *)
Lemma frame_started st t0 :
  started st -> t0 <> 0 -> 0 < durationRef st ->
  let st' := frame st t0 in
  running t0 st' /\ currentTime st' = 0 /\
  speedRef st' = speedRef st /\ durationRef st' = durationRef st /\
  audio st' = audio st /\ data st' = data st.
Proof.
  intros (P & F & S) Z D.
  pose proof (newTime_started st t0 S) as N.
  unfold frame, animate, running, startUnset. rewrite F, S, N.
  destruct (Rge_dec _ _); [lra |]. simpl. auto 10.
Qed.

Lemma frames_running t0 times : forall st,
  running t0 st ->
  Forall (fun time => (time - t0) / 1000 * speedRef st < durationRef st) times ->
  let st' := frames st times in
  running t0 st' /\ speedRef st' = speedRef st /\ durationRef st' = durationRef st /\
  audio st' = audio st /\ data st' = data st.
Proof.
  unfold frames.
  induction times as [| time rest IH]; intros st H A; simpl.
  - auto.
  - apply Forall_cons in A as [L A].
    destruct (frame_running t0 st time H L) as (H' & _ & Sp & Du & Au & Da).
    destruct (IH (frame st time) H') as (H'' & Sp' & Du' & Au' & Da').
    + now rewrite Sp, Du.
    + split; [exact H'' |]. repeat split; congruence.
Qed.

Lemma frames_app st xs ys : frames st (xs ++ ys) = frames (frames st xs) ys.
Proof. unfold frames. apply fold_left_app. Qed.

End StudioClock.

(** ** Voice parameters and master gain *)

Section Voices.

Import AudioService.

Lemma onset_voiceOf a type time intensity : onset (voiceOf a type time intensity) = time.
Proof. now destruct type. Qed.

Lemma initAudio_ready ops :
  wired (initAudio (run ops)) /\ is_Some (audioContext (initAudio (run ops))).
Proof.
  split.
  - apply wired_initAudio, wired_run.
  - destruct (initAudio_context (run ops)) as [ctx E]. rewrite E. eauto.
Qed.

(** C6. Whatever the history of the service, once the audio is initialised
    and the playback speed is [s], a KICK triggered at intensity [I] starts,
    at the requested time, a voice of amplitude [0.30 + 0.70 I] and
    frequency [150 (1 + 0.5 I) pitchShift] with
    [pitchShift = 2^((s - 1) 0.167)], both ramping to 0.01 over 0.5 s; at
    [I = 1] these are [1.0] and [225 pitchShift], at [I = 0] they are [0.3]
    and [150 pitchShift]. The BASS, SNARE and CRASH rows of the table hold
    in the same way. *)
Theorem C6_voice_parameters (ops : list Op) (s time I : R) :
  let a := initAudio (setSpeed s (run ops)) in
  let pitchShift := Rpower 2 ((s - 1) * 0.167) in
  getPitchShift a = pitchShift /\
  (exists f g,
     booked (scheduleKick time I a) = Tone f g time (time + 0.5) :: booked a /\
     ramp_value g = 0.30 + 0.70 * I /\
     ramp_value f = 150 * (1 + 0.5 * I) * pitchShift /\
     ramp_target g = 0.01 /\ ramp_target f = 0.01) /\
  (exists v, booked (scheduleKick time 1 a) = v :: booked a /\
     amplitude v = 1 /\ frequency v = Some (225 * pitchShift)) /\
  (exists v, booked (scheduleKick time 0 a) = v :: booked a /\
     amplitude v = 0.3 /\ frequency v = Some (150 * pitchShift)) /\
  (exists f g,
     booked (scheduleBass time I a) = Tone f g time (time + 0.4) :: booked a /\
     ramp_value g = 0.24 + 0.56 * I /\
     ramp_value f = 100 * (1 + 0.5 * I) * pitchShift) /\
  (exists noiseGain oscGain oscFreq,
     booked (scheduleSnare time I a)
       = Snare 1000 noiseGain oscFreq oscGain time (time + 0.2) (time + 0.1)
           :: booked a /\
     ramp_value noiseGain = 0.12 + 0.28 * I /\
     ramp_value oscGain = 0.09 + 0.21 * I /\
     oscFreq = 180 * (1 + 0.5 * I) * pitchShift) /\
  (exists filterFreq noiseGain,
     booked (scheduleCrash time I a)
       = Crash filterFreq noiseGain time (time + 0.5) :: booked a /\
     ramp_value noiseGain = 0.15 + 0.35 * I /\
     filterFreq = 2000 * (1 + 0.75 * I)).
Proof.
  intros a pitchShift.
  assert (Sp : currentSpeed a = s).
  { unfold a, initAudio. destruct (audioContext _); reflexivity. }
  destruct (initAudio_ready (ops ++ [SetSpeed s])) as [W C].
  rewrite run_snoc in W, C. cbn [step] in W, C. fold a in W, C.
  clearbody a. subst pitchShift.
  unfold scheduleKick, scheduleBass, scheduleSnare, scheduleCrash.
  rewrite !connect_booked by assumption.
  unfold kickVoice, bassVoice, snareVoice, crashVoice, getPitchShift.
  rewrite Sp.
  split; [reflexivity |].
  repeat split.
  - do 2 eexists. split; [reflexivity |]. cbn. repeat split; lra.
  - eexists. split; [reflexivity |]. cbn. repeat split; try f_equal; lra.
  - eexists. split; [reflexivity |]. cbn. repeat split; try f_equal; lra.
  - do 2 eexists. split; [reflexivity |]. cbn. repeat split; lra.
  - do 3 eexists. split; [reflexivity |]. cbn. repeat split; lra.
  - do 2 eexists. split; [reflexivity |]. cbn. repeat split; lra.
Qed.

(** C10. After any history of calls the master gain, once created, lies in
    [[0,1]]. It is created with value [0.3]; [setVolume v] on an existing
    gain stores [min(1, max(0, v))], and before the gain exists it does
    nothing. *)
Theorem C10_master_gain_in_range (ops : list Op) (v : R) :
  let a := run ops in
  gainInRange a /\
  gainInRange (setVolume v a) /\
  match masterGain a with
  | Some _ => masterGain (setVolume v a) = Some (Rmin 1 (Rmax 0 v))
  | None => setVolume v a = a /\ masterGain (initAudio a) = Some 0.3
  end.
Proof.
  intros a. split; [apply gain_run |]. split; [apply gain_setVolume |].
  pose proof (wired_run ops) as W. fold a in W.
  unfold setVolume, initAudio, wired in *.
  destruct (masterGain a) eqn:G.
  - simpl. now rewrite clamp_commutes.
  - destruct (audioContext a); [contradiction | auto].
Qed.

End Voices.

(** ** Booking *)

Section Booking.

Import AudioService.

Lemma scheduleSounds_now sounds p0 a :
  wired a ->
  now (scheduleSounds sounds p0 a) = now (initAudio a) /\
  currentSpeed (scheduleSounds sounds p0 a) = currentSpeed a.
Proof.
  intros W. unfold scheduleSounds.
  pose proof (wired_initAudio a W) as W'.
  destruct (initAudio_context a) as [ctx E]. rewrite E.
  set (b := clearScheduledSounds (initAudio a)).
  assert (S : sameEngine b b).
  { apply sameEngine_refl; [exact W' | simpl; rewrite E; eauto]. }
  apply (fold_sameEngine (currentTime ctx + 0.02) p0 sounds) in S.
  destruct S as (N & Sp & _). rewrite N, Sp. split; [reflexivity |].
  unfold b, initAudio. simpl. now destruct (audioContext a).
Qed.

(** C1 (as the code has it). Whatever the history of the service and
    whatever its playback speed, a commit at playback position [p0] with the
    engine clock at [t0] starts, for every event at song time [e >= p0], its
    voice at engine time [t0 + 0.02 + (e - p0)]: the lookahead is 20 ms and
    the offset is not divided by the speed. The commitment records that time
    under the event's id when ids are distinct, the engine clock is not
    moved, and the time agrees with [t0 + 0.02 + (e - p0) / s] when the
    speed [s] is 1. *)
Theorem C1_booked_time (ops : list Op) (sounds : list ScheduledSound)
    (p0 : R) (sound : ScheduledSound) :
  let a := run ops in
  let t0 := now (initAudio a) in
  let bookedTime := t0 + 0.02 + (sound_time sound - p0) in
  In sound sounds ->
  sound_time sound >= p0 ->
  In (voiceOf a (sound_type sound) bookedTime (sound_intensity sound))
     (booked (scheduleSounds sounds p0 a)) /\
  onset (voiceOf a (sound_type sound) bookedTime (sound_intensity sound)) = bookedTime /\
  (NoDup (map sound_id sounds) ->
   scheduledSounds (scheduleSounds sounds p0 a) !! sound_id sound = Some bookedTime) /\
  now (scheduleSounds sounds p0 a) = t0 /\
  (currentSpeed a = 1 ->
   bookedTime = t0 + 0.02 + (sound_time sound - p0) / currentSpeed a).
Proof.
  intros a t0 bookedTime I D.
  pose proof (wired_run ops) as W. fold a in W.
  destruct (scheduleSounds_books sounds p0 a sound W I D) as [B M].
  repeat split.
  - exact B.
  - apply onset_voiceOf.
  - exact M.
  - apply scheduleSounds_now, W.
  - intros ->. unfold bookedTime. lra.
Qed.

Lemma C1_booked_time_witness :
  let crash := {| sound_id := "p4"; sound_type := CRASH;
                  sound_time := 1.4; sound_intensity := 1 |} in
  In crash [crash] /\ sound_time crash >= 0 /\
  In (voiceOf (run [SetSpeed 0.5]) CRASH (0 + 0.02 + (1.4 - 0)) 1)
     (booked (scheduleSounds [crash] 0 (run [SetSpeed 0.5]))).
Proof.
  intros crash.
  assert (I : In crash [crash]) by (left; reflexivity).
  assert (D : sound_time crash >= 0) by (simpl; lra).
  split; [exact I |]. split; [exact D |].
  exact (proj1 (C1_booked_time [SetSpeed 0.5] [crash] 0 crash I D)).
Defined.

End Booking.

(** ** Scenarios on the professional recording *)

Section ProScenario.

Import AudioService Studio.

(** The studio mounted on [PRO_SWING_DATA] with a fresh audio service. *)
Local Abbreviation proStudio := (mount PRO_SWING_DATA AudioService.new).

Local Abbreviation proSounds := (map toScheduledSound (rhythmTrack PRO_SWING_DATA)).

Lemma proSounds_ids : NoDup (map sound_id proSounds).
Proof.
  simpl.
  repeat (apply NoDup_cons_2;
          [rewrite ?elem_of_cons, elem_of_nil; intuition discriminate |]).
  apply NoDup_nil_2.
Qed.

Lemma proSounds_crash :
  In {| sound_id := "p4"; sound_type := CRASH; sound_time := 1.4;
        sound_intensity := or_default (Some 1.0) 0.7 |} proSounds.
Proof. simpl. auto. Qed.

Lemma proSounds_kick :
  In {| sound_id := "p1"; sound_type := KICK; sound_time := 0.5;
        sound_intensity := or_default (Some 0.8) 0.7 |} proSounds.
Proof. simpl. auto. Qed.

(** Play pressed on the mounted studio after choosing speed [s]. *)
Lemma pro_play_audio s :
  let st := togglePlay (handleSpeedChange s proStudio) in
  let a := AudioService.setSpeed s (audio proStudio) in
  started st /\ Studio.currentTime st = 0 /\ speedRef st = s /\
  audio st = scheduleSounds proSounds 0 a /\
  wired a /\ now (initAudio a) = 0 /\ currentSpeed a = s.
Proof.
  intros st a.
  destruct (togglePlay_paused (handleSpeedChange s proStudio) eq_refl eq_refl)
    as (St & C & Sp & _ & _ & _ & A).
  fold st in St, C, Sp, A.
  split; [exact St |]. split; [exact C |]. split; [exact Sp |].
  split; [exact A |]. split; [exact I |]. split; reflexivity.
Qed.

(** C1, counterexample: at speed 0.5, from position 0 with the engine clock
    at 0, the CRASH at song time 1.4 is booked 1.42 s after the commit, not
    at [0 + 0.02 + (1.4 - 0) / 0.5]: it does not fire at wall-elapsed 2.8 s. *)
Lemma C1_counterexample :
  let st := togglePlay (handleSpeedChange 0.5 proStudio) in
  Studio.currentTime st = 0 /\
  currentSpeed (audio st) = 0.5 /\
  now (audio st) = 0 /\
  scheduledSounds (audio st) !! "p4" = Some 1.42 /\
  scheduledSounds (audio st) !! "p4" <> Some (0 + 0.02 + (1.4 - 0) / 0.5) /\
  1.42 - now (audio st) < 2.8.
Proof.
  intros st.
  destruct (pro_play_audio 0.5) as (_ & C & _ & A & W & N & Sp).
  fold st in C, A.
  destruct (scheduleSounds_now proSounds 0 _ W) as [N' Sp'].
  destruct (scheduleSounds_books proSounds 0 _ _ W proSounds_crash) as [_ M].
  { simpl. lra. }
  specialize (M proSounds_ids). rewrite N in M, N'. cbn [sound_id sound_time] in M.
  rewrite A, N', Sp', Sp.
  assert (E : scheduledSounds
                (scheduleSounds proSounds 0 (AudioService.setSpeed 0.5 (audio proStudio)))
                !! "p4" = Some 1.42).
  { rewrite M. f_equal. lra. }
  repeat split; try assumption; try lra.
  rewrite E. intros H. injection H. lra.
Qed.

(** Play pressed on the mounted studio, at the initial speed 1. *)
Lemma pro_play :
  let st := togglePlay proStudio in
  started st /\ Studio.currentTime st = 0 /\ speedRef st = 1 /\
  durationRef st = 2.5 /\
  audio st = scheduleSounds proSounds 0 (audio proStudio) /\
  wired (audio proStudio) /\ now (initAudio (audio proStudio)) = 0 /\
  currentSpeed (audio proStudio) = 1.
Proof.
  intros st.
  destruct (togglePlay_paused proStudio eq_refl eq_refl)
    as (St & C & Sp & Du & _ & _ & A).
  fold st in St, C, Sp, Du, A.
  split; [exact St |]. split; [exact C |]. split; [exact Sp |].
  split; [exact Du |]. split; [exact A |].
  split; [exact I |]. split; reflexivity.
Qed.

Lemma elapse_booked d a : booked (elapse d a) = booked a.
Proof. unfold booked, elapse. destruct (audioContext a) eqn:E; simpl; now rewrite ?E. Qed.

Lemma elapse_now d a : is_Some (audioContext a) -> now (elapse d a) = now a + d.
Proof. intros [ctx E]. unfold now, elapse. now rewrite E. Qed.

(** What a speed change touches. *)
Lemma handleSpeedChange_fields st newSpeed :
  let st' := handleSpeedChange newSpeed st in
  Studio.speed st' = newSpeed /\
  speedRef st' = newSpeed /\
  currentSpeed (audio st') = newSpeed /\
  scheduledSounds (audio st') = scheduledSounds (audio st) /\
  booked (audio st') = booked (audio st) /\
  now (audio st') = now (audio st) /\
  scheduledRef st' = scheduledRef st /\
  isPlaying st' = isPlaying st /\
  frameRequested st' = frameRequested st /\
  startTimeRef st' = startTimeRef st /\
  durationRef st' = durationRef st /\
  Studio.currentTime st' = Studio.currentTime st.
Proof. repeat split. Qed.

(** Pausing a studio whose service has just committed [proSounds] from
    position 0 with the engine clock at 0. *)
Lemma pause_after_commit (playing paused : Studio.t) (a0 : AudioService.t) :
  wired a0 -> now (initAudio a0) = 0 ->
  audio playing = scheduleSounds proSounds 0 a0 ->
  audio paused = clearScheduledSounds (audio playing) ->
  scheduledSounds (audio paused) = ∅ /\
  booked (audio paused) = booked (audio playing) /\
  exists v,
    In v (booked (audio paused)) /\ onset v = 0.52 /\
    now (audio paused) < onset v /\
    In v (booked (elapse 0.52 (audio paused))) /\
    onset v <= now (elapse 0.52 (audio paused)).
Proof.
  intros W N A A'.
  destruct (scheduleSounds_now proSounds 0 _ W) as [N' _].
  destruct (scheduleSounds_books proSounds 0 _ _ W proSounds_kick) as [B _].
  { simpl. lra. }
  pose proof (scheduleSounds_context proSounds 0 _ W) as C.
  rewrite N in B, N'. cbn [sound_type sound_time sound_intensity] in B.
  rewrite <- A in B, N', C. clear A W N.
  rewrite A'. clear A' paused.
  split; [reflexivity |]. split; [reflexivity |].
  eexists. rewrite elapse_booked, (elapse_now _ (clearScheduledSounds playing.(audio)) C).
  change (booked (clearScheduledSounds ?a)) with (booked a).
  change (now (clearScheduledSounds ?a)) with (now a).
  rewrite N'.
  split; [exact B |]. rewrite onset_voiceOf.
  split; [lra |]. split; [lra |]. split; [exact B | lra].
Qed.

(** C4, on the code: play is pressed on the mounted studio and pause right
    after, with the engine clock at 0. The pause empties the commitment, but
    the voices already handed to the engine stay there: the KICK booked for
    engine time 0.52 is still started when the clock gets to 0.52, after
    the cancel. *)
Theorem C4_cancel_keeps_bookings :
  let playing := togglePlay proStudio in
  let paused := togglePlay playing in
  isPlaying paused = false /\
  scheduledSounds (audio paused) = ∅ /\
  booked (audio paused) = booked (audio playing) /\
  exists v,
    In v (booked (audio paused)) /\ onset v = 0.52 /\
    now (audio paused) < onset v /\
    In v (booked (elapse 0.52 (audio paused))) /\
    onset v <= now (elapse 0.52 (audio paused)).
Proof.
  intros playing paused.
  destruct pro_play as (St & _ & _ & _ & A & W & N & _).
  destruct (togglePlay_playing (togglePlay proStudio) (proj1 St))
    as (P & _ & _ & _ & _ & _ & _ & _ & A').
  split; [exact P |].
  exact (pause_after_commit playing paused (audio proStudio) W N A A').
Qed.

(** C5 (as the code has it). A speed change, playing or not, stores the new
    speed in the component, in the clock's ref and in the audio service,
    where the voices started afterwards take their pitch from it. It
    neither cancels nor commits: the commitment, the voices held by the
    engine, the scheduling guard and the clock's reference time are what
    they were. *)
Theorem C5_speed_change_keeps_bookings (st : Studio.t) (newSpeed : R) :
  let st' := handleSpeedChange newSpeed st in
  Studio.speed st' = newSpeed /\
  speedRef st' = newSpeed /\
  currentSpeed (audio st') = newSpeed /\
  getPitchShift (audio st') = Rpower 2 ((newSpeed - 1) * 0.167) /\
  scheduledSounds (audio st') = scheduledSounds (audio st) /\
  booked (audio st') = booked (audio st) /\
  now (audio st') = now (audio st) /\
  scheduledRef st' = scheduledRef st /\
  isPlaying st' = isPlaying st /\
  startTimeRef st' = startTimeRef st /\
  Studio.currentTime st' = Studio.currentTime st.
Proof. repeat split. Qed.

(** A speed change on a studio whose service has just committed
    [proSounds] from position 0 with the engine clock at 0. *)
Lemma speed_change_after_commit (st st' : Studio.t) (a0 : AudioService.t) :
  wired a0 -> now (initAudio a0) = 0 ->
  audio st = scheduleSounds proSounds 0 a0 ->
  scheduledSounds (audio st') = scheduledSounds (audio st) ->
  booked (audio st') = booked (audio st) ->
  now (audio st') = now (audio st) ->
  scheduledSounds (audio st') !! "p4" = Some 1.42 /\
  scheduledSounds (audio st') !! "p4" <> Some (0 + 0.02 + (1.4 - 0) / 0.5) /\
  exists v, In v (booked (audio st')) /\ onset v = 1.42 /\ now (audio st') < onset v.
Proof.
  intros W N A M' B' N2.
  destruct (scheduleSounds_now proSounds 0 _ W) as [N' _].
  destruct (scheduleSounds_books proSounds 0 _ _ W proSounds_crash) as [B M].
  { simpl. lra. }
  specialize (M proSounds_ids).
  rewrite N in B, M, N'. cbn [sound_id sound_type sound_time sound_intensity] in B, M.
  rewrite <- A in B, M, N'. clear A W N.
  assert (E : scheduledSounds (audio st') !! "p4" = Some 1.42).
  { rewrite M', M. f_equal. lra. }
  split; [exact E |]. split.
  - rewrite E. intros H. injection H. lra.
  - eexists. rewrite B', N2, N'. split; [exact B |].
    rewrite onset_voiceOf. split; lra.
Qed.

(** C5, counterexample: the studio is playing at speed 1 from position 0,
    engine clock at 0, when the speed is set to 0.5. The CRASH booking made
    under speed 1, for engine time 1.42, is still in the commitment and
    still held by the engine; nothing was booked for
    [0 + 0.02 + (1.4 - 0) / 0.5]. *)
Lemma C5_counterexample :
  let st := togglePlay proStudio in
  let st' := handleSpeedChange 0.5 st in
  isPlaying st = true /\ isPlaying st' = true /\
  currentSpeed (audio st') = 0.5 /\
  scheduledSounds (audio st') = scheduledSounds (audio st) /\
  scheduledSounds (audio st') !! "p4" = Some 1.42 /\
  scheduledSounds (audio st') !! "p4" <> Some (0 + 0.02 + (1.4 - 0) / 0.5) /\
  exists v, In v (booked (audio st')) /\ onset v = 1.42 /\ now (audio st') < onset v.
Proof.
  intros st st'.
  destruct pro_play as (St & _ & _ & _ & A & W & N & _).
  destruct (handleSpeedChange_fields (togglePlay proStudio) 0.5)
    as (_ & _ & Sp & M' & B' & N2 & _ & P' & _).
  split; [exact (proj1 St) |].
  split; [exact (eq_trans P' (proj1 St)) |].
  split; [exact Sp |]. split; [exact M' |].
  exact (speed_change_after_commit st st' (audio proStudio) W N A M' B' N2).
Qed.

End ProScenario.

(** ** Playback position *)

Section Position.

Import Studio.

(** Position after the first frame at [t0], any frames in between, and a
    frame at [T], none of which reaches the duration. *)
Lemma frames_position st t0 ticks T :
  started st -> t0 <> 0 -> 0 < durationRef st ->
  Forall (fun time => (time - t0) / 1000 * speedRef st < durationRef st) (ticks ++ [T]) ->
  let st' := frames st (t0 :: ticks ++ [T]) in
  running t0 st' /\
  currentTime st' = (T - t0) / 1000 * speedRef st /\
  speedRef st' = speedRef st /\ durationRef st' = durationRef st /\
  audio st' = audio st /\ data st' = data st.
Proof.
  intros St Z D A. apply Forall_app in A as [A L].
  apply Forall_cons in L as [L _].
  destruct (frame_started st t0 St Z D) as (R0 & _ & Sp0 & Du0 & Au0 & Da0).
  destruct (frames_running t0 ticks (frame st t0) R0) as (R1 & Sp1 & Du1 & Au1 & Da1).
  { now rewrite Sp0, Du0. }
  destruct (frame_running t0 (frames (frame st t0) ticks) T R1)
    as (R2 & C2 & Sp2 & Du2 & Au2 & Da2).
  { now rewrite Sp1, Du1, Sp0, Du0. }
  change (frames st (t0 :: ticks ++ [T]))
    with (frames (frame st t0) (ticks ++ [T])).
  rewrite frames_app. change (frames ?s [T]) with (frame s T).
  split; [exact R2 |]. rewrite C2. repeat split; congruence.
Qed.

(** C2 (as the code has it). A play run always counts from position 0,
    whatever position the studio showed when play was pressed: after the
    first frame at [t0], which fixes the reference time, and any number of
    frames at any times in between, the frame at time [T] (ms) sets the
    position to [0 + (T - t0) / 1000 * speed], as long as the frames stay
    below the duration. *)
Theorem C2_position_from_elapsed (st : Studio.t) (t0 : R) (ticks : list R) (T : R) :
  started st -> t0 <> 0 -> 0 < durationRef st ->
  Forall (fun time => (time - t0) / 1000 * speedRef st < durationRef st) (ticks ++ [T]) ->
  currentTime (frames st (t0 :: ticks ++ [T])) = 0 + (T - t0) / 1000 * speedRef st /\
  currentTime (frames st (t0 :: ticks ++ [T])) = currentTime (frames st [t0; T]).
Proof.
  intros St Z D A.
  destruct (frames_position st t0 ticks T St Z D A) as (_ & C & _).
  destruct (frames_position st t0 [] T St Z D) as (_ & C' & _).
  { apply Forall_app in A as [_ A]. exact A. }
  simpl app in C'. rewrite C, C'. split; [lra | reflexivity].
Qed.

Lemma handleSpeedChange_running t0 st newSpeed :
  running t0 st -> running t0 (handleSpeedChange newSpeed st).
Proof. intros H. exact H. Qed.

(** C3 (as the code has it). A speed change while playing keeps the
    reference time of the run and stores the new speed; the position shown
    is left alone until the next frame, which applies the new speed to the
    whole time elapsed since the start of the run. The frame delivered at
    the instant [T] of the change reports [(T - t0) / 1000 * newSpeed] where
    it would have reported [(T - t0) / 1000 * speed]: the position jumps
    unless no time has elapsed or the speed is the same. *)
Theorem C3_speed_change_rescales (st : Studio.t) (t0 T newSpeed : R) :
  running t0 st ->
  (T - t0) / 1000 * speedRef st < durationRef st ->
  (T - t0) / 1000 * newSpeed < durationRef st ->
  let st' := handleSpeedChange newSpeed st in
  startTimeRef st' = Some t0 /\
  currentTime st' = currentTime st /\
  currentTime (frame st T) = (T - t0) / 1000 * speedRef st /\
  currentTime (frame st' T) = (T - t0) / 1000 * newSpeed /\
  (T <> t0 -> newSpeed <> speedRef st ->
   currentTime (frame st' T) <> currentTime (frame st T)).
Proof.
  intros H L L' st'.
  destruct (frame_running t0 st T H L) as (_ & C & _).
  destruct (frame_running t0 st' T (handleSpeedChange_running t0 st newSpeed H) L')
    as (_ & C' & _).
  change (speedRef st') with newSpeed in C'.
  split; [apply H |]. split; [reflexivity |].
  split; [exact C |]. split; [exact C' |].
  intros NT NS. rewrite C, C'. intros E.
  assert (E' : (T - t0) * (newSpeed - speedRef st) = 0) by lra.
  apply Rmult_integral in E'. destruct E'; lra.
Qed.

End Position.

(** ** End of the recording *)

Section EndOfMedia.

Import Studio.

(** Stopping a playing studio from the frame callback. *)
Lemma setIsPlaying_false st :
  isPlaying st = true ->
  let st' := setIsPlaying false st in
  isPlaying st' = false /\ frameRequested st' = false /\ startTimeRef st' = None /\
  currentTime st' = currentTime st /\ durationRef st' = durationRef st /\
  speedRef st' = speedRef st /\ data st' = data st.
Proof.
  intros P. unfold setIsPlaying, audioEffect, playEffect. rewrite P. simpl.
  repeat split.
Qed.

(** The frame that reaches the duration. *)
Lemma frame_end st time :
  isPlaying st = true -> frameRequested st = true ->
  newTime time st >= durationRef st ->
  let st' := frame st time in
  currentTime st' = durationRef st /\ isPlaying st' = false /\
  frameRequested st' = false /\ startTimeRef st' = None /\
  durationRef st' = durationRef st /\
  endedCount (frameActions st time) = 1%nat /\
  Forall (fun s => isPlaying s = false -> currentTime s = durationRef st)
    (observed (with_frameRequested false st) (animate time st)) /\
  exists s, In s (observed (with_frameRequested false st) (animate time st)) /\
            currentTime s = durationRef st /\ isPlaying s = true.
Proof.
  intros P F E. unfold frame, frameActions, animate. rewrite F.
  destruct (Rge_dec _ _) as [_ | N]; [| contradiction].
  set (s0 := with_frameRequested false st).
  set (s1 := with_currentTime (durationRef st) s0).
  assert (P1 : isPlaying s1 = true) by exact P.
  destruct (setIsPlaying_false s1 P1) as (Q1 & Q2 & Q3 & Q4 & Q5 & _).
  assert (P2 : forall v, isPlaying (with_startTimeRef v s0) = true) by (intros; exact P).
  destruct (setIsPlaying_false
              (with_currentTime (durationRef st) (with_startTimeRef (Some time) s0))
              (P2 (Some time))) as (T1 & T2 & T3 & T4 & T5 & _).
  destruct (startUnset st); cbn [app fold_left observed perform setCurrentTime
    endedCount List.filter isEnded length].
  - fold s0. repeat split; try assumption.
    + repeat constructor; cbn; intros H;
        first [ exact T4 | rewrite P in H; discriminate ].
    + eexists. split; [right; right; right; left; reflexivity |].
      split; [reflexivity | exact P].
  - fold s0. fold s1. repeat split; try assumption.
    + repeat constructor; cbn; intros H;
        first [ exact Q4 | rewrite P in H; discriminate ].
    + exists s1. split; [right; left; reflexivity |].
      split; [reflexivity | exact P].
Qed.

Lemma frames_stopped times : forall st,
  frameRequested st = false ->
  frames st times = st /\ framesActions st times = [].
Proof.
  unfold frames.
  induction times as [| time rest IH]; intros st F; simpl; [auto |].
  unfold frame, frameActions. rewrite F. simpl. now apply IH.
Qed.

(** A frame that stays below the duration. *)
Lemma frame_alive st time :
  isPlaying st = true -> frameRequested st = true ->
  ~ newTime time st >= durationRef st ->
  let st' := frame st time in
  isPlaying st' = true /\ frameRequested st' = true /\
  durationRef st' = durationRef st /\
  endedCount (frameActions st time) = 0%nat.
Proof.
  intros P F N. unfold frame, frameActions, animate. rewrite F.
  destruct (Rge_dec _ _); [contradiction |].
  destruct (startUnset st); cbn; auto.
Qed.

Lemma endedCount_app xs ys :
  endedCount (xs ++ ys) = (endedCount xs + endedCount ys)%nat.
Proof. unfold endedCount. now rewrite List.filter_app, length_app. Qed.

Lemma framesActions_app xs ys : forall st,
  framesActions st (xs ++ ys) = framesActions st xs ++ framesActions (frames st xs) ys.
Proof.
  induction xs as [| x xs IH]; intros st; simpl; [reflexivity |].
  rewrite IH, <- app_assoc. reflexivity.
Qed.

(** A play run either is still going, and has not signalled its end, or
    has stopped at the duration and has signalled its end once. *)
Lemma run_dichotomy times : forall st,
  isPlaying st = true -> frameRequested st = true ->
  let st' := frames st times in
  durationRef st' = durationRef st /\
  ((isPlaying st' = true /\ frameRequested st' = true /\
    endedCount (framesActions st times) = 0%nat) \/
   (isPlaying st' = false /\ frameRequested st' = false /\
    currentTime st' = durationRef st /\
    endedCount (framesActions st times) = 1%nat)).
Proof.
  induction times as [| time rest IH]; intros st P F; cbv zeta.
  - split; [reflexivity |]. left. auto.
  - change (frames st (time :: rest)) with (frames (frame st time) rest).
    change (framesActions st (time :: rest))
      with (frameActions st time ++ framesActions (frame st time) rest).
    rewrite endedCount_app.
    destruct (Rge_dec (newTime time st) (durationRef st)) as [E | N].
    + destruct (frame_end st time P F E) as (C & P' & F' & _ & D & K & _).
      destruct (frames_stopped rest (frame st time) F') as [S A].
      rewrite S, A, K. split; [exact D |]. right. auto.
    + destruct (frame_alive st time P F N) as (P' & F' & D & K).
      destruct (IH (frame st time) P' F') as [D' H].
      rewrite K, D'. rewrite D in H |- *. split; [reflexivity |]. exact H.
Qed.

(** C7. In a play run, after any earlier frames that left it playing, the
    frame whose computed position reaches or passes the duration sets the
    position to exactly the duration, then stops playing, and queues no
    further frame; no reader sees the studio stopped at another position,
    and the position is at the duration while still playing. Over the whole
    run, with whatever frame times follow, the end is signalled exactly
    once. *)
Theorem C7_end_of_media (st : Studio.t) (before : list R) (time : R) (later : list R) :
  isPlaying st = true -> frameRequested st = true ->
  let mid := frames st before in
  isPlaying mid = true ->
  newTime time mid >= durationRef st ->
  let st' := frame mid time in
  let seen := observed (with_frameRequested false mid) (animate time mid) in
  currentTime st' = durationRef st /\
  isPlaying st' = false /\
  frameRequested st' = false /\
  Forall (fun s => isPlaying s = false -> currentTime s = durationRef st) seen /\
  (exists s, In s seen /\ currentTime s = durationRef st /\ isPlaying s = true) /\
  endedCount (framesActions st (before ++ time :: later)) = 1%nat /\
  frames st (before ++ time :: later) = st'.
Proof.
  intros P F mid Pm E st' seen.
  destruct (run_dichotomy before st P F) as [D [(_ & Fm & K) | (Pm' & _)]];
    fold mid in D; [| fold mid in Pm'; congruence].
  fold mid in Fm. rewrite <- D in *.
  destruct (frame_end mid time Pm Fm E) as (C & P' & F' & _ & _ & K' & O & X).
  destruct (frames_stopped later st' F') as [S A].
  repeat split; try assumption.
  - rewrite framesActions_app, endedCount_app, K. simpl.
    fold mid. fold st'. rewrite A, app_nil_r. exact K'.
  - rewrite frames_app. fold mid. exact S.
Qed.

(** The first studio component ends a run differently: its frame that
    reaches the duration puts the position back to 0 before stopping. *)
Lemma legacy_end_resets_position (st : LegacyStudio.t) (time : R) :
  LegacyStudio.frameRequested st = true ->
  LegacyStudio.newTime time st >= LegacyStudio.duration st ->
  LegacyStudio.currentTime (LegacyStudio.frame st time) = 0 /\
  LegacyStudio.isPlaying (LegacyStudio.frame st time) = false /\
  LegacyStudio.frameRequested (LegacyStudio.frame st time) = false.
Proof.
  intros F E. unfold LegacyStudio.frame, LegacyStudio.animate. rewrite F.
  destruct (Rge_dec _ _); [| contradiction]. repeat split.
Qed.

End EndOfMedia.

(** ** Loading a recording *)

Section Loading.

Import Studio.

Lemma loadModelByIndex_loaded st index modelData :
  availableModels st <> [] -> isLoadingModel st = false ->
  let st' := loadModelByIndex index (Some modelData) st in
  data st' = modelData /\
  durationRef st' = duration modelData /\
  isPlaying st' = false /\
  currentTime st' = 0 /\
  scheduledRef st' = false.
Proof.
  intros M L.
  destruct st as [d p c s v models ci loading fr start sr dr sc ss au].
  simpl in M, L. subst loading.
  destruct models as [| m ms]; [contradiction |].
  destruct p; repeat split.
Qed.

(** C8 (as the code has it). Loading a recording keeps the list of events
    exactly as supplied: same events, same order, none dropped or
    reordered, whatever their timestamps. The studio is left paused at
    position 0, and the next play hands every event of that list, in that
    order, to the scheduler. *)
Theorem C8_load_keeps_list (st : Studio.t) (index : nat) (modelData : SwingData) :
  availableModels st <> [] -> isLoadingModel st = false ->
  let st' := loadModelByIndex index (Some modelData) st in
  rhythmTrack (data st') = rhythmTrack modelData /\
  durationRef st' = duration modelData /\
  isPlaying st' = false /\
  currentTime st' = 0 /\
  audio (togglePlay st') =
    AudioService.scheduleSounds (map toScheduledSound (rhythmTrack modelData)) 0 (audio st').
Proof.
  intros M L st'.
  destruct (loadModelByIndex_loaded st index modelData M L) as (D & Du & P & C & S).
  fold st' in D, Du, P, C, S.
  destruct (togglePlay_paused st' P S) as (_ & _ & _ & _ & _ & _ & A).
  rewrite D, C in A. rewrite D. auto.
Qed.

(** C9. When play is pressed, an event whose intensity is missing or is 0
    is handed to the scheduler with intensity 0.7, and the voice booked for
    it is the one of intensity 0.7: for a KICK its amplitude is 0.79, not
    the 0.3 of the table at intensity 0. *)
Theorem C9_default_intensity (st : Studio.t) (node : RhythmNode) :
  isPlaying st = false -> scheduledRef st = false ->
  AudioService.wired (audio st) ->
  In node (rhythmTrack (data st)) ->
  timestamp node >= currentTime st ->
  intensity node = None \/ intensity node = Some 0 ->
  let a := audio st in
  let bookedTime :=
    AudioService.now (AudioService.initAudio a) + 0.02 + (timestamp node - currentTime st) in
  AudioService.sound_intensity (toScheduledSound node) = 0.7 /\
  In (AudioService.voiceOf a (node_type node) bookedTime 0.7)
     (AudioService.booked (audio (togglePlay st))) /\
  AudioService.amplitude (AudioService.voiceOf a AudioService.KICK bookedTime 0.7) = 0.79 /\
  AudioService.amplitude (AudioService.voiceOf a AudioService.KICK bookedTime 0) = 0.3.
Proof.
  intros P S W I D Z a bookedTime.
  assert (E : AudioService.sound_intensity (toScheduledSound node) = 0.7).
  { simpl. destruct Z as [-> | ->]; [apply or_default_absent | apply or_default_zero]. }
  destruct (togglePlay_paused st P S) as (_ & _ & _ & _ & _ & _ & A).
  rewrite A.
  destruct (scheduleSounds_books (map toScheduledSound (rhythmTrack (data st)))
              (currentTime st) a (toScheduledSound node) W) as [B _].
  { apply in_map, I. }
  { exact D. }
  rewrite E in B.
  split; [exact E |]. split; [exact B |]. split; simpl; lra.
Qed.

End Loading.

(** ** Scenarios on the clock *)

Section ClockScenario.

Import Studio.

Local Abbreviation proStudio := (mount PRO_SWING_DATA AudioService.new).

(** One second into a run at speed 1 on a recording of 2.5 s: first frame
    at 1000 ms, next frame at 2000 ms. *)
Lemma one_second_in (s0 : Studio.t) :
  started s0 -> speedRef s0 = 1 -> durationRef s0 = 2.5 ->
  let st1 := frames s0 [1000; 2000] in
  running 1000 st1 /\ currentTime st1 = 1 /\ speedRef st1 = 1 /\ durationRef st1 = 2.5.
Proof.
  intros St Sp Du.
  destruct (frames_position s0 1000 [] 2000 St) as (Ru & C & Sp' & Du' & _).
  - lra.
  - rewrite Du. lra.
  - repeat constructor. rewrite Sp, Du. lra.
  - simpl app in *. split; [exact Ru |]. rewrite C, Sp', Du', Sp, Du.
    repeat split; lra.
Qed.

(** Pause at position 1, then play again: frames at 5000 and 5500 ms. *)
Lemma resume_counts_from_zero (s0 : Studio.t) :
  started s0 -> speedRef s0 = 1 -> durationRef s0 = 2.5 ->
  let st1 := frames s0 [1000; 2000] in
  let resumed := togglePlay (togglePlay st1) in
  let final := frames resumed [5000; 5500] in
  started resumed /\ currentTime resumed = 1 /\ speedRef resumed = 1 /\
  currentTime final = 0.5.
Proof.
  intros St Sp Du st1 resumed final.
  destruct (one_second_in s0 St Sp Du) as (Ru & C1 & Sp1 & Du1).
  fold st1 in Ru, C1, Sp1, Du1.
  destruct (togglePlay_playing st1 (proj1 Ru))
    as (P2 & _ & _ & C2 & Sp2 & Du2 & _ & S2 & _).
  destruct (togglePlay_paused (togglePlay st1) P2 S2)
    as (St3 & C3 & Sp3 & Du3 & _).
  fold resumed in St3, C3, Sp3, Du3.
  assert (SpR : speedRef resumed = 1) by congruence.
  assert (DuR : durationRef resumed = 2.5) by congruence.
  destruct (frames_position resumed 5000 [] 5500 St3) as (_ & C & _).
  - lra.
  - rewrite DuR. lra.
  - repeat constructor. rewrite SpR, DuR. lra.
  - simpl app in C. fold final in C.
    split; [exact St3 |]. split; [congruence |]. split; [exact SpR |].
    rewrite C, SpR. lra.
Qed.

Lemma C2_position_from_elapsed_witness :
  let st := togglePlay proStudio in
  started st /\ 1000 <> 0 /\ 0 < durationRef st /\
  Forall (fun time => (time - 1000) / 1000 * speedRef st < durationRef st)
    ([1016; 1300] ++ [1500]) /\
  currentTime (frames st (1000 :: [1016; 1300] ++ [1500]))
    = 0 + (1500 - 1000) / 1000 * speedRef st.
Proof.
  intros st.
  destruct pro_play as (St & _ & Sp & Du & _).
  assert (Z : 1000 <> 0) by lra.
  assert (D : 0 < durationRef st) by (unfold st; rewrite Du; lra).
  assert (A : Forall (fun time => (time - 1000) / 1000 * speedRef st < durationRef st)
                ([1016; 1300] ++ [1500])).
  { unfold st. rewrite Sp, Du. repeat constructor; lra. }
  split; [exact St |]. split; [exact Z |]. split; [exact D |].
  split; [exact A |].
  exact (proj1 (C2_position_from_elapsed st 1000 [1016; 1300] 1500 St Z D A)).
Defined.

(** C2, counterexample: the studio plays for one second, is paused at
    position 1 and play is pressed again, at speed 1. The new run is started
    from position 1; its frames at 5000 and 5500 ms put the position at 0.5,
    not at [1 + (5500 - 5000) / 1000 * 1]. *)
Lemma C2_counterexample :
  let st1 := frames (togglePlay proStudio) [1000; 2000] in
  let resumed := togglePlay (togglePlay st1) in
  let final := frames resumed [5000; 5500] in
  started resumed /\ currentTime resumed = 1 /\ speedRef resumed = 1 /\
  currentTime final = 0.5 /\
  currentTime final <> currentTime resumed + (5500 - 5000) / 1000 * speedRef resumed.
Proof.
  intros st1 resumed final.
  destruct pro_play as (St & _ & Sp & Du & _).
  destruct (resume_counts_from_zero (togglePlay proStudio) St Sp Du)
    as (St' & C & Sp' & F).
  fold st1 in St', C, Sp', F. fold resumed in St', C, Sp', F. fold final in F.
  split; [exact St' |]. split; [exact C |]. split; [exact Sp' |].
  split; [exact F |]. rewrite F, C, Sp'. lra.
Qed.

Lemma C3_speed_change_rescales_witness :
  let st := frames (togglePlay proStudio) [1000; 2000] in
  running 1000 st /\
  (2000 - 1000) / 1000 * speedRef st < durationRef st /\
  (2000 - 1000) / 1000 * 0.5 < durationRef st /\
  currentTime (frame st 2000) = (2000 - 1000) / 1000 * speedRef st /\
  currentTime (frame (handleSpeedChange 0.5 st) 2000) = (2000 - 1000) / 1000 * 0.5.
Proof.
  intros st.
  destruct pro_play as (St & _ & Sp & Du & _).
  destruct (one_second_in (togglePlay proStudio) St Sp Du) as (Ru & _ & Sp1 & Du1).
  fold st in Ru, Sp1, Du1.
  assert (L : (2000 - 1000) / 1000 * speedRef st < durationRef st)
    by (rewrite Sp1, Du1; lra).
  assert (L' : (2000 - 1000) / 1000 * 0.5 < durationRef st)
    by (rewrite Du1; lra).
  destruct (C3_speed_change_rescales st 1000 2000 0.5 Ru L L') as (_ & _ & C & C' & _).
  split; [exact Ru |]. split; [exact L |]. split; [exact L' |].
  split; [exact C | exact C'].
Defined.

(** C3, counterexample: one second into a run at speed 1 the position is 1;
    the speed is set to 0.5; the frame delivered at that same instant puts
    the position at 0.5. *)
Lemma C3_counterexample :
  let st := frames (togglePlay proStudio) [1000; 2000] in
  let st' := handleSpeedChange 0.5 st in
  isPlaying st = true /\
  currentTime st = 1 /\
  currentTime (frame st 2000) = 1 /\
  currentTime (frame st' 2000) = 0.5 /\
  currentTime (frame st' 2000) <> currentTime (frame st 2000).
Proof.
  intros st st'.
  destruct pro_play as (St & _ & Sp & Du & _).
  destruct (one_second_in (togglePlay proStudio) St Sp Du) as (Ru & C1 & Sp1 & Du1).
  fold st in Ru, C1, Sp1, Du1.
  destruct (frame_running 1000 st 2000 Ru) as (_ & C & _).
  { rewrite Sp1, Du1. lra. }
  destruct (frame_running 1000 st' 2000 (handleSpeedChange_running 1000 st 0.5 Ru))
    as (_ & C' & _).
  { change (speedRef st') with 0.5. change (durationRef st') with (durationRef st).
    rewrite Du1. lra. }
  change (speedRef st') with 0.5 in C'. rewrite Sp1 in C.
  split; [apply Ru |]. split; [exact C1 |].
  rewrite C, C'. repeat split; lra.
Qed.

End ClockScenario.

(** ** Scenarios on the end of a run and on loading *)

Section EndScenario.

Import Studio.

Local Abbreviation proStudio := (mount PRO_SWING_DATA AudioService.new).

(** The run on the professional recording (2.5 s) at speed 1 with frames at
    1000, 2000 and 3500 ms and one more frame time after the end. *)
Lemma C7_end_of_media_witness :
  let st := togglePlay proStudio in
  let mid := frames st [1000; 2000] in
  isPlaying st = true /\ frameRequested st = true /\ isPlaying mid = true /\
  newTime 3500 mid >= durationRef st /\
  currentTime (frame mid 3500) = durationRef st /\
  isPlaying (frame mid 3500) = false /\
  endedCount (framesActions st ([1000; 2000] ++ 3500 :: [3516])) = 1%nat.
Proof.
  intros st mid.
  destruct pro_play as (St & _ & Sp & Du & _).
  destruct (one_second_in (togglePlay proStudio) St Sp Du) as (Ru & _ & Sp1 & _).
  assert (P : isPlaying st = true) by apply St.
  assert (F : frameRequested st = true) by apply St.
  assert (Pm : isPlaying mid = true) by apply Ru.
  assert (E : newTime 3500 mid >= durationRef st).
  { unfold mid, st. rewrite (newTime_running 1000 _ 3500 Ru), Sp1, Du. lra. }
  destruct (C7_end_of_media st [1000; 2000] 3500 [3516] P F Pm E)
    as (C & P' & _ & _ & _ & K & _).
  repeat split; assumption.
Defined.

Lemma C8_load_keeps_list_witness :
  let st := with_availableModels ["T01"] proStudio in
  availableModels st <> [] /\ isLoadingModel st = false /\
  rhythmTrack (data (loadModelByIndex 0 (Some PRO_SWING_DATA) st))
    = rhythmTrack PRO_SWING_DATA.
Proof.
  intros st.
  assert (M : availableModels st <> []) by discriminate.
  assert (L : isLoadingModel st = false) by reflexivity.
  split; [exact M |]. split; [exact L |].
  exact (proj1 (C8_load_keeps_list st 0 PRO_SWING_DATA M L)).
Defined.

(** C8, counterexample: a recording of 1.5 s whose events come at 2, -1 and
    0.5 s is loaded. The list held afterwards is that list: it contains an
    event before 0 and one after the duration, and it is not in ascending
    order. *)
Lemma C8_counterexample :
  let node := fun i t =>
    {| node_id := i; timestamp := t; intensity := Some 0.5;
       node_type := AudioService.KICK; label := "Leg Load" |} in
  let supplied := [node "a" 2; node "b" (-1); node "c" 0.5] in
  let recording :=
    {| data_id := "T02"; duration := 1.5; model_code := Some "T02";
       rhythmTrack := supplied |} in
  let st' :=
    loadModelByIndex 1 (Some recording)
      (with_availableModels ["T01"; "T02"] proStudio) in
  rhythmTrack (data st') = supplied /\
  duration (data st') = 1.5 /\
  In (node "b" (-1)) (rhythmTrack (data st')) /\ timestamp (node "b" (-1)) < 0 /\
  In (node "a" 2) (rhythmTrack (data st')) /\
  timestamp (node "a" 2) > duration (data st') /\
  timestamp (node "b" (-1)) < timestamp (node "a" 2).
Proof.
  intros node supplied recording st'.
  destruct (loadModelByIndex_loaded
              (with_availableModels ["T01"; "T02"] proStudio) 1 recording)
    as (D & _); [discriminate | reflexivity |].
  fold st' in D. rewrite D. simpl.
  repeat split; auto; lra.
Qed.

Lemma C9_default_intensity_witness :
  let node :=
    {| node_id := "k1"; timestamp := 0.5; intensity := Some 0;
       node_type := AudioService.KICK; label := "Leg Load" |} in
  let st :=
    mount {| data_id := "T03"; duration := 2.5; model_code := None;
             rhythmTrack := [node] |} AudioService.new in
  isPlaying st = false /\ scheduledRef st = false /\
  AudioService.wired (audio st) /\
  In node (rhythmTrack (data st)) /\
  timestamp node >= currentTime st /\
  (intensity node = None \/ intensity node = Some 0) /\
  In (AudioService.voiceOf (audio st) AudioService.KICK
        (AudioService.now (AudioService.initAudio (audio st)) + 0.02
           + (timestamp node - currentTime st)) 0.7)
     (AudioService.booked (audio (togglePlay st))).
Proof.
  intros node st.
  assert (P : isPlaying st = false) by reflexivity.
  assert (S : scheduledRef st = false) by reflexivity.
  assert (W : AudioService.wired (audio st)) by exact I.
  assert (N : In node (rhythmTrack (data st))) by (left; reflexivity).
  assert (D : timestamp node >= currentTime st) by (simpl; lra).
  assert (Z : intensity node = None \/ intensity node = Some 0) by (right; reflexivity).
  split; [exact P |]. split; [exact S |]. split; [exact W |].
  split; [exact N |]. split; [exact D |]. split; [exact Z |].
  exact (proj1 (proj2 (C9_default_intensity st node P S W N D Z))).
Defined.

(** The first studio component, [swingsymphony/components/Studio.tsx]: play
    pressed on a 2.5 s recording, a first frame at 1000 ms and a frame a
    minute later, whose step passes the duration. The position is put back
    to 0, not to the duration. *)
Lemma C7_counterexample :
  let pressed :=
    LegacyStudio.playEffect
      {| LegacyStudio.duration := 2.5; LegacyStudio.isPlaying := true;
         LegacyStudio.currentTime := 0; LegacyStudio.speed := 1;
         LegacyStudio.frameRequested := false;
         LegacyStudio.startTimeRef := None |} in
  let mid := LegacyStudio.frame pressed 1000 in
  let final := LegacyStudio.frame mid 61000 in
  LegacyStudio.isPlaying mid = true /\ LegacyStudio.currentTime mid = 0 /\
  LegacyStudio.newTime 61000 mid >= LegacyStudio.duration mid /\
  LegacyStudio.currentTime final = 0 /\
  LegacyStudio.currentTime final <> LegacyStudio.duration final /\
  LegacyStudio.isPlaying final = false.
Proof.
  intros pressed mid final.
  assert (M : mid = {| LegacyStudio.duration := 2.5; LegacyStudio.isPlaying := true;
                       LegacyStudio.currentTime := 0 + (1000 - 1000) / 1000 * 1 * 0.05;
                       LegacyStudio.speed := 1; LegacyStudio.frameRequested := true;
                       LegacyStudio.startTimeRef := Some 1000 |}).
  { unfold mid, pressed, LegacyStudio.frame, LegacyStudio.animate,
      LegacyStudio.newTime, LegacyStudio.startUnset, LegacyStudio.playEffect.
    simpl. destruct (Rge_dec _ _) as [G | _]; [lra | reflexivity]. }
  assert (N : LegacyStudio.newTime 61000 mid >= LegacyStudio.duration mid).
  { rewrite M. unfold LegacyStudio.newTime, LegacyStudio.startUnset. simpl.
    rewrite falsy_nonzero by lra. simpl. lra. }
  assert (F : LegacyStudio.frameRequested mid = true) by now rewrite M.
  destruct (legacy_end_resets_position mid 61000 F N) as (C & P & _).
  fold final in C, P.
  split; [now rewrite M |]. split; [rewrite M; simpl; lra |].
  split; [exact N |]. split; [exact C |]. split; [| exact P].
  rewrite C. unfold final, LegacyStudio.frame, LegacyStudio.animate. rewrite F.
  destruct (Rge_dec _ _) as [_ | G]; [| contradiction].
  unfold LegacyStudio.playEffect. simpl. rewrite M. simpl. lra.
Qed.

End EndScenario.

(** * Further properties of the audio service *)

Section Commit.

Import AudioService.

Lemma booked_initAudio a : booked (initAudio a) = booked a.
Proof.
  unfold booked, initAudio. destruct (audioContext a) eqn:E; simpl; now rewrite ?E.
Qed.


Lemma scheduleOne_ahead ast p0 a sound :
  wired a -> is_Some (audioContext a) ->
  ahead ast p0 (now a) sound = true ->
  booked (scheduleOne ast p0 a sound)
    = voiceOf a (sound_type sound) (ast + (sound_time sound - p0)) (sound_intensity sound)
      :: booked a.
Proof.
  intros W C H. unfold scheduleOne, ahead in *.
  destruct (Rgt_dec _ _); [| discriminate].
  rewrite scheduleSound_connect.
  change (booked (recordSound ?i ?x ?b)) with (booked b).
  now apply connect_booked.
Qed.

Lemma scheduleOne_due ast p0 a sound :
  ahead ast p0 (now a) sound = false -> scheduleOne ast p0 a sound = a.
Proof.
  unfold scheduleOne, ahead. destruct (Rgt_dec _ _); [discriminate | reflexivity].
Qed.

(** The voices the loop starts: one per sound that is ahead of the clock,
    in the order of the list, on top of those already there. *)
Lemma fold_booked_exact ast p0 sounds a0 : forall a,
  sameEngine a0 a ->
  booked (fold_left (scheduleOne ast p0) sounds a)
    = rev (map (fun s => voiceOf a0 (sound_type s) (ast + (sound_time s - p0))
                           (sound_intensity s))
               (List.filter (ahead ast p0 (now a0)) sounds))
      ++ booked a.
Proof.
  induction sounds as [| s rest IH]; intros a E; simpl; [reflexivity |].
  pose proof (scheduleOne_sameEngine ast p0 a0 a s E) as E'.
  rewrite (IH _ E'). destruct E as (N & S & G & W & C).
  destruct (ahead ast p0 (now a0) s) eqn:A.
  - rewrite <- N in A. rewrite (scheduleOne_ahead ast p0 a s W C A).
    rewrite (voiceOf_speed a a0) by congruence.
    simpl. now rewrite <- app_assoc.
  - rewrite <- N in A. now rewrite (scheduleOne_due ast p0 a s A).
Qed.





End Commit.

Section CommitTheorems.

Import AudioService.

Lemma scheduleSounds_exact sounds p0 a :
  wired a ->
  let t0 := now (initAudio a) in
  booked (scheduleSounds sounds p0 a)
    = rev (map (fun s => voiceOf a (sound_type s) (t0 + 0.02 + (sound_time s - p0))
                           (sound_intensity s))
               (List.filter (ahead (t0 + 0.02) p0 t0) sounds))
      ++ booked a.
Proof.
  intros W t0. unfold scheduleSounds.
  pose proof (wired_initAudio a W) as W'.
  destruct (initAudio_context a) as [ctx E]. rewrite E.
  assert (N : t0 = currentTime ctx) by (unfold t0, now; now rewrite E).
  rewrite <- N.
  set (b := clearScheduledSounds (initAudio a)).
  assert (S : sameEngine b b).
  { apply sameEngine_refl; [exact W' | simpl; rewrite E; eauto]. }
  assert (Sb : currentSpeed b = currentSpeed a).
  { unfold b, initAudio. simpl. now destruct (audioContext a). }
  rewrite (fold_booked_exact (t0 + 0.02) p0 sounds b b S).
  change (now b) with t0. change (booked b) with (booked (initAudio a)).
  rewrite booked_initAudio. f_equal. f_equal.
  apply map_ext. intros s. apply voiceOf_speed. exact Sb.
Qed.




Lemma step_grows a op : wired a -> exists new, booked (step a op) = new ++ booked a.
Proof.
  intros W. pose proof (wired_initAudio a W) as W'.
  destruct (initAudio_context a) as [ctx E].
  assert (C : is_Some (audioContext (initAudio a))) by (rewrite E; eauto).
  destruct op; simpl;
    try (exists []; reflexivity);
    try (unfold playKick, playBass, playSnare, playCrash, playRhythmNode;
         rewrite E, ?scheduleSound_connect, ?scheduleKick, ?scheduleBass;
         unfold scheduleKick, scheduleBass, scheduleSnare, scheduleCrash;
         rewrite connect_booked, booked_initAudio by assumption;
         eexists [_]; reflexivity).
  - rewrite (scheduleSounds_exact sounds startTime a W). eauto.
  - exists []. simpl. unfold booked, setVolume.
    destruct (masterGain a); reflexivity.
  - exists []. simpl. apply elapse_booked.
Qed.

(** X3. No call on the service ever takes a voice off the engine: after any
    further history of calls, the voices booked so far are all still there,
    under the ones added since. *)
Theorem X3_voices_are_never_removed (ops more : list Op) :
  exists new, booked (run (ops ++ more)) = new ++ booked (run ops).
Proof.
  induction more as [| op more IH] using rev_ind.
  - exists []. now rewrite app_nil_r.
  - destruct IH as [new IH]. rewrite app_assoc, run_snoc.
    destruct (step_grows (run (ops ++ more)) op (wired_run _)) as [new' H].
    exists (new' ++ new). now rewrite H, IH, app_assoc.
Qed.

End CommitTheorems.

Section VoiceRanges.

Import AudioService.

Lemma getPitchShift_pos a : 0 < getPitchShift a.
Proof. unfold getPitchShift, Rpower. apply exp_pos. Qed.

(** X4. For an intensity between 0 and 1 the voices stay in the ranges the
    generators document: KICK volume 30%-100% and frequency 150-225 Hz, BASS
    24%-80% and 100-150 Hz, SNARE noise 12%-40% with a tone of 9%-30% at
    180-270 Hz, CRASH 15%-50% with a cutoff of 2000-3500 Hz, frequencies
    before the pitch shift; and every gain starts above the 0.01 it ramps
    down to. *)
Theorem X4_documented_ranges (a : t) (time I : R) :
  0 <= I <= 1 ->
  let ps := getPitchShift a in
  (exists f g start stop,
     kickVoice a time I = Tone f g start stop /\
     0.3 <= ramp_value g <= 1 /\ ramp_target g < ramp_value g /\
     150 * ps <= ramp_value f <= 225 * ps) /\
  (exists f g start stop,
     bassVoice a time I = Tone f g start stop /\
     0.24 <= ramp_value g <= 0.8 /\ ramp_target g < ramp_value g /\
     100 * ps <= ramp_value f <= 150 * ps) /\
  (exists cutoff noiseGain oscFreq oscGain start noiseStop oscStop,
     snareVoice a time I = Snare cutoff noiseGain oscFreq oscGain start noiseStop oscStop /\
     0.12 <= ramp_value noiseGain <= 0.4 /\ ramp_target noiseGain < ramp_value noiseGain /\
     0.09 <= ramp_value oscGain <= 0.3 /\ ramp_target oscGain < ramp_value oscGain /\
     180 * ps <= oscFreq <= 270 * ps) /\
  (exists cutoff noiseGain start stop,
     crashVoice time I = Crash cutoff noiseGain start stop /\
     0.15 <= ramp_value noiseGain <= 0.5 /\ ramp_target noiseGain < ramp_value noiseGain /\
     2000 <= cutoff <= 3500).
Proof.
  intros HI ps. pose proof (getPitchShift_pos a) as P. fold ps in P.
  unfold kickVoice, bassVoice, snareVoice, crashVoice. fold ps.
  clearbody ps.
  repeat split.
  - do 4 eexists. split; [reflexivity |]. cbn. repeat split; nra.
  - do 4 eexists. split; [reflexivity |]. cbn. repeat split; nra.
  - do 7 eexists. split; [reflexivity |]. cbn. repeat split; nra.
  - do 4 eexists. split; [reflexivity |]. cbn. repeat split; nra.
Qed.

Lemma X4_documented_ranges_witness :
  0 <= 0.5 <= 1 /\
  exists f g start stop,
    kickVoice new 0 0.5 = Tone f g start stop /\
    0.3 <= ramp_value g <= 1 /\ ramp_target g < ramp_value g /\
    150 * getPitchShift new <= ramp_value f <= 225 * getPitchShift new.
Proof.
  assert (H : 0 <= 0.5 <= 1) by lra.
  split; [exact H |].
  exact (proj1 (X4_documented_ranges new 0 0.5 H)).
Defined.

(** X5. The pitch shift is positive, is 1 at speed 1 and grows strictly
    with the speed: slower playback lowers the pitch of every tone, faster
    playback raises it. *)
Theorem X5_pitch_follows_speed (a : t) (s1 s2 : R) :
  s1 < s2 ->
  getPitchShift (setSpeed s1 a) < getPitchShift (setSpeed s2 a) /\
  getPitchShift (setSpeed 1 a) = 1 /\
  0 < getPitchShift (setSpeed s1 a) /\
  (s2 < 1 -> getPitchShift (setSpeed s2 a) < 1) /\
  (1 < s1 -> 1 < getPitchShift (setSpeed s1 a)).
Proof.
  intros L. unfold getPitchShift. simpl.
  assert (M : forall x y, x < y ->
            Rpower 2 ((x - 1) * 0.167) < Rpower 2 ((y - 1) * 0.167)).
  { intros x y H. apply Rpower_lt; lra. }
  assert (O : Rpower 2 ((1 - 1) * 0.167) = 1).
  { replace ((1 - 1) * 0.167) with 0 by lra. apply Rpower_O. lra. }
  split; [now apply M |]. split; [exact O |].
  split; [unfold Rpower; apply exp_pos |].
  split; intros H.
  - rewrite <- O at 2. now apply M.
  - rewrite <- O at 1. now apply M.
Qed.

Lemma X5_pitch_follows_speed_witness :
  0.5 < 1 /\ getPitchShift (setSpeed 0.5 new) < getPitchShift (setSpeed 1 new).
Proof.
  assert (H : 0.5 < 1) by lra.
  split; [exact H |].
  exact (proj1 (X5_pitch_follows_speed new 0.5 1 H)).
Defined.

End VoiceRanges.

Section Volume.

Import AudioService.

Lemma scheduleSounds_gain sounds p0 a :
  wired a -> masterGain (scheduleSounds sounds p0 a) = masterGain (initAudio a).
Proof.
  intros W. unfold scheduleSounds.
  pose proof (wired_initAudio a W) as W'.
  destruct (initAudio_context a) as [ctx E]. rewrite E.
  set (b := clearScheduledSounds (initAudio a)).
  assert (S : sameEngine b b).
  { apply sameEngine_refl; [exact W' | simpl; rewrite E; eauto]. }
  apply (fold_sameEngine (currentTime ctx + 0.02) p0 sounds) in S.
  now destruct S as (_ & _ & M & _).
Qed.

(** Pressing play on a paused studio whose service has no master gain yet. *)
Lemma first_play_gain (st : Studio.t) :
  Studio.isPlaying st = false -> Studio.scheduledRef st = false ->
  wired (Studio.audio st) -> masterGain (Studio.audio st) = None ->
  masterGain (Studio.audio (Studio.togglePlay st)) = Some 0.3.
Proof.
  intros P S W G.
  destruct (togglePlay_paused st P S) as (_ & _ & _ & _ & _ & _ & A).
  rewrite A, (scheduleSounds_gain _ _ _ W).
  unfold initAudio, wired in *. rewrite G in W.
  destruct (audioContext (Studio.audio st)); [contradiction | reflexivity].
Qed.

(** X6. A volume chosen before the first sound is lost: on a studio just
    mounted with a fresh audio service the slider value is stored in the
    component, but the service has no gain to set yet, and the first play
    creates the master gain at 0.3 whatever the slider says. *)
Theorem X6_volume_before_first_play_is_lost (d : Studio.SwingData) (v : R) :
  let st := Studio.handleVolumeChange v (Studio.mount d new) in
  Studio.volume st = v /\
  masterGain (Studio.audio st) = None /\
  Studio.volume (Studio.togglePlay st) = v /\
  masterGain (Studio.audio (Studio.togglePlay st)) = Some 0.3.
Proof.
  intros st.
  assert (P : Studio.isPlaying st = false) by reflexivity.
  assert (S : Studio.scheduledRef st = false) by reflexivity.
  assert (W : wired (Studio.audio st)) by exact I.
  assert (G : masterGain (Studio.audio st) = None) by reflexivity.
  split; [reflexivity |]. split; [exact G |].
  split; [| exact (first_play_gain st P S W G)].
  unfold Studio.togglePlay, Studio.setIsPlaying. rewrite P. reflexivity.
Qed.

(** X7. Once the master gain exists, the slider value [v] (in percent) sets
    it to [v / 100] when [0 <= v <= 100]; values above 100 give gain 1 and
    values below 0 give gain 0. *)
Theorem X7_slider_sets_gain (st : Studio.t) (v g : R) :
  masterGain (Studio.audio st) = Some g ->
  let st' := Studio.handleVolumeChange v st in
  Studio.volume st' = v /\
  (0 <= v <= 100 -> masterGain (Studio.audio st') = Some (v / 100)) /\
  (100 <= v -> masterGain (Studio.audio st') = Some 1) /\
  (v <= 0 -> masterGain (Studio.audio st') = Some 0).
Proof.
  intros G st'. split; [reflexivity |].
  unfold st', Studio.handleVolumeChange. simpl. unfold setVolume. rewrite G. simpl.
  unfold Rmax, Rmin.
  repeat split; intros H; f_equal;
    destruct (Rle_dec 1 (v / 100)); destruct (Rle_dec 0 _); lra.
Qed.

End Volume.

(** * Further properties of the studio *)

Section StudioInvariant.

Import Studio.

#[local] Arguments AudioService.scheduleSounds : simpl never.
#[local] Arguments AudioService.setVolume : simpl never.
#[local] Arguments AudioService.elapse : simpl never.

Lemma audio_scheduleSounds_ok sounds p a s :
  AudioService.wired a -> AudioService.gainInRange a ->
  AudioService.currentSpeed a = s ->
  AudioService.currentSpeed (AudioService.scheduleSounds sounds p a) = s /\
  AudioService.wired (AudioService.scheduleSounds sounds p a) /\
  AudioService.gainInRange (AudioService.scheduleSounds sounds p a).
Proof.
  intros W G S. split; [| split].
  - rewrite <- S. apply scheduleSounds_now, W.
  - now apply wired_scheduleSounds.
  - now apply gain_scheduleSounds.
Qed.

Lemma audio_setVolume_ok v a s :
  AudioService.wired a -> AudioService.currentSpeed a = s ->
  AudioService.currentSpeed (AudioService.setVolume v a) = s /\
  AudioService.wired (AudioService.setVolume v a) /\
  AudioService.gainInRange (AudioService.setVolume v a).
Proof.
  intros W S. split; [| split].
  - rewrite <- S. unfold AudioService.setVolume.
    destruct (AudioService.masterGain a); reflexivity.
  - now apply wired_setVolume.
  - apply gain_setVolume.
Qed.

Lemma audio_elapse_ok d a s :
  AudioService.wired a -> AudioService.gainInRange a ->
  AudioService.currentSpeed a = s ->
  AudioService.currentSpeed (AudioService.elapse d a) = s /\
  AudioService.wired (AudioService.elapse d a) /\
  AudioService.gainInRange (AudioService.elapse d a).
Proof.
  intros W G S. split; [| split].
  - rewrite <- S. unfold AudioService.elapse.
    destruct (AudioService.audioContext a); reflexivity.
  - now apply wired_elapse.
  - unfold AudioService.gainInRange, AudioService.elapse in *.
    destruct (AudioService.audioContext a); exact G.
Qed.

Lemma consistent_setIsPlaying b st : consistent st -> consistent (setIsPlaying b st).
Proof.
  destruct st as [d p c s v models ci loading fr start sr dr sc ss au].
  unfold consistent. simpl. intros (-> & -> & St & -> & -> & Sp & -> & W & G).
  unfold setIsPlaying. simpl.
  destruct b, p; simpl; auto 10.
  destruct (audio_scheduleSounds_ok (map toScheduledSound (rhythmTrack d)) c au s W G Sp)
    as (Sp' & W' & G').
  auto 10.
Qed.

Lemma consistent_with_currentTime x st : consistent st -> consistent (with_currentTime x st).
Proof. intros H. exact H. Qed.

Lemma consistent_with_startTimeRef_playing v st :
  consistent st -> isPlaying st = true -> consistent (with_startTimeRef v st).
Proof.
  unfold consistent. simpl. intros (A & B & C & D) P. auto 10.
Qed.

Lemma consistent_restartPlayback st : consistent st -> consistent (restartPlayback st).
Proof.
  intros H. unfold restartPlayback.
  pose proof (consistent_setIsPlaying true (setCurrentTime 0 st)
                (consistent_with_currentTime 0 st H)) as H'.
  revert H'. generalize (setIsPlaying true (setCurrentTime 0 st)) as st'.
  intros st'. unfold consistent. simpl. intros (A & B & C & D).
  repeat split; try apply D; auto.
Qed.

Lemma consistent_handleVolumeChange v st :
  consistent st -> consistent (handleVolumeChange v st).
Proof.
  unfold consistent, handleVolumeChange. simpl.
  intros (A & B & C & D & E & Sp & L & W & G).
  destruct (audio_setVolume_ok (v / 100) (audio st) (speed st) W Sp) as (Sp' & W' & G').
  auto 10.
Qed.

Lemma consistent_handleSpeedChange s st :
  consistent st -> consistent (handleSpeedChange s st).
Proof.
  unfold consistent, handleSpeedChange. simpl.
  intros (A & B & C & D & E & Sp & L & W & G). auto 10.
Qed.

Lemma consistent_frame st time : consistent st -> consistent (frame st time).
Proof.
  intros H. unfold frame.
  destruct (frameRequested st) eqn:F; [| exact H].
  revert H F.
  destruct st as [d p c s v models ci loading fr start sr dr sc ss au].
  unfold consistent. simpl. intros (-> & <- & St & -> & -> & Sp & -> & W & G) ->.
  unfold animate.
  destruct (Rge_dec _ _) as [E | E]; destruct (startUnset _);
    cbn [app fold_left perform setCurrentTime]; unfold setIsPlaying; simpl; auto 10.
Qed.

Lemma consistent_loadModelByIndex index fetched st :
  consistent st -> consistent (loadModelByIndex index fetched st).
Proof.
  destruct st as [d p c s v models ci loading fr start sr dr sc ss au].
  unfold consistent. simpl. intros (-> & -> & St & -> & -> & Sp & -> & W & G).
  unfold loadModelByIndex. simpl.
  destruct (Nat.eqb (length models) 0); simpl; [auto 10 |].
  unfold setIsPlaying. simpl.
  destruct p, fetched as [d' |]; simpl; auto 10.
Qed.

Lemma consistent_modelsListed initial models st :
  consistent st -> consistent (modelsListed initial models st).
Proof.
  intros H. unfold modelsListed.
  destruct (model_code initial) as [code |]; [| exact H].
  destruct (String.eqb code EmptyString); [exact H |].
  destruct (indexOf code models); exact H.
Qed.

Lemma consistent_handle initial st e : consistent st -> consistent (handle initial st e).
Proof.
  intros H. destruct e; simpl.
  - now apply consistent_setIsPlaying.
  - now apply consistent_restartPlayback.
  - now apply consistent_handleVolumeChange.
  - now apply consistent_handleSpeedChange.
  - now apply consistent_frame.
  - now apply consistent_modelsListed.
  - unfold loadNextModel. destruct (_ || _)%bool; [exact H |].
    now apply consistent_loadModelByIndex.
  - unfold loadPreviousModel. destruct (_ || _)%bool; [exact H |].
    now apply consistent_loadModelByIndex.
  - unfold consistent in *. simpl.
    destruct H as (A & B & C & D & E & Sp & L & W & G).
    destruct (audio_elapse_ok d (audio st) (speed st) W G Sp) as (Sp' & W' & G').
    auto 10.
Qed.

Lemma consistent_mount initial : consistent (mount initial AudioService.new).
Proof. unfold consistent. simpl. repeat split; auto. Qed.

Lemma after_snoc initial events e :
  after initial (events ++ [e]) = handle initial (after initial events) e.
Proof. unfold after. now rewrite fold_left_app. Qed.

Lemma consistent_after initial events : consistent (after initial events).
Proof.
  induction events as [| e events IH] using rev_ind.
  - exact (consistent_mount initial).
  - rewrite after_snoc. now apply consistent_handle.
Qed.

End StudioInvariant.

Section StudioBookings.

Import Studio.

#[local] Arguments AudioService.scheduleSounds : simpl never.
#[local] Arguments AudioService.setVolume : simpl never.
#[local] Arguments AudioService.elapse : simpl never.

Lemma booked_setVolume v a :
  AudioService.booked (AudioService.setVolume v a) = AudioService.booked a.
Proof.
  unfold AudioService.setVolume, AudioService.booked.
  destruct (AudioService.masterGain a); reflexivity.
Qed.

Lemma booked_setIsPlaying_false st :
  AudioService.booked (audio (setIsPlaying false st)) = AudioService.booked (audio st).
Proof.
  destruct st as [d p c s v models ci loading fr start sr dr sc ss au].
  unfold setIsPlaying. simpl. destruct p; reflexivity.
Qed.

Lemma booked_frame st time :
  AudioService.booked (audio (frame st time)) = AudioService.booked (audio st).
Proof.
  unfold frame. destruct (frameRequested st); [| reflexivity].
  unfold animate.
  destruct (Rge_dec _ _); destruct (startUnset st);
    cbn [app fold_left perform setCurrentTime];
    try reflexivity;
    change (audio (with_startTimeRef ?v ?s)) with (audio s);
    now rewrite booked_setIsPlaying_false.
Qed.

Lemma booked_loadModelByIndex index fetched st :
  AudioService.booked (audio (loadModelByIndex index fetched st))
    = AudioService.booked (audio st).
Proof.
  destruct st as [d p c s v models ci loading fr start sr dr sc ss au].
  unfold loadModelByIndex. simpl.
  destruct (Nat.eqb (length models) 0), loading; simpl; try reflexivity;
    unfold setIsPlaying; simpl; destruct p, fetched; reflexivity.
Qed.

(** X9. Voices are booked only when playback is started: while the studio
    is playing no event books anything (not a frame, a speed or volume
    change, a restart, a pause, a load), and while it is paused only play
    and restart do. *)
Theorem X9_only_starting_playback_books
    (initial : SwingData) (st : Studio.t) (e : Event) :
  isPlaying st = true \/ (e <> TogglePlay /\ e <> RestartPlayback) ->
  AudioService.booked (audio (handle initial st e)) = AudioService.booked (audio st).
Proof.
  intros H. destruct e; simpl.
  - destruct H as [P | [N _]]; [| contradiction].
    unfold togglePlay. rewrite P. apply booked_setIsPlaying_false.
  - destruct H as [P | [_ N]]; [| contradiction].
    unfold restartPlayback, setIsPlaying, setCurrentTime. simpl. rewrite P. reflexivity.
  - apply booked_setVolume.
  - reflexivity.
  - apply booked_frame.
  - unfold modelsListed.
    destruct (model_code initial) as [code |]; [| reflexivity].
    destruct (String.eqb code EmptyString); [reflexivity |].
    destruct (indexOf code models); reflexivity.
  - unfold loadNextModel. destruct (_ || _)%bool; [reflexivity |].
    apply booked_loadModelByIndex.
  - unfold loadPreviousModel. destruct (_ || _)%bool; [reflexivity |].
    apply booked_loadModelByIndex.
  - apply elapse_booked.
Qed.

Lemma X9_only_starting_playback_books_witness :
  let st := togglePlay (mount PRO_SWING_DATA AudioService.new) in
  (isPlaying st = true \/ (RestartPlayback <> TogglePlay /\ RestartPlayback <> RestartPlayback)) /\
  AudioService.booked (audio (handle PRO_SWING_DATA st RestartPlayback))
    = AudioService.booked (audio st).
Proof.
  intros st.
  assert (H : isPlaying st = true \/
              (RestartPlayback <> TogglePlay /\ RestartPlayback <> RestartPlayback))
    by (left; exact (proj1 (proj1 pro_play))).
  split; [exact H |].
  exact (X9_only_starting_playback_books PRO_SWING_DATA st RestartPlayback H).
Defined.

(** X11. A restart while playing rewinds the clock only: the position is 0
    and the next frame takes a new reference time, but the audio service is
    left as it is; nothing is cancelled and nothing is committed, so the
    sounds booked at the start of the run keep the engine times they had. *)
Theorem X11_restart_while_playing_keeps_audio (st : Studio.t) (t0 T : R) :
  isPlaying st = true -> frameRequested st = true ->
  t0 <> 0 -> 0 < durationRef st ->
  (T - t0) / 1000 * speedRef st < durationRef st ->
  let st' := restartPlayback st in
  started st' /\
  currentTime st' = 0 /\
  audio st' = audio st /\
  scheduledRef st' = scheduledRef st /\
  currentTime (frames st' [t0; T]) = (T - t0) / 1000 * speedRef st.
Proof.
  intros P F Z D L st'.
  assert (E : st' = with_startTimeRef None (with_currentTime 0 st)).
  { unfold st', restartPlayback, setIsPlaying, setCurrentTime. simpl.
    rewrite P. reflexivity. }
  assert (S : started st').
  { rewrite E. unfold started. simpl. auto. }
  split; [exact S |].
  split; [now rewrite E |]. split; [now rewrite E |]. split; [now rewrite E |].
  destruct (frames_position st' t0 [] T S Z) as (_ & C & _).
  - now rewrite E.
  - repeat constructor. now rewrite E.
  - simpl app in C. rewrite C, E. reflexivity.
Qed.

Lemma X11_restart_while_playing_keeps_audio_witness :
  let st := togglePlay (mount PRO_SWING_DATA AudioService.new) in
  isPlaying st = true /\ frameRequested st = true /\ 1000 <> 0 /\
  0 < durationRef st /\ (1500 - 1000) / 1000 * speedRef st < durationRef st /\
  audio (restartPlayback st) = audio st.
Proof.
  intros st.
  destruct pro_play as ((P & F & _) & _ & Sp & Du & _).
  assert (Z : 1000 <> 0) by lra.
  assert (D : 0 < durationRef st) by (unfold st; rewrite Du; lra).
  assert (L : (1500 - 1000) / 1000 * speedRef st < durationRef st)
    by (unfold st; rewrite Sp, Du; lra).
  split; [exact P |]. split; [exact F |]. split; [exact Z |].
  split; [exact D |]. split; [exact L |].
  exact (proj1 (proj2 (proj2
           (X11_restart_while_playing_keeps_audio st 1000 1500 P F Z D L)))).
Defined.

(** X12. From a pause, play commits the recording from the position shown,
    while restart commits it from position 0; either way the clock of the
    new run starts without a reference time. *)
Theorem X12_play_and_restart_from_pause (st : Studio.t) :
  isPlaying st = false -> scheduledRef st = false ->
  let sounds := map toScheduledSound (rhythmTrack (data st)) in
  audio (togglePlay st) = AudioService.scheduleSounds sounds (currentTime st) (audio st) /\
  currentTime (togglePlay st) = currentTime st /\
  audio (restartPlayback st) = AudioService.scheduleSounds sounds 0 (audio st) /\
  currentTime (restartPlayback st) = 0 /\
  started (togglePlay st) /\ started (restartPlayback st).
Proof.
  intros P S sounds.
  destruct (togglePlay_paused st P S) as (St & C & _ & _ & _ & _ & A).
  split; [exact A |]. split; [exact C |].
  revert P S. subst sounds.
  destruct st as [d p c s v models ci loading fr start sr dr sc ss au].
  simpl. intros -> ->.
  unfold restartPlayback, setIsPlaying, started. simpl. auto 10.
Qed.

Lemma X12_play_and_restart_from_pause_witness :
  let played := frames (togglePlay (mount PRO_SWING_DATA AudioService.new)) [1000; 2000] in
  let st := togglePlay played in
  let sounds := map toScheduledSound (rhythmTrack (data st)) in
  isPlaying st = false /\ scheduledRef st = false /\ currentTime st = 1 /\
  audio (togglePlay st) = AudioService.scheduleSounds sounds (currentTime st) (audio st) /\
  currentTime (togglePlay st) = currentTime st /\
  audio (restartPlayback st) = AudioService.scheduleSounds sounds 0 (audio st) /\
  currentTime (restartPlayback st) = 0.
Proof.
  intros played st sounds.
  destruct pro_play as (St & _ & Sp & Du & _).
  destruct (one_second_in _ St Sp Du) as (Ru & C1 & _).
  fold played in Ru, C1.
  destruct (togglePlay_playing played (proj1 Ru)) as (P & _ & _ & C & _ & _ & _ & S & _).
  fold st in P, C, S.
  destruct (X12_play_and_restart_from_pause st P S) as (A1 & C2 & A3 & C4 & _).
  split; [exact P |]. split; [exact S |]. split; [congruence |].
  split; [exact A1 |]. split; [exact C2 |]. split; [exact A3 | exact C4].
Defined.

End StudioBookings.

Section StudioBounds.

Import Studio.

#[local] Arguments AudioService.scheduleSounds : simpl never.
#[local] Arguments AudioService.setVolume : simpl never.
#[local] Arguments AudioService.elapse : simpl never.

Lemma withinRecording_setIsPlaying b st :
  withinRecording st -> withinRecording (setIsPlaying b st).
Proof.
  destruct st as [d p c s v models ci loading fr start sr dr sc ss au].
  unfold withinRecording, setIsPlaying. simpl. intros [[L U] Sp].
  destruct b, p, sc; simpl; repeat split; lra.
Qed.

Lemma withinRecording_frame st time :
  withinRecording st -> admissible st (Frame time) ->
  withinRecording (frame st time).
Proof.
  intros [[L U] Sp] A. unfold frame.
  destruct (frameRequested st) eqn:F; [| split; auto].
  assert (N : 0 <= newTime time st).
  { unfold newTime, startUnset. simpl in A.
    destruct (startTimeRef st) as [start |]; simpl.
    - destruct (falsy start).
      + replace ((time - time) / 1000 * speedRef st) with 0 by lra. lra.
      + apply Rmult_le_pos; lra.
    - replace ((time - time) / 1000 * speedRef st) with 0 by lra. lra. }
  revert L U Sp A F N.
  destruct st as [d p c s v models ci loading fr start sr dr sc ss au].
  simpl. intros L U Sp A -> N.
  unfold animate. simpl durationRef.
  destruct (Rge_dec _ _) as [E | E]; destruct (startUnset _);
    cbn [app fold_left perform setCurrentTime]; unfold withinRecording, setIsPlaying;
    simpl; destruct p; simpl; repeat split; lra.
Qed.

Lemma withinRecording_loadModelByIndex index fetched st :
  withinRecording st ->
  match fetched with Some d => 0 <= duration d | None => True end ->
  withinRecording (loadModelByIndex index fetched st).
Proof.
  destruct st as [d p c s v models ci loading fr start sr dr sc ss au].
  unfold withinRecording. simpl. intros [[L U] Sp] D.
  unfold loadModelByIndex. simpl.
  destruct (Nat.eqb (length models) 0), loading; simpl; auto;
    unfold setIsPlaying; simpl; destruct p, fetched; simpl; repeat split; lra.
Qed.

Lemma withinRecording_handle initial st e :
  withinRecording st -> admissible st e -> withinRecording (handle initial st e).
Proof.
  intros H A. destruct e; simpl.
  - now apply withinRecording_setIsPlaying.
  - unfold restartPlayback.
    assert (H0 : withinRecording (setCurrentTime 0 st)).
    { destruct H as [[L U] Sp]. unfold withinRecording. simpl. repeat split; lra. }
    apply (withinRecording_setIsPlaying true) in H0. exact H0.
  - exact H.
  - destruct H as [B _]. split; [exact B | exact A].
  - now apply withinRecording_frame.
  - unfold modelsListed.
    destruct (model_code initial) as [code |]; [| exact H].
    destruct (String.eqb code EmptyString); [exact H |].
    destruct (indexOf code models); exact H.
  - unfold loadNextModel. destruct (_ || _)%bool; [exact H |].
    apply withinRecording_loadModelByIndex; [exact H |].
    destruct fetched; exact A.
  - unfold loadPreviousModel. destruct (_ || _)%bool; [exact H |].
    apply withinRecording_loadModelByIndex; [exact H |].
    destruct fetched; exact A.
  - exact H.
Qed.

Lemma withinRecording_run initial events : forall st,
  withinRecording st -> admissibleFrom initial st events ->
  withinRecording (fold_left (handle initial) events st).
Proof.
  induction events as [| e rest IH]; intros st H A; simpl; [exact H |].
  destruct A as [A R]. apply IH; [| exact R].
  now apply withinRecording_handle.
Qed.

End StudioBounds.

Section StudioScenarios.

Import Studio.

Lemma X7_slider_sets_gain_witness :
  let st := togglePlay (mount PRO_SWING_DATA AudioService.new) in
  AudioService.masterGain (audio st) = Some 0.3 /\
  0 <= 80 <= 100 /\
  AudioService.masterGain (audio (handleVolumeChange 80 st)) = Some (80 / 100).
Proof.
  intros st.
  assert (G : AudioService.masterGain (audio st) = Some 0.3).
  { apply first_play_gain; [reflexivity | reflexivity | exact I | reflexivity]. }
  assert (H : 0 <= 80 <= 100) by lra.
  split; [exact G |]. split; [exact H |].
  exact (proj1 (proj2 (X7_slider_sets_gain st 80 0.3 G)) H).
Defined.

End StudioScenarios.

Section ModelNavigation.

Import Studio.

Lemma nextIndex_spec current len :
  (0 < len)%nat -> nextIndex current len = ((current + 1) mod len)%nat.
Proof.
  intros H. unfold nextIndex.
  rewrite Z.rem_mod_nonneg by lia.
  rewrite <- (Nat2Z.id ((current + 1) mod len)).
  f_equal. rewrite Nat2Z.inj_mod. f_equal. lia.
Qed.

Lemma prevIndex_spec current len :
  (0 < len)%nat -> prevIndex current len = ((current + len - 1) mod len)%nat.
Proof.
  intros H. unfold prevIndex.
  rewrite Z.rem_mod_nonneg by lia.
  rewrite <- (Nat2Z.id ((current + len - 1) mod len)).
  f_equal. rewrite Nat2Z.inj_mod. f_equal. lia.
Qed.

Lemma nextIndex_lt current len : (0 < len)%nat -> (nextIndex current len < len)%nat.
Proof. intros H. rewrite nextIndex_spec by exact H. apply Nat.mod_upper_bound. lia. Qed.

Lemma prevIndex_lt current len : (0 < len)%nat -> (prevIndex current len < len)%nat.
Proof. intros H. rewrite prevIndex_spec by exact H. apply Nat.mod_upper_bound. lia. Qed.

Lemma prev_next current len :
  (current < len)%nat -> prevIndex (nextIndex current len) len = current.
Proof.
  intros H. rewrite prevIndex_spec, nextIndex_spec by lia.
  destruct (Nat.eq_dec (current + 1) len) as [E | E].
  - rewrite E, Nat.Div0.mod_same. simpl.
    rewrite Nat.mod_small by lia. lia.
  - rewrite (Nat.mod_small (current + 1)) by lia.
    replace (current + 1 + len - 1)%nat with (current + 1 * len)%nat by lia.
    rewrite Nat.Div0.mod_add. apply Nat.mod_small. lia.
Qed.

Lemma next_prev current len :
  (current < len)%nat -> nextIndex (prevIndex current len) len = current.
Proof.
  intros H. rewrite prevIndex_spec, nextIndex_spec by lia.
  destruct (Nat.eq_dec current 0) as [E | E].
  - subst current. rewrite (Nat.mod_small (0 + len - 1)) by lia.
    replace (0 + len - 1 + 1)%nat with len by lia. apply Nat.Div0.mod_same.
  - replace (current + len - 1)%nat with (current - 1 + 1 * len)%nat by lia.
    rewrite Nat.Div0.mod_add, (Nat.mod_small (current - 1)) by lia.
    replace (current - 1 + 1)%nat with current by lia.
    apply Nat.mod_small. lia.
Qed.

Lemma loadModelByIndex_index st index modelData :
  availableModels st <> [] -> isLoadingModel st = false ->
  let st' := loadModelByIndex index (Some modelData) st in
  currentModelIndex st' = index /\ availableModels st' = availableModels st /\
  isLoadingModel st' = false.
Proof.
  intros M L.
  destruct st as [d p c s v models ci loading fr start sr dr sc ss au].
  simpl in M, L. subst loading.
  destruct models as [| m ms]; [contradiction |].
  destruct p; repeat split.
Qed.

(** X13. Stepping through the models wraps around and stays inside the
    list: with a non-empty list and no load pending, next and previous
    always select an index of the list; from an index of the list, next
    followed by previous (and previous followed by next) comes back to it,
    next from the last model goes to the first and previous from the first
    goes to the last. *)
Theorem X13_model_navigation_wraps
    (st : Studio.t) (d1 d2 : SwingData) :
  availableModels st <> [] -> isLoadingModel st = false ->
  (currentModelIndex st < length (availableModels st))%nat ->
  let len := length (availableModels st) in
  let next := loadNextModel (Some d1) st in
  let prev := loadPreviousModel (Some d1) st in
  (currentModelIndex next < len)%nat /\
  (currentModelIndex prev < len)%nat /\
  currentModelIndex (loadPreviousModel (Some d2) next) = currentModelIndex st /\
  currentModelIndex (loadNextModel (Some d2) prev) = currentModelIndex st /\
  ((currentModelIndex st + 1)%nat = len -> currentModelIndex next = 0%nat) /\
  (currentModelIndex st = 0%nat -> (currentModelIndex prev + 1)%nat = len) /\
  data next = d1 /\ data prev = d1.
Proof.
  intros M L B len next prev.
  assert (P : (0 < len)%nat).
  { unfold len. destruct (availableModels st); [contradiction | simpl; lia]. }
  assert (G : (Nat.eqb (length (availableModels st)) 0 || isLoadingModel st)%bool = false).
  { rewrite L. fold len. destruct len; [lia | reflexivity]. }
  assert (En : next = loadModelByIndex (nextIndex (currentModelIndex st) len) (Some d1) st).
  { unfold next, loadNextModel. rewrite G. reflexivity. }
  assert (Ep : prev = loadModelByIndex (prevIndex (currentModelIndex st) len) (Some d1) st).
  { unfold prev, loadPreviousModel. rewrite G. reflexivity. }
  destruct (loadModelByIndex_index st (nextIndex (currentModelIndex st) len) d1 M L)
    as (In & Mn & Ln).
  destruct (loadModelByIndex_index st (prevIndex (currentModelIndex st) len) d1 M L)
    as (Ip & Mp & Lp).
  destruct (loadModelByIndex_loaded st (nextIndex (currentModelIndex st) len) d1 M L)
    as (Dn & _).
  destruct (loadModelByIndex_loaded st (prevIndex (currentModelIndex st) len) d1 M L)
    as (Dp & _).
  rewrite <- En in In, Mn, Ln, Dn. rewrite <- Ep in Ip, Mp, Lp, Dp.
  assert (Mn' : availableModels next <> []) by now rewrite Mn.
  assert (Mp' : availableModels prev <> []) by now rewrite Mp.
  assert (Gn : (Nat.eqb (length (availableModels next)) 0 || isLoadingModel next)%bool = false).
  { rewrite Mn, Ln. fold len. destruct len; [lia | reflexivity]. }
  assert (Gp : (Nat.eqb (length (availableModels prev)) 0 || isLoadingModel prev)%bool = false).
  { rewrite Mp, Lp. fold len. destruct len; [lia | reflexivity]. }
  split; [rewrite In; now apply nextIndex_lt |].
  split; [rewrite Ip; now apply prevIndex_lt |].
  split.
  { unfold loadPreviousModel. rewrite Gn.
    destruct (loadModelByIndex_index next
                (prevIndex (currentModelIndex next) (length (availableModels next)))
                d2 Mn' Ln) as (I2 & _).
    rewrite I2, In, Mn. now apply prev_next. }
  split.
  { unfold loadNextModel. rewrite Gp.
    destruct (loadModelByIndex_index prev
                (nextIndex (currentModelIndex prev) (length (availableModels prev)))
                d2 Mp' Lp) as (I2 & _).
    rewrite I2, Ip, Mp. now apply next_prev. }
  split.
  { intros E. rewrite In, nextIndex_spec, E by exact P. apply Nat.Div0.mod_same. }
  split.
  { intros E. rewrite Ip, prevIndex_spec, E by exact P. simpl.
    rewrite Nat.mod_small by lia. lia. }
  split; assumption.
Qed.

Lemma X13_model_navigation_wraps_witness :
  let st :=
    with_availableModels ["T01"; "T02"; "T03"]
      (mount PRO_SWING_DATA AudioService.new) in
  availableModels st <> [] /\ isLoadingModel st = false /\
  (currentModelIndex st < length (availableModels st))%nat /\
  currentModelIndex
    (loadPreviousModel (Some PRO_SWING_DATA) (loadNextModel (Some PRO_SWING_DATA) st))
    = currentModelIndex st.
Proof.
  intros st.
  assert (M : availableModels st <> []) by discriminate.
  assert (L : isLoadingModel st = false) by reflexivity.
  assert (B : (currentModelIndex st < length (availableModels st))%nat)
    by (simpl; lia).
  split; [exact M |]. split; [exact L |]. split; [exact B |].
  exact (proj1 (proj2 (proj2
           (X13_model_navigation_wraps st PRO_SWING_DATA PRO_SWING_DATA M L B)))).
Defined.

End ModelNavigation.

Section SessionInvariant.

Import Studio.

#[local] Arguments AudioService.scheduleSounds : simpl never.
#[local] Arguments AudioService.setVolume : simpl never.
#[local] Arguments AudioService.elapse : simpl never.

Lemma agreeing_setIsPlaying b st : agreeing st -> agreeing (setIsPlaying b st).
Proof.
  destruct st as [d p c s v models ci loading fr start sr dr sc ss au].
  unfold agreeing. simpl. intros (-> & -> & St & -> & -> & Sp & W & G).
  unfold setIsPlaying. simpl.
  destruct b, p; simpl; auto 10.
  destruct (audio_scheduleSounds_ok (map toScheduledSound (rhythmTrack d)) c au s W G Sp)
    as (Sp' & W' & G').
  auto 10.
Qed.

Lemma agreeing_restartPlayback st : agreeing st -> agreeing (restartPlayback st).
Proof.
  intros H. unfold restartPlayback.
  assert (H0 : agreeing (setCurrentTime 0 st)) by exact H.
  pose proof (agreeing_setIsPlaying true (setCurrentTime 0 st) H0) as H'.
  revert H'. generalize (setIsPlaying true (setCurrentTime 0 st)) as st'.
  intros st'. unfold agreeing. simpl. intros (A & B & C & D).
  repeat split; try apply D; auto.
Qed.

Lemma agreeing_frame st time : agreeing st -> agreeing (frame st time).
Proof.
  intros H. unfold frame.
  destruct (frameRequested st) eqn:F; [| exact H].
  revert H F.
  destruct st as [d p c s v models ci loading fr start sr dr sc ss au].
  unfold agreeing. simpl. intros (-> & <- & St & -> & -> & Sp & W & G) ->.
  unfold animate.
  destruct (Rge_dec _ _) as [E | E]; destruct (startUnset _);
    cbn [app fold_left perform setCurrentTime]; unfold setIsPlaying; simpl; auto 10.
Qed.

Lemma agreeing_setData d' st : agreeing st -> agreeing (setData d' st).
Proof.
  destruct st as [d p c s v models ci loading fr start sr dr sc ss au].
  unfold agreeing. simpl. intros (-> & -> & St & -> & -> & Sp & W & G).
  unfold setData, audioEffect, durationEffect. simpl.
  destruct p; simpl; auto 10.
Qed.

Lemma agreeing_loadModelBegin st : agreeing st -> agreeing (loadModelBegin st).
Proof.
  intros H. unfold loadModelBegin.
  assert (H0 : agreeing (with_isLoadingModel true st)) by exact H.
  exact (agreeing_setIsPlaying false _ H0).
Qed.

Lemma agreeing_loadModelEnd index fetched st :
  agreeing st -> agreeing (loadModelEnd index fetched st).
Proof.
  intros H. unfold loadModelEnd. destruct fetched as [d |]; [| exact H].
  exact (agreeing_setData d st H).
Qed.

Lemma loadModelByIndex_halves index fetched st :
  loadModelByIndex index fetched st =
  if (Nat.eqb (length (availableModels st)) 0 || isLoadingModel st)%bool then st
  else loadModelEnd index fetched (loadModelBegin st).
Proof. reflexivity. Qed.

Lemma agreeing_loadModelByIndex index fetched st :
  agreeing st -> agreeing (loadModelByIndex index fetched st).
Proof.
  intros H. rewrite loadModelByIndex_halves.
  destruct (_ || _)%bool; [exact H |].
  now apply agreeing_loadModelEnd, agreeing_loadModelBegin.
Qed.

Lemma agreeing_handle initial st e : agreeing st -> agreeing (handle initial st e).
Proof.
  intros H. destruct e; simpl.
  - now apply agreeing_setIsPlaying.
  - now apply agreeing_restartPlayback.
  - unfold agreeing, handleVolumeChange in *. simpl.
    destruct H as (A & B & C & D & E & Sp & W & G).
    destruct (audio_setVolume_ok (newVolume / 100) (audio st) (speed st) W Sp)
      as (Sp' & W' & G').
    auto 10.
  - unfold agreeing, handleSpeedChange in *. simpl.
    destruct H as (A & B & C & D & E & Sp & W & G). auto 10.
  - now apply agreeing_frame.
  - unfold modelsListed.
    destruct (model_code initial) as [code |]; [| exact H].
    destruct (String.eqb code EmptyString); [exact H |].
    destruct (indexOf code models); exact H.
  - unfold loadNextModel. destruct (_ || _)%bool; [exact H |].
    now apply agreeing_loadModelByIndex.
  - unfold loadPreviousModel. destruct (_ || _)%bool; [exact H |].
    now apply agreeing_loadModelByIndex.
  - unfold agreeing in *. simpl.
    destruct H as (A & B & C & D & E & Sp & W & G).
    destruct (audio_elapse_ok d (audio st) (speed st) W G Sp) as (Sp' & W' & G').
    auto 10.
Qed.

Lemma loading_setIsPlaying b st :
  isLoadingModel (setIsPlaying b st) = isLoadingModel st.
Proof.
  destruct st as [d p c s v models ci loading fr start sr dr sc ss au].
  unfold setIsPlaying. simpl. destruct b, p, sc; reflexivity.
Qed.

Lemma loading_frame st time : isLoadingModel (frame st time) = isLoadingModel st.
Proof.
  unfold frame. destruct (frameRequested st) eqn:F; [| reflexivity].
  revert F. destruct st as [d p c s v models ci loading fr start sr dr sc ss au].
  simpl. intros ->. unfold animate.
  destruct (Rge_dec _ _) as [E | E]; destruct (startUnset _);
    cbn [app fold_left perform setCurrentTime]; unfold setIsPlaying; simpl;
    destruct p, sc; reflexivity.
Qed.

Lemma loading_loadModelByIndex index fetched st :
  isLoadingModel st = false ->
  isLoadingModel (loadModelByIndex index fetched st) = false.
Proof.
  intros L. rewrite loadModelByIndex_halves.
  destruct (_ || _)%bool; [exact L |]. reflexivity.
Qed.

Lemma loading_handle initial st e :
  isLoadingModel (handle initial st e) = isLoadingModel st.
Proof.
  destruct e; simpl.
  - apply loading_setIsPlaying.
  - unfold restartPlayback. simpl. now rewrite loading_setIsPlaying.
  - reflexivity.
  - reflexivity.
  - apply loading_frame.
  - unfold modelsListed.
    destruct (model_code initial) as [code |]; [| reflexivity].
    destruct (String.eqb code EmptyString); [reflexivity |].
    destruct (indexOf code models); reflexivity.
  - unfold loadNextModel. destruct (isLoadingModel st) eqn:L.
    + now rewrite orb_true_r.
    + destruct (_ || _)%bool; [exact L |]. now apply loading_loadModelByIndex.
  - unfold loadPreviousModel. destruct (isLoadingModel st) eqn:L.
    + now rewrite orb_true_r.
    + destruct (_ || _)%bool; [exact L |]. now apply loading_loadModelByIndex.
  - reflexivity.
Qed.

Lemma coherent_beginLoad index s : coherent s -> coherent (beginLoad index s).
Proof.
  intros [A F]. unfold beginLoad. destruct (_ || _)%bool; [now split |].
  split; [now apply agreeing_loadModelBegin |].
  unfold flagged, loadModelBegin. simpl. now rewrite loading_setIsPlaying.
Qed.

Lemma coherent_happen initial s h : coherent s -> coherent (happen initial s h).
Proof.
  intros [A F]. destruct h; simpl.
  - split; [now apply agreeing_handle |].
    unfold flagged. simpl. rewrite loading_handle. exact F.
  - now apply coherent_beginLoad.
  - now apply coherent_beginLoad.
  - destruct (pending s) as [index |] eqn:P; [| now split].
    split; [now apply agreeing_loadModelEnd | reflexivity].
Qed.

Lemma coherent_opened initial : coherent (opened initial).
Proof. split; [| reflexivity]. unfold agreeing. simpl. repeat split; auto. Qed.

Lemma session_snoc initial history h :
  session initial (history ++ [h]) = happen initial (session initial history) h.
Proof. unfold session. now rewrite fold_left_app. Qed.

Lemma coherent_session initial history : coherent (session initial history).
Proof.
  induction history as [| h history IH] using rev_ind.
  - exact (coherent_opened initial).
  - rewrite session_snoc. now apply coherent_happen.
Qed.

(** X8. In every studio the user, the browser and the backend can bring
    about from a fresh mount, also while the request of a load is pending,
    the guards agree with the play state: sounds are marked scheduled
    exactly while playing, a frame is queued exactly while playing, a
    stopped clock has no reference time, the clock and the audio service
    hold the speed shown, the clock holds the duration of the recording
    shown, the loading flag is set exactly while a request is pending, and
    the master gain, if it exists, is between 0 and 1. *)
Theorem X8_studio_guards_agree (initial : SwingData) (history : list Happening) :
  let s := session initial history in
  let st := studio s in
  scheduledRef st = isPlaying st /\
  frameRequested st = isPlaying st /\
  (isPlaying st = true \/ startTimeRef st = None) /\
  speedRef st = speed st /\
  durationRef st = duration (data st) /\
  AudioService.currentSpeed (audio st) = speed st /\
  (isLoadingModel st = true <-> is_Some (pending s)) /\
  AudioService.wired (audio st) /\
  AudioService.gainInRange (audio st).
Proof.
  intros s st.
  destruct (coherent_session initial history) as [(A & B & C & D & E & Sp & W & G) F].
  fold s in A, B, C, D, E, Sp, W, G, F. fold st in A, B, C, D, E, Sp, W, G.
  repeat (split; [assumption |]).
  split; [| split; assumption].
  unfold flagged in F. fold st in F. rewrite F.
  destruct (pending s); split; intros H; try discriminate; try reflexivity.
  - eexists. reflexivity.
  - destruct H as [x H]. discriminate.
Qed.

End SessionInvariant.

Section SessionBounds.

Import Studio.

#[local] Arguments AudioService.scheduleSounds : simpl never.
#[local] Arguments AudioService.setVolume : simpl never.
#[local] Arguments AudioService.elapse : simpl never.

Lemma withinRecording_loadModelBegin st :
  withinRecording st -> withinRecording (loadModelBegin st).
Proof.
  intros H. unfold loadModelBegin.
  assert (H0 : withinRecording (with_isLoadingModel true st)) by exact H.
  apply (withinRecording_setIsPlaying false) in H0.
  destruct H0 as [[L U] Sp]. unfold withinRecording. simpl.
  repeat split; lra.
Qed.

Lemma withinRecording_loadModelEnd index fetched st :
  withinRecording st ->
  match fetched with
  | Some d => 0 <= duration d /\ currentTime st <= duration d
  | None => True
  end ->
  withinRecording (loadModelEnd index fetched st).
Proof.
  destruct st as [d p c s v models ci loading fr start sr dr sc ss au].
  unfold withinRecording. simpl. intros [[L U] Sp] D.
  unfold loadModelEnd. destruct fetched as [d' |]; simpl; [| repeat split; lra].
  unfold setData, audioEffect, durationEffect. simpl.
  destruct p, sc; simpl; repeat split; lra.
Qed.

Lemma withinRecording_happen initial s h :
  withinRecording (studio s) -> expected s h ->
  withinRecording (studio (happen initial s h)).
Proof.
  intros H E. destruct h; simpl.
  - now apply withinRecording_handle.
  - unfold beginLoad. destruct (_ || _)%bool; [exact H |].
    now apply withinRecording_loadModelBegin.
  - unfold beginLoad. destruct (_ || _)%bool; [exact H |].
    now apply withinRecording_loadModelBegin.
  - destruct (pending s); [| exact H]. simpl.
    apply withinRecording_loadModelEnd; [exact H |].
    destruct fetched; exact E.
Qed.

Lemma withinRecording_session initial history : forall s,
  withinRecording (studio s) -> expectedFrom initial s history ->
  withinRecording (studio (fold_left (happen initial) history s)).
Proof.
  induction history as [| h rest IH]; intros s H E; simpl; [exact H |].
  destruct E as [E R]. apply IH; [| exact R].
  now apply withinRecording_happen.
Qed.

(** X10. As long as frame times do not run backwards, speeds and
    durations are not negative, and a recording that arrives is not shorter
    than the position reached while its request was pending, the position
    of the studio stays between 0 and the duration of the recording shown,
    through any history, loads in two halves included; the playhead of the
    visualizer is then between 0% and 100%. *)
Theorem X10_position_stays_within_recording
    (initial : SwingData) (history : list Happening) :
  0 <= duration initial ->
  expectedFrom initial (opened initial) history ->
  let st := studio (session initial history) in
  0 <= currentTime st <= duration (data st) /\
  (0 < duration (data st) ->
   0 <= progressPercent (currentTime st) (duration (data st)) <= 100).
Proof.
  intros D E st.
  assert (H0 : withinRecording (studio (opened initial))).
  { unfold withinRecording. simpl. repeat split; lra. }
  pose proof (withinRecording_session initial history _ H0 E) as [[L U] _].
  destruct (coherent_session initial history) as [(_ & _ & _ & _ & Du & _) _].
  fold (session initial history) in L, U. fold st in L, U, Du.
  rewrite Du in U. split; [split; assumption |].
  intros P. unfold progressPercent. split.
  - apply Rmult_le_pos; [| lra]. apply Rmult_le_pos; [exact L |].
    left. now apply Rinv_0_lt_compat.
  - apply Rmult_le_reg_r with (r := duration (data st)); [exact P |].
    field_simplify; lra.
Qed.

Lemma X10_position_stays_within_recording_witness :
  let history :=
    [Input (ModelsListed ["T01"; "T02"]); LoadNextBegins;
     LoadSettles (Some PRO_SWING_DATA); Input TogglePlay; Input (Frame 1000)] in
  0 <= duration PRO_SWING_DATA /\
  expectedFrom PRO_SWING_DATA (opened PRO_SWING_DATA) history /\
  0 <= currentTime (studio (session PRO_SWING_DATA history))
    <= duration (data (studio (session PRO_SWING_DATA history))).
Proof.
  intros history.
  assert (D : 0 <= duration PRO_SWING_DATA) by (simpl; lra).
  assert (E : expectedFrom PRO_SWING_DATA (opened PRO_SWING_DATA) history).
  { split; [exact I |]. split; [exact I |].
    split; [simpl; lra |]. split; [exact I |]. split; exact I. }
  split; [exact D |]. split; [exact E |].
  exact (proj1 (X10_position_stays_within_recording PRO_SWING_DATA history D E)).
Defined.

(** X14. A load stops playback when it begins, not when it fails: the
    first half rewinds to 0, pauses and sets the loading flag, keeping the
    recording, the index and the voices booked; the failure of the request
    then changes nothing but the flag, whatever the studio has done
    meanwhile, so a studio set playing while the request was pending is
    still playing after the failure. When nothing happens in between, the
    failed load leaves the studio as its first half did, the flag
    cleared. *)
Theorem X14_failed_load_changes_only_the_flag (st : Studio.t) (index : nat) :
  availableModels st <> [] -> isLoadingModel st = false ->
  let begun := loadModelBegin st in
  isLoadingModel begun = true /\
  isPlaying begun = false /\
  currentTime begun = 0 /\
  data begun = data st /\
  currentModelIndex begun = currentModelIndex st /\
  AudioService.booked (audio begun) = AudioService.booked (audio st) /\
  (forall later, loadModelEnd index None later = with_isLoadingModel false later) /\
  loadModelByIndex index None st = with_isLoadingModel false begun /\
  isPlaying (loadModelEnd index None (togglePlay begun)) = true /\
  isLoadingModel (loadModelEnd index None (togglePlay begun)) = false.
Proof.
  intros M L begun.
  assert (G : (Nat.eqb (length (availableModels st)) 0 || isLoadingModel st)%bool = false).
  { rewrite L. destruct (availableModels st); [contradiction | reflexivity]. }
  assert (B : isLoadingModel begun = true /\ isPlaying begun = false /\
              currentTime begun = 0 /\ data begun = data st /\
              currentModelIndex begun = currentModelIndex st /\
              AudioService.booked (audio begun) = AudioService.booked (audio st)).
  { subst begun. clear. destruct st as [d p c s v models ci loading fr start sr dr sc ss au].
    unfold loadModelBegin, setIsPlaying. simpl. destruct p; simpl; repeat split. }
  destruct B as (B1 & B2 & B3 & B4 & B5 & B6).
  repeat (split; [assumption |]).
  split; [reflexivity |].
  split; [rewrite loadModelByIndex_halves, G; reflexivity |].
  unfold loadModelEnd. simpl. unfold togglePlay. rewrite B2.
  generalize begun. clear. intros st.
  destruct st as [d p c s v models ci loading fr start sr dr sc ss au].
  unfold setIsPlaying. simpl. destruct p, sc; split; reflexivity.
Qed.

Lemma X14_failed_load_changes_only_the_flag_witness :
  let st :=
    with_availableModels ["T01"] (mount PRO_SWING_DATA AudioService.new) in
  availableModels st <> [] /\ isLoadingModel st = false /\
  isPlaying (loadModelEnd 0 None (togglePlay (loadModelBegin st))) = true /\
  loadModelByIndex 0 None st = with_isLoadingModel false (loadModelBegin st).
Proof.
  intros st.
  assert (M : availableModels st <> []) by discriminate.
  assert (L : isLoadingModel st = false) by reflexivity.
  destruct (X14_failed_load_changes_only_the_flag st 0 M L)
    as (_ & _ & _ & _ & _ & _ & _ & A & P & _).
  split; [exact M |]. split; [exact L |]. split; [exact P | exact A].
Defined.

(** X28. A recording that arrives while the studio is playing is shown
    without being heard: the new recording and its duration are installed
    and the position keeps running, but the audio service is left as it
    is, so the sounds booked are still those of the recording played
    before and none of the new one is scheduled; and when the new
    recording is shorter than the position reached, the position shown is
    past its end. *)
Theorem X28_load_settling_while_playing
    (st : Studio.t) (index : nat) (d : SwingData) :
  isPlaying st = true -> scheduledRef st = true ->
  let st' := loadModelEnd index (Some d) st in
  data st' = d /\
  durationRef st' = duration d /\
  currentModelIndex st' = index /\
  isPlaying st' = true /\
  currentTime st' = currentTime st /\
  startTimeRef st' = startTimeRef st /\
  audio st' = audio st /\
  (duration d < currentTime st -> duration (data st') < currentTime st').
Proof.
  destruct st as [d0 p c s v models ci loading fr start sr dr sc ss au].
  simpl. intros -> ->. unfold loadModelEnd, setData, audioEffect, durationEffect.
  simpl. repeat split. intros H. exact H.
Qed.

Lemma play_during_load (begun : Studio.t) :
  agreeing begun -> isPlaying begun = false ->
  speedRef begun = 1 -> durationRef begun = 2.5 -> isLoadingModel begun = true ->
  let st := frames (togglePlay begun) [1000; 2000] in
  isPlaying st = true /\ scheduledRef st = true /\ isLoadingModel st = true /\
  currentTime st = 1.
Proof.
  intros A P Sp Du L st.
  assert (Sc : scheduledRef begun = false).
  { destruct A as (A & _). now rewrite A. }
  destruct (togglePlay_paused begun P Sc) as (St & _ & Sp' & Du' & _).
  destruct (one_second_in (togglePlay begun) St) as (Ru & C1 & _);
    [congruence | congruence |].
  fold st in Ru, C1.
  assert (A' : agreeing st).
  { unfold st, frames. simpl fold_left.
    apply agreeing_frame, agreeing_frame. unfold togglePlay.
    now apply agreeing_setIsPlaying. }
  split; [apply Ru |]. split.
  - destruct A' as (A' & _). rewrite A'. apply Ru.
  - split; [| exact C1].
    unfold st, frames. simpl fold_left.
    rewrite !loading_frame. unfold togglePlay. now rewrite loading_setIsPlaying.
Qed.

Lemma X28_load_settling_while_playing_witness :
  let short :=
    {| data_id := "short"; duration := 0.5; model_code := Some "T02";
       rhythmTrack := [] |} in
  let begun :=
    studio (session PRO_SWING_DATA
              [Input (ModelsListed ["T01"; "T02"]); LoadNextBegins]) in
  let st := frames (togglePlay begun) [1000; 2000] in
  isPlaying st = true /\ scheduledRef st = true /\ isLoadingModel st = true /\
  currentTime st = 1 /\
  duration (data (loadModelEnd 1 (Some short) st))
  < currentTime (loadModelEnd 1 (Some short) st) /\
  audio (loadModelEnd 1 (Some short) st) = audio st.
Proof.
  intros short begun st.
  assert (A : agreeing begun).
  { exact (proj1 (coherent_session PRO_SWING_DATA
                    [Input (ModelsListed ["T01"; "T02"]); LoadNextBegins])). }
  assert (P0 : isPlaying begun = false) by reflexivity.
  assert (Sp : speedRef begun = 1) by reflexivity.
  assert (Du : durationRef begun = 2.5) by reflexivity.
  assert (L0 : isLoadingModel begun = true) by reflexivity.
  destruct (play_during_load begun A P0 Sp Du L0) as (P & S & L & C1).
  fold st in P, S, L, C1.
  destruct (X28_load_settling_while_playing st 1 short P S)
    as (_ & _ & _ & _ & _ & _ & Au & Past).
  split; [exact P |]. split; [exact S |]. split; [exact L |]. split; [exact C1 |].
  split; [| exact Au].
  apply Past. rewrite C1. simpl. lra.
Defined.

End SessionBounds.

Section Display.

Import Studio.

Lemma impactVisible_node (st : Studio.t) :
  impactVisible st = true <->
  exists n, In n (rhythmTrack (data st)) /\
            Rabs (currentTime st - timestamp n) < 0.1.
Proof.
  unfold impactVisible. rewrite existsb_exists. split.
  - intros (n & I & H). exists n. split; [exact I |].
    destruct (Rlt_dec _ _); [assumption | discriminate].
  - intros (n & I & H). exists n. split; [exact I |].
    destruct (Rlt_dec _ _); [reflexivity | contradiction].
Qed.

(** X15. The impact frame around the video and the lit nodes of the lanes
    agree: whenever the frame is shown, some node of the rhythm track is
    within its (wider) active window, and it is lit exactly when the studio
    plays. *)
Theorem X15_impact_frame_has_an_active_node (st : Studio.t) :
  impactVisible st = true ->
  exists n, In n (rhythmTrack (data st)) /\
            isActive (currentTime st) n = true /\
            highlighted st n = isPlaying st.
Proof.
  intros H. apply impactVisible_node in H as (n & I & H).
  exists n. split; [exact I |].
  assert (A : isActive (currentTime st) n = true).
  { unfold isActive. destruct (Rlt_dec _ _) as [| N]; [reflexivity |].
    exfalso. apply N. lra. }
  split; [exact A |]. unfold highlighted. now rewrite A.
Qed.

Lemma X15_impact_frame_has_an_active_node_witness :
  let st := setCurrentTime 0.5 (mount PRO_SWING_DATA AudioService.new) in
  impactVisible st = true /\
  exists n, In n (rhythmTrack (data st)) /\
            isActive (currentTime st) n = true /\
            highlighted st n = isPlaying st.
Proof.
  intros st.
  assert (V : impactVisible st = true).
  { apply impactVisible_node.
    exists {| node_id := "p1"; timestamp := 0.5; intensity := Some 0.8;
              node_type := AudioService.KICK; label := "Leg Load" |}.
    split; [left; reflexivity |].
    simpl. replace (0.5 - 0.5) with 0 by lra. rewrite Rabs_R0. lra. }
  split; [exact V |].
  exact (X15_impact_frame_has_an_active_node st V).
Defined.

End Display.

Section FrameIndex.

Import Skeleton3DViewer.

Lemma scaled_nonneg (t d : R) (len : nat) :
  0 < d -> 0 <= t -> 0 <= t / d * IZR (Z.of_nat len).
Proof.
  intros D T. apply Rmult_le_pos.
  - apply Rmult_le_pos; [exact T |]. left. now apply Rinv_0_lt_compat.
  - apply IZR_le. lia.
Qed.

Lemma scaled_mono (t t' d : R) (len : nat) :
  0 < d -> t <= t' -> t / d * IZR (Z.of_nat len) <= t' / d * IZR (Z.of_nat len).
Proof.
  intros D T. apply Rmult_le_compat_r; [apply IZR_le; lia |].
  apply Rmult_le_compat_r; [| exact T]. left. now apply Rinv_0_lt_compat.
Qed.

Lemma frameIndex_range (t d : R) (len : nat) :
  0 < d -> 0 <= t -> (0 < len)%nat ->
  (0 <= frameIndex t d len < Z.of_nat len)%Z.
Proof.
  intros D T L. unfold frameIndex.
  pose proof (Zfloor_lub 0 _ (scaled_nonneg t d len D T)). lia.
Qed.

Lemma frameIndex_mono (t t' d : R) (len : nat) :
  0 < d -> t <= t' -> (frameIndex t d len <= frameIndex t' d len)%Z.
Proof.
  intros D T. unfold frameIndex.
  pose proof (Zfloor_le _ _ (scaled_mono t t' d len D T)). lia.
Qed.

Lemma frameIndex_end (d : R) (len : nat) :
  0 < d -> frameIndex d d len = (Z.of_nat len - 1)%Z.
Proof.
  intros D. unfold frameIndex.
  replace (d / d * IZR (Z.of_nat len)) with (IZR (Z.of_nat len)) by (field; lra).
  rewrite ZfloorZ. lia.
Qed.

Lemma frameIndex_start (d : R) (len : nat) :
  (0 < len)%nat -> frameIndex 0 d len = 0%Z.
Proof.
  intros L. unfold frameIndex.
  replace (0 / d * IZR (Z.of_nat len)) with (IZR 0) by (unfold Rdiv; ring).
  rewrite ZfloorZ. lia.
Qed.

(** X16. The frame the 3D viewer selects is a frame of the recording: for
    a position between 0 and a positive duration and a recording that is
    not empty, the index is between 0 and the last index; it does not
    move backwards when the position advances; it is the first frame at
    position 0 and the last frame at the duration. For an empty recording
    the frame is left as it is. *)
Theorem X16_viewer_frame_is_in_range (t d : R) (len : nat) (currentFrame : Z) :
  0 < d -> 0 <= t <= d ->
  let k := currentFrameEffect t d len currentFrame in
  (len = 0%nat -> k = currentFrame) /\
  ((0 < len)%nat ->
   (0 <= k < Z.of_nat len)%Z /\
   (forall t', t <= t' -> (k <= currentFrameEffect t' d len currentFrame)%Z) /\
   (t = 0 -> k = 0%Z) /\
   (t = d -> k = (Z.of_nat len - 1)%Z)).
Proof.
  intros D [T0 T1] k. subst k. unfold currentFrameEffect. split.
  - now intros ->.
  - intros L. destruct (Nat.ltb_spec 0 len) as [_ | N]; [| lia].
    split; [now apply frameIndex_range |].
    split; [intros t' T'; now apply frameIndex_mono |].
    split; [intros ->; now apply frameIndex_start |].
    intros ->. now apply frameIndex_end.
Qed.

Lemma X16_viewer_frame_is_in_range_witness :
  0 < 2.5 /\ 0 <= 1 <= 2.5 /\
  (0 <= currentFrameEffect 1 2.5 75 0 < 75)%Z.
Proof.
  assert (D : 0 < 2.5) by lra.
  assert (T : 0 <= 1 <= 2.5) by lra.
  split; [exact D |]. split; [exact T |].
  assert (L : (0 < 75)%nat) by lia.
  exact (proj1 (proj2 (X16_viewer_frame_is_in_range 1 2.5 75 0 D T) L)).
Defined.

End FrameIndex.

Section WristTrail.

Import Yoc44Service.

Lemma filter_le_seqZ (c : Z) (k : nat) (m : Z) :
  List.filter (fun i => (i <=? c)%Z) (seqZ m (Z.of_nat k)) =
  seqZ m (Z.min (Z.of_nat k) (c - m + 1)).
Proof.
  revert m. induction k as [| k IH]; intros m.
  - rewrite (seqZ_nil m (Z.min _ _)) by lia. reflexivity.
  - rewrite seqZ_cons by lia. simpl List.filter.
    replace (Z.pred (Z.of_nat (S k))) with (Z.of_nat k) by lia.
    rewrite IH. destruct (Z.leb_spec m c) as [L | L].
    + rewrite (seqZ_cons m (Z.min _ _)) by lia. f_equal. f_equal. lia.
    + rewrite (seqZ_nil m (Z.min _ _)) by lia.
      apply seqZ_nil. lia.
Qed.

Lemma trailIndices_window (len : nat) (impactFrame currentFrame : Z) :
  let first := Z.max 0 (impactFrame - 20) in
  let last := Z.min (Z.min (Z.of_nat len - 1) (impactFrame + 20)) currentFrame in
  trailIndices len impactFrame currentFrame = seqZ first (last - first + 1).
Proof.
  intros first last. unfold trailIndices. fold first.
  set (n := (Z.min (Z.of_nat len - 1) (impactFrame + 20) - first + 1)%Z).
  destruct (Z.le_gt_cases 0 n) as [P | N].
  - rewrite <- (Z2Nat.id n P), filter_le_seqZ. f_equal. subst last n. lia.
  - rewrite (seqZ_nil first n) by lia. simpl. symmetry. apply seqZ_nil.
    subst last n. lia.
Qed.

Lemma wrist_defined (frames : list Frame) (i : Z) :
  Forall (fun frame => (4 < length frame)%nat) frames ->
  (0 <= i < Z.of_nat (length frames))%Z ->
  is_Some (wrist frames i).
Proof.
  intros W [Lo Hi]. unfold wrist.
  destruct (Z.ltb_spec i 0) as [| _]; [lia |].
  destruct (lookup_lt_is_Some_2 frames (Z.to_nat i)) as [frame E]; [lia |].
  rewrite E. apply lookup_lt_is_Some_2.
  rewrite Forall_forall in W. apply W. eapply list_elem_of_lookup_2. exact E.
Qed.

Lemma seqZ_split (m a b : Z) :
  (0 <= a)%Z -> (0 <= b)%Z -> seqZ m (a + b) = seqZ m a ++ seqZ (m + a) b.
Proof.
  intros A B. apply list_eq. intros i.
  destruct (Z.lt_ge_cases (Z.of_nat i) a) as [L | G].
  - rewrite lookup_app_l by (rewrite length_seqZ; lia).
    rewrite !lookup_seqZ_lt by lia. reflexivity.
  - rewrite lookup_app_r by (rewrite length_seqZ; lia).
    rewrite length_seqZ.
    destruct (Z.lt_ge_cases (Z.of_nat i) (a + b)) as [L' | G'].
    + rewrite !lookup_seqZ_lt by lia. f_equal. lia.
    + rewrite !lookup_seqZ_ge by lia. reflexivity.
Qed.

Lemma trailIndices_grow (len : nat) (impactFrame c c' : Z) :
  (c <= c')%Z ->
  exists more, trailIndices len impactFrame c' =
               trailIndices len impactFrame c ++ more.
Proof.
  intros C. rewrite !trailIndices_window.
  set (first := Z.max 0 (impactFrame - 20)).
  set (hi := Z.min (Z.of_nat len - 1) (impactFrame + 20)).
  set (a := (Z.min hi c - first + 1)%Z).
  set (a' := (Z.min hi c' - first + 1)%Z).
  destruct (Z.le_gt_cases a 0) as [N | P].
  - rewrite (seqZ_nil first a) by exact N. eexists. reflexivity.
  - exists (seqZ (first + a) (a' - a)).
    rewrite <- seqZ_split by (subst a a'; lia). f_equal. lia.
Qed.

Lemma mapM_app_Some {A B} (f : A -> option B) (l1 l2 : list A) (k : list B) :
  mapM f (l1 ++ l2) = Some k ->
  exists k1 k2, mapM f l1 = Some k1 /\ mapM f l2 = Some k2 /\ k = k1 ++ k2.
Proof.
  rewrite mapM_Some. intros H.
  apply Forall2_app_inv_l in H as (k1 & k2 & H1 & H2 & ->).
  exists k1, k2. rewrite !mapM_Some. auto.
Qed.

Lemma trail_indices_in_range (len : nat) (impactFrame currentFrame i : Z) :
  In i (trailIndices len impactFrame currentFrame) ->
  (0 <= i < Z.of_nat len)%Z.
Proof.
  rewrite trailIndices_window. intros I.
  apply list_elem_of_In, list_elem_of_lookup in I as [j I].
  apply lookup_seqZ in I as [-> I]. lia.
Qed.

Lemma wrist_trail_some (frames : list Frame) (impactFrame currentFrame : Z) :
  Forall (fun frame => (4 < length frame)%nat) frames ->
  is_Some (calculateWristTrail frames impactFrame currentFrame).
Proof.
  intros W. unfold calculateWristTrail. apply mapM_is_Some_2.
  apply Forall_forall. intros i I. apply list_elem_of_In in I.
  apply wrist_defined; [exact W |].
  exact (trail_indices_in_range _ _ _ _ I).
Qed.

(** X17. The wrist trail is a window of the recording around the impact:
    on frames that all have a right wrist the trail is defined; its points
    are the wrists of the frames from 20 before the impact (or the first
    frame) to 20 after it (or the last frame), in order, as far as the
    current frame; so it never has more than 41 points and is empty
    before the window opens. *)
Theorem X17_wrist_trail_window
    (frames : list Frame) (impactFrame currentFrame : Z) :
  Forall (fun frame => (4 < length frame)%nat) frames ->
  let first := Z.max 0 (impactFrame - 20) in
  let last := Z.min (Z.min (Z.of_nat (length frames) - 1) (impactFrame + 20))
                    currentFrame in
  exists points,
    calculateWristTrail frames impactFrame currentFrame = Some points /\
    Z.of_nat (length points) = Z.max 0 (last - first + 1) /\
    (length points <= 41)%nat /\
    (forall j : nat, (j < length points)%nat ->
       wrist frames (first + Z.of_nat j) = points !! j) /\
    (currentFrame < first -> points = [])%Z.
Proof.
  intros W first last. unfold calculateWristTrail.
  pose proof (trailIndices_window (length frames) impactFrame currentFrame) as E.
  simpl in E. fold first last in E. rewrite E.
  destruct (mapM_is_Some_2 (wrist frames) (seqZ first (last - first + 1)))
    as [points P].
  { apply Forall_forall. intros i I.
    apply list_elem_of_lookup in I as [j I]. apply lookup_seqZ in I as [-> I].
    apply wrist_defined; [exact W |]. subst first last. simpl. lia. }
  exists points. split; [exact P |].
  pose proof (length_mapM _ _ _ P) as Len. rewrite length_seqZ in Len.
  split; [lia |]. split; [subst first last; lia |]. split.
  - intros j J. apply mapM_Some in P.
    destruct (lookup_lt_is_Some_2 points j J) as [p Ep].
    destruct (Forall2_lookup_r _ _ _ _ _ P Ep) as (i & Ei & Wi).
    apply lookup_seqZ in Ei as [-> _]. now rewrite Ep.
  - intros C. destruct points as [| p ps]; [reflexivity |].
    simpl in Len. subst last. lia.
Qed.

Lemma X17_wrist_trail_window_witness :
  let frame : Frame := replicate 44 (0, 0, 0) in
  let frames := replicate 100 frame in
  Forall (fun frame => (4 < length frame)%nat) frames /\
  exists points,
    calculateWristTrail frames 40 30 = Some points /\ length points = 11%nat.
Proof.
  intros frame frames.
  assert (W : Forall (fun frame => (4 < length frame)%nat) frames).
  { apply Forall_replicate. simpl. lia. }
  split; [exact W |].
  destruct (X17_wrist_trail_window frames 40 30 W) as (points & P & L & _).
  exists points. split; [exact P |].
  unfold frames in L. rewrite length_replicate in L. lia.
Defined.

(** X18. The trail only grows while the swing plays forward: the trail at
    a later frame starts with the trail at an earlier frame; once a curve
    is drawn (two points at least) it stays drawn, and from 20 frames
    after the impact on the trail no longer changes. *)
Theorem X18_wrist_trail_grows
    (frames : list Frame) (impactFrame c c' : Z) (points' : list Joint) :
  (c <= c')%Z ->
  calculateWristTrail frames impactFrame c' = Some points' ->
  exists points more,
    calculateWristTrail frames impactFrame c = Some points /\
    points' = points ++ more /\
    (is_Some (createTrailCurve points) -> is_Some (createTrailCurve points')) /\
    ((impactFrame + 20 <= c)%Z -> more = []).
Proof.
  intros C P'. unfold calculateWristTrail in *.
  destruct (trailIndices_grow (length frames) impactFrame c c' C) as [extra E].
  rewrite E in P'.
  apply mapM_app_Some in P' as (points & more & P & M & ->).
  exists points, more. split; [exact P |]. split; [reflexivity |]. split.
  - unfold createTrailCurve. rewrite length_app.
    destruct (Nat.ltb_spec (length points) 2) as [S | S].
    + intros [x X]. discriminate.
    + intros _. destruct (Nat.ltb_spec (length points + length more) 2); [lia |].
      eexists. reflexivity.
  - intros F. rewrite !trailIndices_window in E. simpl in E.
    replace (Z.min (Z.min (Z.of_nat (length frames) - 1) (impactFrame + 20)) c')
      with (Z.min (Z.min (Z.of_nat (length frames) - 1) (impactFrame + 20)) c)
      in E by lia.
    assert (X : extra = []).
    { apply (f_equal length) in E. rewrite length_app in E.
      destruct extra; [reflexivity | simpl in E; lia]. }
    subst extra. simpl in M. injection M as <-. reflexivity.
Qed.

Lemma X18_wrist_trail_grows_witness :
  let frame : Frame := replicate 44 (0, 0, 0) in
  let frames := replicate 100 frame in
  exists points' points more,
    calculateWristTrail frames 40 50 = Some points' /\
    calculateWristTrail frames 40 30 = Some points /\
    points' = points ++ more.
Proof.
  intros frame frames.
  assert (W : Forall (fun frame => (4 < length frame)%nat) frames).
  { apply Forall_replicate. simpl. lia. }
  destruct (wrist_trail_some frames 40 50 W) as [points' P'].
  assert (C : (30 <= 50)%Z) by lia.
  destruct (X18_wrist_trail_grows frames 40 30 50 points' C P')
    as (points & more & P & E & _).
  exists points', points, more. auto.
Defined.

End WristTrail.

Section ImpactFrame.

Import Yoc44Service.








End ImpactFrame.

Section Polling.

Import ApiService.

Lemma poll_final (server : nat -> Reply) (n remaining attempts : nat)
    (seen : list JobResponse) :
  (n < remaining)%nat ->
  (forall i, (i < n)%nat -> final (server (attempts + i)%nat) = false) ->
  final (server (attempts + n)%nat) = true ->
  poll server remaining attempts seen =
  {| reported :=
       seen ++ omap (fun i => match server i with
                              | Json st => Some st
                              | _ => None
                              end) (seq attempts (S n));
     waits := (attempts + n)%nat;
     outcome := outcomeOf (server (attempts + n)%nat) |}.
Proof.
  revert remaining attempts seen.
  induction n as [| n IH]; intros remaining attempts seen R Before At.
  - destruct remaining as [| remaining]; [lia |].
    rewrite Nat.add_0_r in *. simpl.
    destruct (server attempts) as [st | | reason]; simpl in *.
    + destruct (status st), (result st); try discriminate; reflexivity.
    + now rewrite app_nil_r.
    + now rewrite app_nil_r.
  - destruct remaining as [| remaining]; [lia |].
    pose proof (Before 0%nat ltac:(lia)) as First.
    rewrite Nat.add_0_r in First.
    assert (Step : exists st, server attempts = Json st /\
              poll server (S remaining) attempts seen =
              poll server remaining (S attempts) (seen ++ [st])).
    { simpl. destruct (server attempts) as [st | | reason];
        try discriminate First.
      exists st. split; [reflexivity |]. simpl in First.
      destruct (status st), (result st); try discriminate; reflexivity. }
    destruct Step as (st & E & ->).
    rewrite (IH remaining (S attempts) (seen ++ [st])).
    + replace (S attempts + n)%nat with (attempts + S n)%nat by lia.
      f_equal. rewrite <- app_assoc. f_equal.
      change (seq attempts (S (S n))) with (attempts :: seq (S attempts) (S n)).
      simpl omap at 2. rewrite E. reflexivity.
    + lia.
    + intros i I. replace (S attempts + i)%nat with (attempts + S i)%nat by lia.
      apply Before. lia.
    + replace (S attempts + n)%nat with (attempts + S n)%nat by lia. exact At.
Qed.

Lemma poll_timeout (server : nat -> Reply) (remaining attempts : nat)
    (seen : list JobResponse) :
  (forall i, (i < remaining)%nat -> final (server (attempts + i)%nat) = false) ->
  poll server remaining attempts seen =
  {| reported :=
       seen ++ omap (fun i => match server i with
                              | Json st => Some st
                              | _ => None
                              end) (seq attempts remaining);
     waits := (attempts + remaining)%nat;
     outcome := Thrown "Job timed out" |}.
Proof.
  revert attempts seen.
  induction remaining as [| remaining IH]; intros attempts seen Before.
  - simpl. now rewrite app_nil_r, Nat.add_0_r.
  - pose proof (Before 0%nat ltac:(lia)) as First.
    rewrite Nat.add_0_r in First.
    assert (Step : exists st, server attempts = Json st /\
              poll server (S remaining) attempts seen =
              poll server remaining (S attempts) (seen ++ [st])).
    { simpl. destruct (server attempts) as [st | | reason];
        try discriminate First.
      exists st. split; [reflexivity |]. simpl in First.
      destruct (status st), (result st); try discriminate; reflexivity. }
    destruct Step as (st & E & ->).
    rewrite (IH (S attempts) (seen ++ [st])).
    + replace (S attempts + remaining)%nat with (attempts + S remaining)%nat by lia.
      f_equal. rewrite <- app_assoc. f_equal.
      change (seq attempts (S remaining)) with (attempts :: seq (S attempts) remaining).
      simpl omap at 2. rewrite E. reflexivity.
    + intros i I. replace (S attempts + i)%nat with (attempts + S i)%nat by lia.
      apply Before. lia.
Qed.

Lemma poll_bounded (server : nat -> Reply) (remaining attempts : nat)
    (seen : list JobResponse) :
  let run := poll server remaining attempts seen in
  (length (reported run) <= length seen + remaining)%nat /\
  (attempts <= waits run <= attempts + remaining)%nat.
Proof.
  revert attempts seen.
  induction remaining as [| remaining IH]; intros attempts seen; simpl.
  - lia.
  - destruct (server attempts) as [st | | reason]; simpl; try lia.
    specialize (IH (S attempts) (seen ++ [st])). simpl in IH.
    rewrite length_app in IH. simpl in IH.
    destruct (status st), (result st); simpl; rewrite ?length_app; simpl; lia.
Qed.

(** X20. Polling ends at the first final reply: when the replies before
    reply [n] (fewer than 120) are all bodies that neither report a
    failure nor a completed job with its result, and reply [n] is final,
    the run has waited [n] times, has reported the bodies of the replies up
    to [n], and ends as reply [n] says: it returns the result of a
    completed job, and throws the job's error (or 'Analysis failed') for a
    failed one and the request's error for a request that fails. *)
Theorem X20_polling_ends_at_first_final_reply (server : nat -> Reply) (n : nat) :
  (n < maxAttempts)%nat ->
  (forall i, (i < n)%nat -> final (server i) = false) ->
  final (server n) = true ->
  pollJobStatus server =
  {| reported := bodies server (S n); waits := n;
     outcome := outcomeOf (server n) |}.
Proof.
  intros N Before At. unfold pollJobStatus, bodies.
  now rewrite (poll_final server n maxAttempts 0 [] N Before At).
Qed.

Lemma X20_polling_ends_at_first_final_reply_witness :
  let body s r :=
    {| job_id := "job-1"; status := s; progress := 0; message := "m";
       result := r; error := None |} in
  let server (i : nat) :=
    if (i <? 2)%nat then Json (body processing None)
    else Json (body completed (Some Studio.PRO_SWING_DATA)) in
  (2 < maxAttempts)%nat /\
  (forall i, (i < 2)%nat -> final (server i) = false) /\
  final (server 2%nat) = true /\
  outcome (pollJobStatus server) = Returned Studio.PRO_SWING_DATA /\
  waits (pollJobStatus server) = 2%nat.
Proof.
  intros body server.
  assert (N : (2 < maxAttempts)%nat) by (unfold maxAttempts; lia).
  assert (B : forall i, (i < 2)%nat -> final (server i) = false).
  { intros [| [| i]] I; [reflexivity | reflexivity | lia]. }
  assert (A : final (server 2%nat) = true) by reflexivity.
  split; [exact N |]. split; [exact B |]. split; [exact A |].
  rewrite (X20_polling_ends_at_first_final_reply server 2 N B A).
  split; reflexivity.
Defined.

(** X21. Polling is bounded: no run asks more than 120 times or waits
    more than 120 times; when none of the first 120 replies is final, the
    run throws 'Job timed out' after reporting all 120 of them. A reply
    'completed' that carries no result is not final, so a backend that
    keeps sending it makes the polling time out. *)
Theorem X21_polling_times_out (server : nat -> Reply) :
  (length (reported (pollJobStatus server)) <= maxAttempts)%nat /\
  (waits (pollJobStatus server) <= maxAttempts)%nat /\
  ((forall i, (i < maxAttempts)%nat -> final (server i) = false) ->
   pollJobStatus server =
   {| reported := bodies server maxAttempts; waits := maxAttempts;
      outcome := Thrown "Job timed out" |}) /\
  ((forall i, exists st, server i = Json st /\ status st = completed /\
                         result st = None) ->
   outcome (pollJobStatus server) = Thrown "Job timed out").
Proof.
  unfold pollJobStatus, bodies. generalize maxAttempts. intros m.
  pose proof (poll_bounded server m 0 []) as [B1 B2].
  split; [exact B1 |]. split; [apply B2 |].
  assert (T : (forall i, (i < m)%nat -> final (server i) = false) ->
              poll server m 0 [] =
              {| reported := omap (fun i => match server i with
                                            | Json st => Some st
                                            | _ => None
                                            end) (seq 0 m);
                 waits := m;
                 outcome := Thrown "Job timed out" |}).
  { intros Before. now rewrite (poll_timeout server m 0 [] Before). }
  split; [exact T |].
  intros C. rewrite T; [reflexivity |].
  intros i _. destruct (C i) as (st & -> & S & R). simpl. now rewrite S, R.
Qed.

End Polling.

Section DeltaClock.

Import BattleMode.

Lemma delta_nonneg (st : BattleMode.t) (time : R) :
  match lastTime st with Some l => l <= time | None => True end ->
  0 <= delta time st.
Proof.
  intros H. unfold delta, lastUnset.
  destruct (lastTime st) as [l |]; simpl.
  - destruct (falsy l); lra.
  - lra.
Qed.

(** What holds of a run from position [p]: it is going on at or after
    [p], below the duration, or it has ended and is back at 0. *)
Lemma animate_advances (p : R) (st : BattleMode.t) (time : R) :
  match lastTime st with Some l => l <= time | None => True end ->
  (isPlaying st = true /\ p <= currentTime st < duration st) \/
  (isPlaying st = false /\ currentTime st = 0) ->
  let st' := animate time st in
  duration st' = duration st /\
  ((isPlaying st' = true /\ p <= currentTime st' < duration st' /\
    currentTime st <= currentTime st') \/
   (isPlaying st' = false /\ currentTime st' = 0)).
Proof.
  intros L H. pose proof (delta_nonneg st time L) as D.
  unfold animate. destruct H as [(P & B) | (P & C)]; rewrite P.
  - destruct (Rge_dec _ _) as [G | G]; simpl.
    + split; [reflexivity |]. right. now split.
    + split; [reflexivity |]. left.
      split; [reflexivity |]. split; lra.
  - simpl. split; [reflexivity |]. right. now split.
Qed.

Lemma frames_advance (p : R) (times : list R) (st : BattleMode.t) :
  StronglySorted Rle times ->
  match lastTime st with
  | Some l => Forall (fun time => l <= time) times
  | None => True
  end ->
  (isPlaying st = true /\ p <= currentTime st < duration st) \/
  (isPlaying st = false /\ currentTime st = 0) ->
  let st' := frames st times in
  duration st' = duration st /\
  ((isPlaying st' = true /\ p <= currentTime st' < duration st' /\
    currentTime st <= currentTime st') \/
   (isPlaying st' = false /\ currentTime st' = 0)).
Proof.
  revert st. induction times as [| time rest IH]; intros st S L H.
  - simpl. split; [reflexivity |].
    destruct H as [(P & B) | H]; [left | now right].
    split; [exact P |]. split; [exact B | lra].
  - apply StronglySorted_inv in S as [S F].
    assert (L0 : match lastTime st with Some l => l <= time | None => True end).
    { destruct (lastTime st); [| exact I]. now apply Forall_cons in L as [L _]. }
    destruct (animate_advances p st time L0 H) as (Du & H').
    unfold frames. simpl fold_left. fold (frames (animate time st) rest).
    assert (H'' : (isPlaying (animate time st) = true /\
                   p <= currentTime (animate time st) < duration (animate time st)) \/
                  (isPlaying (animate time st) = false /\
                   currentTime (animate time st) = 0)).
    { destruct H' as [(P & B & _) | H']; [left; now split | now right]. }
    destruct (IH (animate time st) S) as (Du' & R); [| exact H'' |].
    { destruct (lastTime (animate time st)) as [l |] eqn:E; [| exact I].
      assert (l = time \/ lastTime st = Some l) as [-> | Old].
      { unfold animate in E. destruct (isPlaying st).
        - destruct (Rge_dec _ _); simpl in E; [discriminate |].
          injection E as <-. now left.
        - simpl in E. injection E as <-. now left. }
      - apply Forall_forall. intros x X. rewrite List.Forall_forall in F.
        apply F. now apply list_elem_of_In.
      - rewrite Old in L. now apply Forall_cons in L as [_ L]. }
    split; [congruence |].
    destruct R as [(P & B & M) | R]; [left | now right].
    split; [exact P |]. split; [exact B |].
    destruct H' as [(_ & _ & M') | (P' & _)]; [lra |].
    exfalso. clear - P P'. revert P P'. generalize (animate time st). intros s P P'.
    assert (Z : forall l s, isPlaying s = false -> isPlaying (frames s l) = false).
    { clear. induction l as [| t l IH]; intros s P; [exact P |].
      unfold frames. simpl. apply IH. unfold animate. now rewrite P. }
    rewrite (Z rest s P') in P. discriminate.
Qed.

(** X22. The comparison screen resumes from where it was paused and only
    moves forward: after play at a position [p] below the duration, the
    first frame leaves the position at [p]; over any frames at times that
    do not run backwards, the position is never below [p] and stays below
    the duration while the run goes on, and a run that has ended is paused
    at position 0. The duration is never changed. *)
Theorem X22_battle_clock_resumes_and_advances
    (st : BattleMode.t) (t1 : R) (times : list R) :
  isPlaying st = false -> 0 <= currentTime st < duration st ->
  StronglySorted Rle (t1 :: times) ->
  let first := frames (togglePlay st) [t1] in
  let st' := frames (togglePlay st) (t1 :: times) in
  isPlaying first = true /\ currentTime first = currentTime st /\
  duration st' = duration st /\
  ((isPlaying st' = true /\ currentTime st <= currentTime st' < duration st) \/
   (isPlaying st' = false /\ currentTime st' = 0)).
Proof.
  intros P B S first st'.
  assert (F : first = {| duration := duration st; isPlaying := true;
                         currentTime := currentTime st; lastTime := Some t1 |}).
  { subst first. unfold frames, animate, togglePlay, delta, lastUnset. simpl.
    rewrite P. simpl.
    replace (currentTime st + (t1 - t1) / 1000) with (currentTime st) by lra.
    destruct (Rge_dec _ _) as [G | _]; [lra | reflexivity]. }
  split; [now rewrite F |]. split; [now rewrite F |].
  assert (E : st' = frames first times) by reflexivity.
  apply StronglySorted_inv in S as [S L].
  destruct (frames_advance (currentTime st) times first S) as (Du & R).
  - rewrite F. simpl. apply Forall_forall. intros x X.
    rewrite List.Forall_forall in L. apply L. now apply list_elem_of_In.
  - left. rewrite F. simpl. split; [reflexivity | lra].
  - assert (Df : duration first = duration st) by now rewrite F.
    rewrite E. split; [congruence |].
    destruct R as [(P' & B' & _) | R]; [left | now right].
    split; [exact P' |]. rewrite Du, Df in B'. exact B'.
Qed.

Lemma X22_battle_clock_resumes_and_advances_witness :
  let st := {| duration := 2.5; isPlaying := false; currentTime := 1;
               lastTime := None |} in
  let st' := frames (togglePlay st) [1000; 1016; 1500] in
  isPlaying st = false /\ 0 <= currentTime st < duration st /\
  StronglySorted Rle [1000; 1016; 1500] /\
  currentTime (frames (togglePlay st) [1000]) = currentTime st /\
  ((isPlaying st' = true /\ currentTime st <= currentTime st' < duration st) \/
   (isPlaying st' = false /\ currentTime st' = 0)).
Proof.
  intros st st'.
  assert (P : isPlaying st = false) by reflexivity.
  assert (B : 0 <= currentTime st < duration st) by (simpl; lra).
  assert (S : StronglySorted Rle [1000; 1016; 1500]).
  { repeat (apply SSorted_cons;
            [| repeat (apply List.Forall_cons; [lra |]); apply List.Forall_nil]).
    apply SSorted_nil. }
  destruct (X22_battle_clock_resumes_and_advances st 1000 [1016; 1500] P B S)
    as (_ & C & _ & R).
  split; [exact P |]. split; [exact B |]. split; [exact S |].
  split; [exact C | exact R].
Defined.

End DeltaClock.

Section StepClock.

Import LegacyStudio.

Lemma legacy_frame_running (st : LegacyStudio.t) (s time : R) :
  frameRequested st = true -> isPlaying st = true ->
  startTimeRef st = Some s -> s <> 0 ->
  currentTime st + (time - s) / 1000 * speed st * 0.05 < duration st ->
  frame st time =
  {| duration := duration st; isPlaying := true;
     currentTime := currentTime st + (time - s) / 1000 * speed st * 0.05;
     speed := speed st; frameRequested := true; startTimeRef := Some s |}.
Proof.
  intros F P S N B. unfold frame, animate, newTime, startUnset.
  rewrite F, S, (falsy_nonzero s N). simpl.
  destruct (Rge_dec _ _) as [G | _]; [lra |].
  unfold playEffect. simpl. rewrite P. reflexivity.
Qed.

Lemma legacy_frames_sum (times : list R) (st : LegacyStudio.t) (s : R) :
  frameRequested st = true -> isPlaying st = true ->
  startTimeRef st = Some s -> s <> 0 -> 0 <= speed st ->
  Forall (fun time => s <= time) times ->
  currentTime st
  + fold_right Rplus 0 (map (fun time => time - s) times) / 1000 * speed st * 0.05
  < duration st ->
  LegacyClock.frames st times =
  {| duration := duration st; isPlaying := true;
     currentTime :=
       currentTime st
       + fold_right Rplus 0 (map (fun time => time - s) times) / 1000
         * speed st * 0.05;
     speed := speed st; frameRequested := true; startTimeRef := Some s |}.
Proof.
  revert st. induction times as [| time rest IH]; intros st F P S N V A B.
  - destruct st as [d p c sp f sr]. simpl in *. subst. f_equal. lra.
  - apply Forall_cons in A as [A0 A]. simpl in B.
    assert (T : 0 <= fold_right Rplus 0 (map (fun time => time - s) rest)).
    { clear - A. induction rest as [| r rest IH]; simpl; [lra |].
      apply Forall_cons in A as [A0 A]. specialize (IH A). lra. }
    assert (T1 : 0 <= fold_right Rplus 0 (map (fun time => time - s) rest)
                      / 1000 * speed st * 0.05).
    { apply Rmult_le_pos; [| lra]. apply Rmult_le_pos; [| exact V]. lra. }
    assert (T2 : 0 <= (time - s) / 1000 * speed st * 0.05).
    { apply Rmult_le_pos; [| lra]. apply Rmult_le_pos; [| exact V]. lra. }
    unfold LegacyClock.frames. simpl fold_left.
    rewrite (legacy_frame_running st s time F P S N) by lra.
    fold (LegacyClock.frames
            {| duration := duration st; isPlaying := true;
               currentTime := currentTime st + (time - s) / 1000 * speed st * 0.05;
               speed := speed st; frameRequested := true;
               startTimeRef := Some s |} rest).
    rewrite IH; simpl; try reflexivity; try assumption.
    + f_equal. lra.
    + lra.
Qed.

(** X23. The first studio component counts each frame's whole elapsed
    time again: with the start time [s] set, frames at times
    [t1 .. tn] (none before [s]) move the position by
    [0.05 * speed * ((t1 - s) + ... + (tn - s)) / 1000], as long as this
    stays below the duration. The position therefore depends on how many
    frames were drawn, not only on the time that has passed: one more
    frame at time [t] adds [0.05 * speed * (t - s) / 1000]. *)
Theorem X23_legacy_clock_adds_elapsed_per_frame
    (st : LegacyStudio.t) (s : R) (times : list R) :
  frameRequested st = true -> isPlaying st = true ->
  startTimeRef st = Some s -> s <> 0 -> 0 <= speed st ->
  Forall (fun time => s <= time) times ->
  currentTime st
  + fold_right Rplus 0 (map (fun time => time - s) times) / 1000 * speed st * 0.05
  < duration st ->
  currentTime (LegacyClock.frames st times) =
  currentTime st
  + fold_right Rplus 0 (map (fun time => time - s) times) / 1000
    * speed st * 0.05 /\
  forall time, s <= time ->
    currentTime st
    + fold_right Rplus 0 (map (fun time => time - s) (time :: times)) / 1000
      * speed st * 0.05 < duration st ->
    currentTime (LegacyClock.frames st (time :: times)) =
    currentTime (LegacyClock.frames st times)
    + (time - s) / 1000 * speed st * 0.05.
Proof.
  intros F P S N V A B.
  pose proof (legacy_frames_sum times st s F P S N V A B) as E.
  split; [now rewrite E |].
  intros time T B'.
  assert (A' : Forall (fun time => s <= time) (time :: times)).
  { apply Forall_cons. now split. }
  rewrite (legacy_frames_sum (time :: times) st s F P S N V A' B'), E.
  simpl. lra.
Qed.

Lemma X23_legacy_clock_adds_elapsed_per_frame_witness :
  let st := {| duration := 2.5; isPlaying := true; currentTime := 0;
               speed := 1; frameRequested := true;
               startTimeRef := Some 1000 |} in
  currentTime (LegacyClock.frames st [1016; 1032]) =
  currentTime st
  + fold_right Rplus 0 (map (fun time => time - 1000) [1016; 1032]) / 1000
    * speed st * 0.05.
Proof.
  intros st.
  assert (F : frameRequested st = true) by reflexivity.
  assert (P : isPlaying st = true) by reflexivity.
  assert (S : startTimeRef st = Some 1000) by reflexivity.
  assert (N : 1000 <> 0) by lra.
  assert (V : 0 <= speed st) by (simpl; lra).
  assert (A : Forall (fun time => 1000 <= time) [1016; 1032]).
  { repeat (apply Forall_cons; split; [lra |]). apply Forall_nil. exact I. }
  assert (B : currentTime st
              + fold_right Rplus 0 (map (fun time => time - 1000) [1016; 1032])
                / 1000 * speed st * 0.05 < duration st) by (simpl; lra).
  exact (proj1 (X23_legacy_clock_adds_elapsed_per_frame st 1000 [1016; 1032]
                  F P S N V A B)).
Defined.

End StepClock.

Section ClosestFrame.

Import PoseOverlay.

Lemma fold_closer (currentTime : R) (rest : list PoseFrame) (first : PoseFrame) :
  let frame := fold_left (closer currentTime) rest first in
  In frame (first :: rest) /\
  forall other, In other (first :: rest) ->
    Rabs (timestamp frame - currentTime) <= Rabs (timestamp other - currentTime).
Proof.
  revert first. induction rest as [| next rest IH]; intros first; simpl.
  - split; [now left |]. intros other [<- | []]. lra.
  - destruct (IH (closer currentTime first next)) as [I M]. simpl in I, M.
    assert (C : (closer currentTime first next = first \/
                 closer currentTime first next = next) /\
                Rabs (timestamp (closer currentTime first next) - currentTime)
                <= Rabs (timestamp first - currentTime) /\
                Rabs (timestamp (closer currentTime first next) - currentTime)
                <= Rabs (timestamp next - currentTime)).
    { unfold closer. destruct (Rlt_dec _ _); split; auto; lra. }
    destruct C as (C & C1 & C2). split.
    + destruct I as [I | I]; [| now right; right].
      rewrite <- I. destruct C as [-> | ->]; [now left | right; now left].
    + intros other [<- | [<- | O]].
      * etransitivity; [apply M; now left | exact C1].
      * etransitivity; [apply M; now left | exact C2].
      * apply M. now right.
Qed.

Lemma drawn_near (poseData : list PoseFrame) (currentTime : R) (near : PoseFrame) :
  In near poseData -> Rabs (timestamp near - currentTime) <= 0.2 ->
  exists frame,
    drawn poseData currentTime = Some frame /\
    Rabs (timestamp frame - currentTime) <= Rabs (timestamp near - currentTime).
Proof.
  intros I N. unfold drawn, closest. destruct poseData as [| first rest]; [destruct I |].
  destruct (fold_closer currentTime rest first) as [_ M]. simpl in M.
  specialize (M near I).
  destruct (Rgt_dec _ _) as [G | G]; [lra |].
  eexists. split; [reflexivity | exact M].
Qed.


End ClosestFrame.

Section ViewerInStudio.

Import Studio Skeleton3DViewer.

Lemma after_within (initial : SwingData) (events : list Event) :
  0 <= duration initial ->
  admissibleFrom initial (mount initial AudioService.new) events ->
  0 <= currentTime (after initial events)
    <= duration (data (after initial events)).
Proof.
  intros D A.
  assert (H0 : withinRecording (mount initial AudioService.new)).
  { unfold withinRecording. simpl. repeat split; lra. }
  pose proof (withinRecording_run initial events _ H0 A) as [[L U] _].
  destruct (consistent_after initial events) as (_ & _ & _ & _ & Du & _).
  fold (after initial events) in L, U. rewrite Du in U. split; assumption.
Qed.

(** X25. The 3D viewer of the studio never selects a frame outside the
    recording: after any history of events in which frame times do not run
    backwards and speeds and durations are not negative, the frame
    computed from the studio's position and the duration of the recording
    shown (when positive) is an index of the pose frames, and the wrist
    trail up to that frame is defined when every frame has a right
    wrist. *)
Theorem X25_studio_viewer_frame_is_valid
    (initial : SwingData) (events : list Event)
    (normalizedFrames : list Yoc44Service.Frame) (impactFrame : Z)
    (currentFrame : Z) :
  0 <= duration initial ->
  admissibleFrom initial (mount initial AudioService.new) events ->
  0 < duration (data (after initial events)) ->
  normalizedFrames <> [] ->
  Forall (fun frame => (4 < length frame)%nat) normalizedFrames ->
  let st := after initial events in
  let k := currentFrameEffect (currentTime st) (duration (data st))
             (length normalizedFrames) currentFrame in
  is_Some (normalizedFrames !! Z.to_nat k) /\
  Z.min k (Z.of_nat (length normalizedFrames) - 1) = k /\
  is_Some (Yoc44Service.calculateWristTrail normalizedFrames impactFrame k).
Proof.
  intros D A P N W st k.
  destruct (after_within initial events D A) as [L U]. fold st in L, U.
  assert (Len : (0 < length normalizedFrames)%nat).
  { destruct normalizedFrames; [contradiction | simpl; lia]. }
  assert (K : (0 <= k < Z.of_nat (length normalizedFrames))%Z).
  { subst k. unfold currentFrameEffect.
    destruct (Nat.ltb_spec 0 (length normalizedFrames)); [| lia].
    now apply frameIndex_range. }
  split; [apply lookup_lt_is_Some_2; lia |]. split; [lia |].
  exact (wrist_trail_some normalizedFrames impactFrame k W).
Qed.

Lemma X25_studio_viewer_frame_is_valid_witness :
  let events := [HandleSpeedChange 0.5; TogglePlay] in
  let frame : Yoc44Service.Frame := replicate 44 (0, 0, 0) in
  let frames := replicate 75 frame in
  let st := after PRO_SWING_DATA events in
  0 <= duration PRO_SWING_DATA /\
  admissibleFrom PRO_SWING_DATA (mount PRO_SWING_DATA AudioService.new) events /\
  0 < duration (data st) /\
  is_Some (frames !! Z.to_nat
             (currentFrameEffect (currentTime st) (duration (data st))
                (length frames) 0)).
Proof.
  intros events frame frames st.
  assert (D : 0 <= duration PRO_SWING_DATA) by (simpl; lra).
  assert (A : admissibleFrom PRO_SWING_DATA
                (mount PRO_SWING_DATA AudioService.new) events).
  { split; [simpl; lra |]. split; exact I. }
  assert (P : 0 < duration (data st)) by (simpl; lra).
  assert (N : frames <> []) by discriminate.
  assert (W : Forall (fun frame => (4 < length frame)%nat) frames).
  { apply Forall_replicate. simpl. lia. }
  split; [exact D |]. split; [exact A |]. split; [exact P |].
  exact (proj1 (X25_studio_viewer_frame_is_valid PRO_SWING_DATA events frames
                  40 0 D A P N W)).
Defined.

End ViewerInStudio.

Section GeneratedPoses.

Import PoseOverlay Constants.

Lemma place_length (target : list Anchor) (t : R) (kps : list Keypoint) (s : Anchor) :
  length (place target t kps s) = length kps.
Proof. unfold place. apply length_insert. Qed.

Lemma interpolate_length (start target : list Anchor) (t : R) :
  length (interpolate start target t) = 17%nat.
Proof.
  unfold interpolate. rewrite !length_insert.
  assert (H : forall kps, length (fold_left (place target t) start kps) = length kps).
  { induction start as [| s start IH]; intros kps; [reflexivity |].
    simpl. rewrite IH. apply place_length. }
  rewrite H. apply length_replicate.
Qed.

Lemma poseAt_keypoints (duration : R) (f : nat) :
  length (keypoints (poseAt duration f)) = 17%nat.
Proof.
  unfold poseAt. simpl.
  destruct (Rlt_dec _ _); [| destruct (Rlt_dec _ _)]; apply interpolate_length.
Qed.

Lemma generated_frame (duration : R) (f : nat) :
  (f < totalFrames duration)%nat ->
  generateProPoseSequence duration !! f = Some (poseAt duration f).
Proof.
  intros F. unfold generateProPoseSequence.
  rewrite list_lookup_fmap, lookup_seq_lt by exact F. reflexivity.
Qed.

Lemma near_frame (duration currentTime : R) :
  / 30 <= duration -> 0 <= currentTime <= duration ->
  exists f, (f < totalFrames duration)%nat /\
            Rabs (timestamp (poseAt duration f) - currentTime) < / 15.
Proof.
  intros D [T0 T1]. unfold totalFrames.
  set (N := Zfloor (duration * 30)).
  set (k := Zfloor (currentTime * 30)).
  pose proof (Zfloor_bound (duration * 30)) as [NL NU]. fold N in NL, NU.
  pose proof (Zfloor_bound (currentTime * 30)) as [KL KU]. fold k in KL, KU.
  assert (N1 : (1 <= N)%Z) by (apply Zfloor_lub; lra).
  assert (K0 : (0 <= k)%Z) by (apply Zfloor_lub; lra).
  assert (KN : (k <= N)%Z) by (apply Zfloor_le; nra).
  exists (Z.to_nat (Z.min k (N - 1))). split; [lia |].
  unfold poseAt. simpl. rewrite Z2Nat.id by lia.
  destruct (Z.le_gt_cases k (N - 1)) as [C | C].
  - rewrite Z.min_l by exact C. apply Rabs_def1; lra.
  - rewrite Z.min_r by lia.
    assert (E : k = N) by lia. rewrite E in KL.
    rewrite minus_IZR. apply Rabs_def1; lra.
Qed.

(** X26. The generated pose data leaves no gap for the overlay: the
    sequence for a duration of at least one frame (1/30 s) has
    [floor (30 * duration)] frames, frame [f] at time [f / 30] with 17
    keypoints, and at every position from 0 to the duration the overlay
    finds a frame to draw, less than 1/15 s away. *)
Theorem X26_generated_poses_cover_the_recording (duration currentTime : R) :
  / 30 <= duration -> 0 <= currentTime <= duration ->
  length (generateProPoseSequence duration) = Z.to_nat (Zfloor (duration * 30)) /\
  (forall f frame, generateProPoseSequence duration !! f = Some frame ->
     timestamp frame = IZR (Z.of_nat f) / 30 /\
     length (keypoints frame) = 17%nat) /\
  exists frame,
    drawn (generateProPoseSequence duration) currentTime = Some frame /\
    Rabs (timestamp frame - currentTime) < / 15.
Proof.
  intros D T. split; [| split].
  - unfold generateProPoseSequence. rewrite length_map, length_seq. reflexivity.
  - intros f frame E.
    assert (F : (f < totalFrames duration)%nat).
    { apply lookup_lt_Some in E. unfold generateProPoseSequence in E.
      now rewrite length_map, length_seq in E. }
    rewrite (generated_frame duration f F) in E. injection E as <-.
    split; [reflexivity | apply poseAt_keypoints].
  - destruct (near_frame duration currentTime D T) as (f & F & Near).
    assert (I : In (poseAt duration f) (generateProPoseSequence duration)).
    { apply list_elem_of_In. eapply list_elem_of_lookup_2.
      now apply generated_frame. }
    destruct (drawn_near (generateProPoseSequence duration) currentTime
                (poseAt duration f) I) as (frame & E & M); [lra |].
    exists frame. split; [exact E | lra].
Qed.

Lemma X26_generated_poses_cover_the_recording_witness :
  / 30 <= 2.5 /\ 0 <= 1 <= 2.5 /\
  exists frame,
    drawn (generateProPoseSequence 2.5) 1 = Some frame /\
    Rabs (timestamp frame - 1) < / 15.
Proof.
  assert (D : / 30 <= 2.5) by lra.
  assert (T : 0 <= 1 <= 2.5) by lra.
  split; [exact D |]. split; [exact T |].
  exact (proj2 (proj2 (X26_generated_poses_cover_the_recording 2.5 1 D T))).
Defined.

End GeneratedPoses.

Section Particles.

Import Studio ParticleVisualizer.

Lemma trigger_steady (nodes : list RhythmNode) (seen : list R) (time : R)
    (st : ParticleVisualizer.t) (node : RhythmNode) :
  In node nodes -> In time seen -> steady nodes seen st ->
  steady nodes seen (trigger time st node) /\
  lastSpawned st ⊆ lastSpawned (trigger time st node) /\
  (isHit time node = true -> node_id node ∈ lastSpawned (trigger time st node)).
Proof.
  intros N T (D & S & H). unfold trigger.
  destruct (isHit time node) eqn:Hit; simpl;
    [destruct (bool_decide_reflect (node_id node ∈ lastSpawned st)) as [M | M] |];
    simpl.
  - split; [now split |]. split; [reflexivity | auto].
  - split; [split; [| split]; simpl |].
    + rewrite map_app. simpl. apply NoDup_app. split; [exact D |].
      split; [| apply NoDup_singleton].
      intros k K ->%list_elem_of_singleton. apply M, S.
      now apply list_elem_of_In.
    + intros k. rewrite map_app, in_app_iff, elem_of_union, elem_of_singleton.
      rewrite S. simpl. intuition.
    + intros n [I | [<- | []]]%in_app_iff; [now apply H |].
      split; [exact N |]. now exists time.
    + split; [apply union_subseteq_r |].
      intros _. apply elem_of_union_l, elem_of_singleton. reflexivity.
  - split; [now split |]. split; [reflexivity | discriminate].
Qed.

Lemma fold_trigger_steady (nodes : list RhythmNode) (seen : list R) (time : R)
    (todo : list RhythmNode) (st : ParticleVisualizer.t) :
  (forall n, In n todo -> In n nodes) -> In time seen -> steady nodes seen st ->
  let st' := fold_left (trigger time) todo st in
  steady nodes seen st' /\
  lastSpawned st ⊆ lastSpawned st' /\
  (forall n, In n todo -> isHit time n = true -> node_id n ∈ lastSpawned st').
Proof.
  revert st. induction todo as [| node todo IH]; intros st N T S; simpl.
  - split; [exact S |]. split; [reflexivity |]. intros n [].
  - destruct (trigger_steady nodes seen time st node) as (S1 & M1 & H1);
      [apply N; now left | exact T | exact S |].
    destruct (IH (trigger time st node)) as (S2 & M2 & H2);
      [intros n I; apply N; now right | exact T | exact S1 |].
    simpl in S2, M2, H2. split; [exact S2 |].
    split; [etransitivity; eassumption |].
    intros n [<- | I] Hit; [apply M2, H1, Hit | now apply H2].
Qed.

Lemma steady_more (nodes : list RhythmNode) (seen : list R) (time : R)
    (st : ParticleVisualizer.t) :
  steady nodes seen st -> steady nodes (seen ++ [time]) st.
Proof.
  intros (D & S & H). split; [exact D |]. split; [exact S |].
  intros n I. destruct (H n I) as (N & t0 & T & Hit).
  split; [exact N |]. exists t0. split; [| exact Hit].
  apply in_app_iff. now left.
Qed.

Lemma renders_steady (nodes : list RhythmNode) (times : list R) :
  let st := renders nodes ParticleVisualizer.new (map (pair true) times) in
  steady nodes times st /\
  forall n time, In n nodes -> In time times -> isHit time n = true ->
    node_id n ∈ lastSpawned st.
Proof.
  induction times as [| time times IH] using rev_ind; simpl.
  - split; [| intros n time _ []].
    split; [apply NoDup_nil_2 |]. split; [| intros n []].
    intros k. simpl. split; [intros E; now apply not_elem_of_empty in E | intros []].
  - destruct IH as [S C]. unfold renders in *.
    rewrite map_app, fold_left_app. simpl.
    set (st := fold_left (render nodes) (map (pair true) times)
                 ParticleVisualizer.new) in *.
    destruct (fold_trigger_steady nodes (times ++ [time]) time nodes st)
      as (S' & M & H);
      [auto | apply in_app_iff; right; now left | now apply steady_more |].
    simpl in S', M, H. split; [exact S' |].
    intros n t0 N [T | [<- | []]]%in_app_iff Hit.
    + apply M. now apply (C n t0).
    + now apply H.
Qed.

(** X27. The particle view fires one burst per node id in a stretch of
    playback: over any positions rendered while playing (in any order,
    also after a jump back to 0), no two bursts are for the same id; a
    burst is for a node of the track that a rendered position came within
    0.08 s of; and every node that a rendered position came within
    0.08 s of has had a burst for its id. *)
Theorem X27_one_burst_per_node (nodes : list RhythmNode) (times : list R) :
  let st := renders nodes ParticleVisualizer.new (map (pair true) times) in
  NoDup (map node_id (spawned st)) /\
  (forall n, In n (spawned st) ->
     In n nodes /\ exists time, In time times /\ isHit time n = true) /\
  (forall n time, In n nodes -> In time times -> isHit time n = true ->
     exists m, In m (spawned st) /\ node_id m = node_id n).
Proof.
  intros st. destruct (renders_steady nodes times) as [(D & S & H) C].
  fold st in D, S, H, C. split; [exact D |]. split; [exact H |].
  intros n time N T Hit.
  apply (C n time N T) in Hit. apply S in Hit.
  apply in_map_iff in Hit as (m & E & I). now exists m.
Qed.

End Particles.
